(** * Hardware topology discovery (libgalois/src/HWTopoLinux.cpp)

    A shallow embedding of the Linux topology pipeline of katana:
    the /proc/cpuinfo parser, the NUMA resolver, the allowed-set filter,
    the topology builder, the process-wide cache and the affinity binder,
    followed by the properties of the specification that were checked
    against it. *)

From Stdlib Require Import ZArith Lia Ascii.
From Stdlib Require String.
From stdpp Require Import base tactics option list sorting strings pretty.

Local Open Scope Z_scope.

(** ** Machine integers

    [int] and [unsigned] are 32 bits wide on the targets of this file, [long]
    is 64 bits wide.  Values are kept in [Z]; every narrowing the source
    performs is written out. *)

Definition to_unsigned (z : Z) : Z := z mod 2 ^ 32.

Definition to_int (z : Z) : Z := (z + 2 ^ 31) mod 2 ^ 32 - 2 ^ 31.

Definition INT_MAX : Z := 2 ^ 31 - 1.
Definition LONG_MAX : Z := 2 ^ 63 - 1.
Definition LONG_MIN : Z := - 2 ^ 63.

(** ** Failures

    The ways in which a call of this file does not return: [KATANA_SYS_DIE]
    (the process exits with a diagnostic), an exception of
    [std::vector::at] or [std::vector::resize] that nothing catches, a failed
    [KATANA_LOG_DEBUG_ASSERT], and a call through a null function pointer. *)

Inductive failure :=
  | SysDie (msg : string)
  | OutOfRange
  | LengthError
  | AssertFailed
  | NullCall.

Inductive result (A : Type) :=
  | Ok (a : A)
  | Err (e : failure).
Arguments Ok {A} a.
Arguments Err {A} e.

Global Instance result_ret : MRet result := @Ok.

Global Instance result_bind : MBind result := λ A B k r,
  match r with
  | Ok a => k a
  | Err e => Err e
  end.

(** ** [sscanf] restricted to the formats of this file

    Every format used by [parseCPUInfo] consists of literal characters, white
    space and one final [%d].  A white-space directive skips any amount of
    white space (also none); a literal has to match the next character;
    [%d] skips white space, reads an optional sign and at least one decimal
    digit.  The call yields 1 exactly when the conversion succeeded, which
    is modelled by [Some]. *)

Inductive directive :=
  | Lit (c : ascii)
  | Space
  | ConvD.

Definition isspace (c : ascii) : bool :=
  let n := N_of_ascii c in
  (n =? 32)%N || ((9 <=? n)%N && (n <=? 13)%N).

Definition isdigit (c : ascii) : bool :=
  let n := N_of_ascii c in
  (48 <=? n)%N && (n <=? 57)%N.

Definition digit_value (c : ascii) : Z := Z.of_N (N_of_ascii c) - 48.

Fixpoint directives (fmt : string) : list directive :=
  match fmt with
  | EmptyString => []
  | String c fmt' =>
      if Ascii.eqb c "%" then
        match fmt' with
        | String _ fmt'' => ConvD :: directives fmt''
        | EmptyString => []
        end
      else if isspace c then Space :: directives fmt'
      else Lit c :: directives fmt'
  end.

(** [line.data()] is read as a C string: it ends at the first NUL. *)
Fixpoint c_str (s : string) : string :=
  match s with
  | EmptyString => EmptyString
  | String c s' => if Ascii.eqb c "000" then EmptyString else String c (c_str s')
  end.

Fixpoint skip_space (s : string) : string :=
  match s with
  | EmptyString => EmptyString
  | String c s' => if isspace c then skip_space s' else s
  end.

Fixpoint scan_digits (acc : Z) (s : string) : Z :=
  match s with
  | EmptyString => acc
  | String c s' =>
      if isdigit c then scan_digits (10 * acc + digit_value c) s' else acc
  end.

(** The C standard leaves a [%d] whose value does not fit an [int]
    undefined; glibc converts with [strtol], which saturates at the bounds of
    [long], and stores the low 32 bits. *)
Definition store_int (v : Z) : Z :=
  to_int (Z.max LONG_MIN (Z.min LONG_MAX v)).

Definition scan_d (s : string) : option Z :=
  let s := skip_space s in
  let '(neg, s) :=
    match s with
    | String c s' =>
        if Ascii.eqb c "-" then (true, s')
        else if Ascii.eqb c "+" then (false, s')
        else (false, s)
    | EmptyString => (false, s)
    end in
  match s with
  | String c _ =>
      if isdigit c then
        let v := scan_digits 0 s in
        Some (store_int (if neg : bool then - v else v))
      else None
  | EmptyString => None
  end.

Fixpoint scanf_match (ds : list directive) (s : string) : option Z :=
  match ds with
  | [] => None
  | Space :: ds' => scanf_match ds' (skip_space s)
  | Lit c :: ds' =>
      match s with
      | String c' s' => if Ascii.eqb c c' then scanf_match ds' s' else None
      | EmptyString => None
      end
  | ConvD :: _ => scan_d s
  end.

Definition sscanf (line fmt : string) : option Z :=
  scanf_match (directives fmt) (c_str line).

(** ** /proc/cpuinfo records *)

Record cpuinfo := mk_cpuinfo {
  proc : Z;
  physid : Z;
  sib : Z;
  coreid : Z;
  cpucores : Z;
  numaNode : Z;
  valid : bool;
  smt : bool
}.

(** [std::vector::resize] value-initialises the records it appends. *)
Definition cpuinfo_zero : cpuinfo := mk_cpuinfo 0 0 0 0 0 0 false false.

Definition set_proc (v : Z) (c : cpuinfo) : cpuinfo :=
  mk_cpuinfo v (physid c) (sib c) (coreid c) (cpucores c) (numaNode c) (valid c) (smt c).
Definition set_physid (v : Z) (c : cpuinfo) : cpuinfo :=
  mk_cpuinfo (proc c) v (sib c) (coreid c) (cpucores c) (numaNode c) (valid c) (smt c).
Definition set_sib (v : Z) (c : cpuinfo) : cpuinfo :=
  mk_cpuinfo (proc c) (physid c) v (coreid c) (cpucores c) (numaNode c) (valid c) (smt c).
Definition set_coreid (v : Z) (c : cpuinfo) : cpuinfo :=
  mk_cpuinfo (proc c) (physid c) (sib c) v (cpucores c) (numaNode c) (valid c) (smt c).
Definition set_cpucores (v : Z) (c : cpuinfo) : cpuinfo :=
  mk_cpuinfo (proc c) (physid c) (sib c) (coreid c) v (numaNode c) (valid c) (smt c).
Definition set_numaNode (v : Z) (c : cpuinfo) : cpuinfo :=
  mk_cpuinfo (proc c) (physid c) (sib c) (coreid c) (cpucores c) v (valid c) (smt c).
Definition set_valid (v : bool) (c : cpuinfo) : cpuinfo :=
  mk_cpuinfo (proc c) (physid c) (sib c) (coreid c) (cpucores c) (numaNode c) v (smt c).
Definition set_smt (v : bool) (c : cpuinfo) : cpuinfo :=
  mk_cpuinfo (proc c) (physid c) (sib c) (coreid c) (cpucores c) (numaNode c) (valid c) v.

(** [operator<] on records. *)
Definition cpuinfo_lt (lhs rhs : cpuinfo) : bool :=
  if negb (Bool.eqb (smt lhs) (smt rhs)) then negb (smt lhs) && smt rhs
  else if negb (physid lhs =? physid rhs) then physid lhs <? physid rhs
  else if negb (coreid lhs =? coreid rhs) then coreid lhs <? coreid rhs
  else proc lhs <? proc rhs.

(** ** The line loop of [parseCPUInfo]

    The chain of [sscanf] tests is [classify]: the first format that converts
    a number decides what the line is. *)

Inductive entry :=
  | Processor (num : Z)
  | PhysicalId (num : Z)
  | Siblings (num : Z)
  | CoreId (num : Z)
  | CpuCores (num : Z)
  | Unrecognised.

Definition classify (line : string) : entry :=
  match sscanf line "processor : %d" with
  | Some num => Processor num
  | None =>
  match sscanf line "physical id : %d" with
  | Some num => PhysicalId num
  | None =>
  match sscanf line "siblings : %d" with
  | Some num => Siblings num
  | None =>
  match sscanf line "core id : %d" with
  | Some num => CoreId num
  | None =>
  match sscanf line "cpu cores : %d" with
  | Some num => CpuCores num
  | None => Unrecognised
  end end end end end.

(** [vals.at(i)] with an [int] index: a negative index converts to a huge
    [size_t], so it is out of range like any index past the end. *)
Definition vec_at (vals : list cpuinfo) (i : Z) : result cpuinfo :=
  if i <? 0 then Err OutOfRange
  else match vals !! Z.to_nat i with
       | Some c => Ok c
       | None => Err OutOfRange
       end.

(** [vals.at(i).field = v] *)
Definition vec_at_put (upd : cpuinfo → cpuinfo) (vals : list cpuinfo) (i : Z)
    : result (list cpuinfo) :=
  c ← vec_at vals i;
  Ok (<[Z.to_nat i := upd c]> vals).

(** [vals.resize(n)] with an [int] argument: a negative one converts to a
    [size_t] above [max_size()], and [resize] throws. *)
Definition vec_resize (n : Z) (vals : list cpuinfo) : result (list cpuinfo) :=
  if n <? 0 then Err LengthError
  else Ok (resize (Z.to_nat n) cpuinfo_zero vals).

(** One iteration of the [while (std::getline(cpu_info, line))] loop on the
    state [(vals, cur)].  [debug] tells whether [KATANA_LOG_DEBUG_ASSERT] is
    compiled in.  [cur + 1] is computed in [int]; at [INT_MAX] the sum
    wraps to a negative number, as the hardware computes it. *)
Definition parse_line (debug : bool) (st : list cpuinfo * Z) (line : string)
    : result (list cpuinfo * Z) :=
  let '(vals, cur) := st in
  match classify line with
  | Processor num =>
      if debug && negb (cur <? num) then Err AssertFailed
      else
        let cur := num in
        vals ← vec_resize (to_int (cur + 1)) vals;
        vals ← vec_at_put (set_proc (to_unsigned num)) vals cur;
        Ok (vals, cur)
  | PhysicalId num =>
      vals ← vec_at_put (set_physid (to_unsigned num)) vals cur; Ok (vals, cur)
  | Siblings num =>
      vals ← vec_at_put (set_sib (to_unsigned num)) vals cur; Ok (vals, cur)
  | CoreId num =>
      vals ← vec_at_put (set_coreid (to_unsigned num)) vals cur; Ok (vals, cur)
  | CpuCores num =>
      vals ← vec_at_put (set_cpucores (to_unsigned num)) vals cur; Ok (vals, cur)
  | Unrecognised => Ok (vals, cur)
  end.

Fixpoint parse_loop (debug : bool) (lines : list string) (st : list cpuinfo * Z)
    : result (list cpuinfo * Z) :=
  match lines with
  | [] => Ok st
  | line :: lines' => st' ← parse_line debug st line; parse_loop debug lines' st'
  end.

(** The loop from its initial state: no record, [cur = -1]. *)
Definition parse_lines (debug : bool) (lines : list string) : result (list cpuinfo) :=
  st ← parse_loop debug lines ([], -1); Ok st.1.

(** ** The result types of katana/HWTopo.h *)

Module katana.

(** Modelled from the spec: the header katana/HWTopo.h that declares these
    three structs is not among the sources.  The order of the fields of
    [ThreadTopoInfo] is the order of the aggregate initialiser in
    [makeHWTopo]; their meaning is the one of section 3 of the
    specification: compact thread id, compact id of the package leader,
    compact package rank, compact NUMA rank, running maximum of the package
    rank, OS processor id, OS NUMA node id.  All fields are [unsigned]. *)
Record ThreadTopoInfo := mk_ThreadTopoInfo {
  tid : Z;
  socketLeader : Z;
  socket : Z;
  numaNode : Z;
  cumulativeMaxSocket : Z;
  osContext : Z;
  osNumaNode : Z
}.

Record MachineTopoInfo := mk_MachineTopoInfo {
  maxThreads : Z;
  maxCores : Z;
  maxSockets : Z;
  maxNumaNodes : Z
}.

Record HWTopoInfo := mk_HWTopoInfo {
  machineTopoInfo : MachineTopoInfo;
  threadTopoInfo : list ThreadTopoInfo
}.

End katana.

(** ** The host and the process

    [Host] is what the code reads from its surroundings and from its build:
    the two configuration macros; whether [KATANA_LOG_DEBUG_ASSERT], a macro
    of katana/Logging.h that is not among the sources, is compiled in; the
    lines of the two /proc files ([None]: the file cannot be opened); the
    NUMA library as [dlopen] and [dlsym] find it, a function without
    arguments being the value it returns; and the affinity system call
    ([sched_setaffinity h mask] is the pair of its return value and of
    [errno] after it). *)

Record NumaLib := mk_NumaLib {
  sym_numa_available : option Z;
  sym_numa_num_configured_nodes : option Z;
  sym_numa_node_of_cpu : option (Z → Z)
}.

Record Host := mk_Host {
  KATANA_USE_NUMA : bool;
  KATANA_USE_SCHED_SETAFFINITY : bool;
  debug_assertions : bool;
  proc_cpuinfo : option (list string);
  proc_self_status : option (list string);
  dlopen_libnuma : option NumaLib;
  sched_setaffinity : Z → Z * Z;
  strerror : Z → string
}.

(** The variables of static storage duration, and the diagnostics written
    so far ([log], oldest first).  A null function pointer is [None]. *)
Record Statics := mk_Statics {
  dynamic_numa_available : option Z;
  dynamic_numa_num_configured_nodes : option Z;
  dynamic_numa_node_of_cpu : option (Z → Z);
  warnOnce : bool;
  numaAvail : bool;
  data : option katana.HWTopoInfo;
  affinity_warned : bool;
  log : list string
}.

Definition process_start : Statics :=
  mk_Statics None None None false false None false [].

(** Code that reads and writes the statics and may fail. *)
Definition M (A : Type) : Type := Statics → result (A * Statics).

Global Instance M_ret : MRet M := λ A a s, Ok (a, s).

Global Instance M_bind : MBind M := λ A B k m s,
  match m s with
  | Ok (a, s') => k a s'
  | Err e => Err e
  end.

Definition get : M Statics := λ s, Ok (s, s).
Definition put (s : Statics) : M unit := λ _, Ok (tt, s).
Definition throw {A} (e : failure) : M A := λ _, Err e.
Definition lift {A} (r : result A) : M A := λ s, a ← r; Ok (a, s).

(** Modelled from the spec: [katana::gWarn] of katana/gIO.h is not among the
    sources.  Section 6 of the specification: warnings go to a diagnostic
    sink; the sink is [log], and the message is the concatenation of the
    arguments of the call. *)
Definition gWarn (msg : string) : M unit := λ s,
  Ok (tt, mk_Statics (dynamic_numa_available s) (dynamic_numa_num_configured_nodes s)
            (dynamic_numa_node_of_cpu s) (warnOnce s) (numaAvail s) (data s)
            (affinity_warned s) (log s ++ [msg])).

(** Modelled from the spec: the macro [KATANA_SYS_DIE] of katana/gIO.h is
    not among the sources.  Section 7 of the specification: a fatal condition
    ends the process with a diagnostic. *)
Definition KATANA_SYS_DIE {A} (msg : string) : M A := throw (SysDie msg).

Definition set_warnOnce (b : bool) : M unit := λ s,
  Ok (tt, mk_Statics (dynamic_numa_available s) (dynamic_numa_num_configured_nodes s)
            (dynamic_numa_node_of_cpu s) b (numaAvail s) (data s)
            (affinity_warned s) (log s)).

Definition set_numaAvail (b : bool) : M unit := λ s,
  Ok (tt, mk_Statics (dynamic_numa_available s) (dynamic_numa_num_configured_nodes s)
            (dynamic_numa_node_of_cpu s) (warnOnce s) b (data s)
            (affinity_warned s) (log s)).

Definition set_data (d : katana.HWTopoInfo) : M unit := λ s,
  Ok (tt, mk_Statics (dynamic_numa_available s) (dynamic_numa_num_configured_nodes s)
            (dynamic_numa_node_of_cpu s) (warnOnce s) (numaAvail s) (Some d)
            (affinity_warned s) (log s)).

Definition set_affinity_warned (b : bool) : M unit := λ s,
  Ok (tt, mk_Statics (dynamic_numa_available s) (dynamic_numa_num_configured_nodes s)
            (dynamic_numa_node_of_cpu s) (warnOnce s) (numaAvail s) (data s)
            b (log s)).

(** ** The NUMA resolver *)

(** When [dlopen] fails the three pointers keep their value. *)
Definition LoadLibNuma (h : Host) : M unit := λ s,
  match dlopen_libnuma h with
  | None => Ok (tt, s)
  | Some lib =>
      Ok (tt, mk_Statics (sym_numa_available lib) (sym_numa_num_configured_nodes lib)
                (sym_numa_node_of_cpu lib) (warnOnce s) (numaAvail s) (data s)
                (affinity_warned s) (log s))
  end.

Definition numa_absent_warning : string :=
  "Numa support configured but not present at runtime.  Assuming numa topology matches socket topology.".

Definition numa_unconfigured_warning : string :=
  "Numa Support Not configured (install libnuma-dev).  Assuming numa topology matches socket topology.".

(** The two conjunctions that compute [numaAvail] short-circuit: the node
    count is asked for only when [numa_available()] answered [>= 0]. *)
Definition probe_numa : M bool :=
  s ← get;
  match dynamic_numa_available s with
  | None => mret false
  | Some r =>
      if 0 <=? to_int r then
        match dynamic_numa_num_configured_nodes s with
        | None => throw NullCall
        | Some n => mret (0 <? to_int n)
        end
      else mret false
  end.

Definition getNumaNode (h : Host) (c : cpuinfo) : M Z :=
  if KATANA_USE_NUMA h then
    s ← get;
    _ ← (if negb (warnOnce s) then
           _ ← set_warnOnce true;
           _ ← LoadLibNuma h;
           avail ← probe_numa;
           _ ← set_numaAvail avail;
           if negb avail then gWarn numa_absent_warning else mret tt
         else mret tt);
    s ← get;
    if negb (numaAvail s) then mret (physid c)
    else
      match dynamic_numa_node_of_cpu s with
      | None => throw NullCall
      | Some node_of_cpu =>
          let i := to_int (node_of_cpu (to_int (proc c))) in
          if i <? 0 then
            KATANA_SYS_DIE ("failed finding numa node for " +:+ pretty (proc c))
          else mret (to_unsigned i)
      end
  else
    s ← get;
    _ ← (if negb (warnOnce s) then
           _ ← set_warnOnce true;
           gWarn numa_unconfigured_warning
         else mret tt);
    mret (physid c).

(** [for (auto& c : vals) c.numaNode = getNumaNode(c);] *)
Fixpoint resolve_numa (h : Host) (vals : list cpuinfo) : M (list cpuinfo) :=
  match vals with
  | [] => mret []
  | c :: vals' =>
      n ← getNumaNode h c;
      vals'' ← resolve_numa h vals';
      mret (set_numaNode n c :: vals'')
  end.

Definition parseCPUInfo (h : Host) : M (list cpuinfo) :=
  match proc_cpuinfo h with
  | None => KATANA_SYS_DIE "failed opening /proc/cpuinfo"
  | Some lines =>
      vals ← lift (parse_lines (debug_assertions h) lines);
      resolve_numa h vals
  end.

(** ** The standard algorithms and containers the builder uses *)

(** [std::sort] with a strict order [lt].  The standard fixes the result up
    to the order of elements that are equivalent under [lt]; merge sort is
    one admissible outcome.  Records of [parseCPUInfo] that are equivalent
    under [operator<] agree on [proc], [physid], [coreid] and [smt], hence on
    [numaNode] and [valid], and differ at most in [sib] and [cpucores],
    which the builder never reads. *)
Definition not_after {A} (lt : A → A → bool) : relation A :=
  λ a b, lt b a = false.

Global Instance not_after_dec {A} (lt : A → A → bool) a b :
  Decision (not_after lt a b) := decide (lt b a = false).

Definition std_sort {A} (lt : A → A → bool) (l : list A) : list A :=
  merge_sort (not_after lt) l.

(** [std::set<K>] as the increasing sequence of its keys. *)
Fixpoint set_insert {A} (lt : A → A → bool) (x : A) (s : list A) : list A :=
  match s with
  | [] => [x]
  | y :: s' =>
      if lt x y then x :: s
      else if lt y x then y :: set_insert lt x s'
      else s
  end.

(** [std::distance(s.begin(), s.find(x))]; [s.find] is [s.end()] when no key
    is equivalent to [x]. *)
Fixpoint set_find_distance {A} (lt : A → A → bool) (x : A) (s : list A) : nat :=
  match s with
  | [] => 0
  | y :: s' => if negb (lt x y) && negb (lt y x) then 0
               else S (set_find_distance lt x s')
  end.

(** [std::distance(l.begin(), std::find_if(l.begin(), l.end(), p))] *)
Fixpoint find_if_distance {A} (p : A → bool) (l : list A) : nat :=
  match l with
  | [] => 0
  | c :: l' => if p c then 0 else S (find_if_distance p l')
  end.

(** [std::lower_bound] on a [std::vector<int>] searched for an [unsigned]
    value: [*it < value] converts the element to [unsigned].  The loop runs
    while [count > 0]; [count] at least halves in every round, so
    [length v] rounds are enough. *)
Fixpoint lower_bound_loop (fuel : nat) (v : list Z) (value : Z) (first count : nat) : nat :=
  match fuel with
  | O => first
  | S fuel' =>
      match count with
      | O => first
      | S _ =>
          let step := Nat.div2 count in
          let it := (first + step)%nat in
          match v !! it with
          | Some x =>
              if to_unsigned x <? value
              then lower_bound_loop fuel' v value (S it) (count - (step + 1))%nat
              else lower_bound_loop fuel' v value first step
          | None => first
          end
      end
  end.

Definition lower_bound (v : list Z) (value : Z) : nat :=
  lower_bound_loop (length v) v value 0 (length v).

(** [std::binary_search]: [first != last && !(value < *first)] *)
Definition binary_search (v : list Z) (value : Z) : bool :=
  match v !! lower_bound v value with
  | Some x => negb (value <? to_unsigned x)
  | None => false
  end.

(** ** SMT classification *)

Fixpoint markSMT_from (prev : cpuinfo) (rest : list cpuinfo) : list cpuinfo :=
  match rest with
  | [] => []
  | c :: rest' =>
      let c' := set_smt ((physid prev =? physid c) && (coreid prev =? coreid c)) c in
      c' :: markSMT_from c' rest'
  end.

(** The loop starts at index 1: the first record is left as it is. *)
Definition markSMT (info : list cpuinfo) : list cpuinfo :=
  match info with
  | [] => []
  | c :: rest => c :: markSMT_from c rest
  end.

(** ** Aggregate counts *)

Definition pair_lt (a b : Z * Z) : bool :=
  (a.1 <? b.1) || (negb (b.1 <? a.1) && (a.2 <? b.2)).

Definition countSockets (info : list cpuinfo) : Z :=
  let pkgs := foldl (λ pkgs c, set_insert Z.ltb (physid c) pkgs) [] info in
  to_unsigned (Z.of_nat (length pkgs)).

(** The keys are [std::pair<int, int>]: both ids are converted to [int]. *)
Definition countCores (info : list cpuinfo) : Z :=
  let cores := foldl (λ cores c,
                 set_insert pair_lt (to_int (physid c), to_int (coreid c)) cores) [] info in
  to_unsigned (Z.of_nat (length cores)).

Definition countNumaNodes (info : list cpuinfo) : Z :=
  let nodes := foldl (λ nodes c, set_insert Z.ltb (numaNode c) nodes) [] info in
  to_unsigned (Z.of_nat (length nodes)).

Section builder.

(** [katana::parseCPUList] is declared in katana/HWTopo.h and defined in a
    file that is not among the sources: the builder is parametric in it.  It
    turns the text after the prefix into a [std::vector<int>]. *)
Variable parseCPUList : string → list Z.

Variable h : Host.

(** ** The allowed set *)

Definition prefix : string := "Cpus_allowed_list:".

(** The [while (true)] loop: the first line that starts with the prefix, or
    nothing when the stream ends before. *)
Fixpoint find_prefixed (lines : list string) : option string :=
  match lines with
  | [] => None
  | line :: lines' =>
      if String.prefix prefix line then Some line else find_prefixed lines'
  end.

(** [line.substr(n)] for [n] within the line *)
Fixpoint substr_from (n : nat) (s : string) : string :=
  match n, s with
  | O, _ => s
  | S n', String _ s' => substr_from n' s'
  | S _, EmptyString => EmptyString
  end.

Definition parseCPUSet : list Z :=
  match proc_self_status h with
  | None => []
  | Some lines =>
      match find_prefixed lines with
      | None => []
      | Some line => parseCPUList (substr_from (String.length prefix) line)
      end
  end.

Definition markValid (info : list cpuinfo) : list cpuinfo :=
  let v := parseCPUSet in
  match v with
  | [] => map (set_valid true) info
  | _ :: _ =>
      let v := std_sort Z.ltb v in
      map (λ c, set_valid (binary_search v (proc c)) c) info
  end.

(** ** The builder *)

(** [std::partition] moves the records with [valid] to the front, in an
    order the standard leaves open, and [erase] drops the others; the sort
    that follows fixes the order again. *)
Definition erase_invalid (info : list cpuinfo) : list cpuinfo :=
  filter (λ c, valid c = true) info.

(** Lines 249 to 260: the records the topology is built from. *)
Definition filtered_info : M (list cpuinfo) :=
  info ← parseCPUInfo h;
  let info := std_sort cpuinfo_lt info in
  let info := markSMT info in
  let info := markValid info in
  let info := erase_invalid info in
  let info := std_sort cpuinfo_lt info in
  mret (markSMT info).

(** The second loop of the renumbering, from index [i] on; [rest] is
    [info] from that index. *)
Fixpoint renumber (info : list cpuinfo) (sockets numaNodes : list Z)
    (i : nat) (mid : Z) (rest : list cpuinfo) : list katana.ThreadTopoInfo :=
  match rest with
  | [] => []
  | c :: rest' =>
      let pid := physid c in
      let repid := to_unsigned (Z.of_nat (set_find_distance Z.ltb (physid c) sockets)) in
      let mid := Z.max mid repid in
      let leader :=
        to_unsigned (Z.of_nat (find_if_distance (λ c', physid c' =? pid) info)) in
      katana.mk_ThreadTopoInfo
        (to_unsigned (Z.of_nat i)) leader repid
        (to_unsigned (Z.of_nat (set_find_distance Z.ltb (numaNode c) numaNodes)))
        mid (proc c) (numaNode c)
      :: renumber info sockets numaNodes (S i) mid rest'
  end.

(** Lines 261 to 296 on the filtered records. *)
Definition build_topo (info : list cpuinfo) : katana.HWTopoInfo :=
  let retMTI :=
    katana.mk_MachineTopoInfo
      (to_unsigned (Z.of_nat (length info)))
      (countCores info)
      (countSockets info)
      (countNumaNodes info) in
  let sockets := foldl (λ s c, set_insert Z.ltb (physid c) s) [] info in
  let numaNodes := foldl (λ s c, set_insert Z.ltb (numaNode c) s) [] info in
  katana.mk_HWTopoInfo retMTI (renumber info sockets numaNodes 0 0 info).

Definition makeHWTopo : M katana.HWTopoInfo :=
  info ← filtered_info;
  mret (build_topo info).

End builder.

(** ** The topology cache

    [getHWTopo] runs under a lock, so its calls are executed one after the
    other; each of them is a step on the statics. *)
Definition getHWTopo (parseCPUList : string → list Z) (h : Host) : M katana.HWTopoInfo :=
  s ← get;
  match data s with
  | Some d => mret d
  | None =>
      d ← makeHWTopo parseCPUList h;
      _ ← set_data d;
      mret d
  end.

(** ** The affinity binder *)

Definition CPU_SETSIZE : Z := 1024.

(** The glibc macro ignores a cpu outside the set. *)
Definition CPU_SET (cpu mask : Z) : Z :=
  if cpu <? CPU_SETSIZE then Z.lor mask (Z.shiftl 1 cpu) else mask.

(** Modelled from the spec: the macro [KATANA_WARN_ONCE] of katana/Logging.h
    is not among the sources.  Section 4.6 of the specification: it emits
    the diagnostic the first time it is reached, and nothing afterwards. *)
Definition KATANA_WARN_ONCE (msg : string) : M unit :=
  s ← get;
  if affinity_warned s then mret tt
  else _ ← set_affinity_warned true; gWarn msg.

Definition affinity_unsupported_warning : string :=
  "Cannot set cpu affinity on this platform.  Performance will be bad.".

Definition bindThreadSelf (h : Host) (osContext : Z) : M bool :=
  if KATANA_USE_SCHED_SETAFFINITY h then
    let mask := 0 in
    let mask := CPU_SET osContext mask in
    let '(ret, errno) := sched_setaffinity h mask in
    if ret =? -1 then
      _ ← gWarn ("Could not set CPU affinity to " +:+ pretty osContext +:+ "("
                +:+ strerror h errno +:+ ")");
      mret false
    else mret true
  else
    _ ← KATANA_WARN_ONCE affinity_unsupported_warning;
    mret false.

(** ** A list parser for concrete runs *)

Module cpulist.

(** The state of the scan: the numbers produced so far, the lower bound of a
    range whose dash has been read, and the number being read. *)
Definition flush (acc : list Z) (lo cur : option Z) : list Z :=
  match lo, cur with
  | None, Some a => acc ++ [a]
  | Some a, Some b => acc ++ seqZ a (b - a + 1)
  | _, None => acc
  end.

Fixpoint scan (acc : list Z) (lo cur : option Z) (s : string) : list Z :=
  match s with
  | EmptyString => flush acc lo cur
  | String c s' =>
      if isdigit c then scan acc lo (Some (10 * default 0 cur + digit_value c)) s'
      else if Ascii.eqb c "-" then scan acc cur None s'
      else if Ascii.eqb c "," then scan (flush acc lo cur) None None s'
      else scan acc lo cur s'
  end.

(** Modelled from the spec: [katana::parseCPUList] is not among the sources.
    Section 6 of the specification: the text is a compact range/list
    specification such as [0-3,7], a comma-separated list of numbers and of
    ranges [a-b], and it is parsed into the integers it denotes. *)
Definition parseCPUList (line : string) : list Z := scan [] None None line.

End cpulist.

(** ** Notions of the specification *)

(** The numbers of the [processor] lines, in the order of the text. *)
Definition processor_numbers (lines : list string) : list Z :=
  omap (λ line, match classify line with
                | Processor num => Some num
                | _ => None
                end) lines.

(** A line that sets a field of the current record. *)
Definition field_line (line : string) : Prop :=
  match classify line with
  | PhysicalId _ | Siblings _ | CoreId _ | CpuCores _ => True
  | Processor _ | Unrecognised => False
  end.

(** The text of /proc/cpuinfo as blocks, the most recent first: a
    [processor] line opens the block of its number, and every line up to
    the next [processor] line belongs to it.  Lines before the first
    [processor] line belong to no block. *)
Definition add_line (blocks : list (Z * list entry)) (line : string)
    : list (Z * list entry) :=
  match classify line with
  | Processor num => (num, []) :: blocks
  | e =>
      match blocks with
      | [] => []
      | (num, block) :: blocks' => (num, block ++ [e]) :: blocks'
      end
  end.

Definition blocks (lines : list string) : list (Z * list entry) :=
  foldl add_line [] lines.

Definition sel_physid (e : entry) : option Z :=
  match e with PhysicalId num => Some num | _ => None end.
Definition sel_sib (e : entry) : option Z :=
  match e with Siblings num => Some num | _ => None end.
Definition sel_coreid (e : entry) : option Z :=
  match e with CoreId num => Some num | _ => None end.
Definition sel_cpucores (e : entry) : option Z :=
  match e with CpuCores num => Some num | _ => None end.

(** The last value a block gives to a field, as the [unsigned] that is
    stored; 0, the initial value, when the block never sets the field. *)
Definition last_value (sel : entry → option Z) (block : list entry) : Z :=
  default 0 (to_unsigned <$> last (omap sel block)).

(** The record a block describes. *)
Definition record_of_block (num : Z) (block : list entry) : cpuinfo :=
  mk_cpuinfo (to_unsigned num)
    (last_value sel_physid block) (last_value sel_sib block)
    (last_value sel_coreid block) (last_value sel_cpucores block)
    0 false false.

(** The valid records: those of the parser that [markValid] marks. *)
Definition valid_records (parseCPUList : string → list Z) (h : Host)
    (vals : list cpuinfo) : list cpuinfo :=
  filter (λ c, valid c = true) (markValid parseCPUList h vals).

(** The rank of [x] in numeric order: how many distinct ids are smaller. *)
Definition numeric_rank (ids : list Z) (x : Z) : nat :=
  length (filter (λ y, y < x) (remove_dups ids)).

(** The distinct ids in the order in which a scan from the left first sees
    them, and the rank of [x] in that order. *)
Fixpoint first_seen (ids : list Z) : list Z :=
  match ids with
  | [] => []
  | x :: ids' => x :: filter (λ y, y ≠ x) (first_seen ids')
  end.

Definition scan_rank (ids : list Z) (x : Z) : nat :=
  find_if_distance (Z.eqb x) (first_seen ids).

(** C1 as the specification states it: the rank of an id is the position at
    which a scan of the final order first sees it. *)
Definition ranks_in_scan_order (info : list cpuinfo)
    (tti : list katana.ThreadTopoInfo) : Prop :=
  ∀ i c t, info !! i = Some c → tti !! i = Some t →
    katana.socket t = Z.of_nat (scan_rank (physid <$> info) (physid c)) ∧
    katana.numaNode t = Z.of_nat (scan_rank (numaNode <$> info) (numaNode c)).

(** The capability is unavailable: the build has no NUMA support, or the
    library cannot be loaded, or it lacks [numa_available], or
    [numa_available()] is negative, or it reports no configured node. *)
Definition numa_unavailable (h : Host) : Prop :=
  KATANA_USE_NUMA h = false ∨
  match dlopen_libnuma h with
  | None => True
  | Some lib =>
      match sym_numa_available lib with
      | None => True
      | Some r =>
          to_int r < 0 ∨
          ∃ n, sym_numa_num_configured_nodes lib = Some n ∧ to_int n ≤ 0
      end
  end.

(** The capability is available, with [node_of_cpu] as its query. *)
Definition numa_available (h : Host) (node_of_cpu : Z → Z) : Prop :=
  KATANA_USE_NUMA h = true ∧
  ∃ lib r n,
    dlopen_libnuma h = Some lib ∧
    sym_numa_available lib = Some r ∧ 0 ≤ to_int r ∧
    sym_numa_num_configured_nodes lib = Some n ∧ 0 < to_int n ∧
    sym_numa_node_of_cpu lib = Some node_of_cpu.

(** The answer of the query for a record, as the [int] the code receives. *)
Definition query (node_of_cpu : Z → Z) (c : cpuinfo) : Z :=
  to_int (node_of_cpu (to_int (proc c))).

(** The calls of [getHWTopo] that follow, one per host in [hs]: each may
    see other /proc files and another NUMA library than the first. *)
Fixpoint later_calls (parseCPUList : string → list Z) (hs : list Host)
    : M (list katana.HWTopoInfo) :=
  match hs with
  | [] => mret []
  | h :: hs' =>
      d ← getHWTopo parseCPUList h;
      ds ← later_calls parseCPUList hs';
      mret (d :: ds)
  end.

(** The calls of [bindThreadSelf] of a process, one per context. *)
Fixpoint bind_all (h : Host) (contexts : list Z) : M (list bool) :=
  match contexts with
  | [] => mret []
  | osContext :: contexts' =>
      b ← bindThreadSelf h osContext;
      bs ← bind_all h contexts';
      mret (b :: bs)
  end.

(** ** Auxiliary notions of the proofs *)

Definition INT_MIN : Z := - 2 ^ 31.

(** The update a field line makes to the current record. *)
Definition field_update (e : entry) : option (cpuinfo → cpuinfo) :=
  match e with
  | PhysicalId num => Some (set_physid (to_unsigned num))
  | Siblings num => Some (set_sib (to_unsigned num))
  | CoreId num => Some (set_coreid (to_unsigned num))
  | CpuCores num => Some (set_cpucores (to_unsigned num))
  | Processor _ | Unrecognised => None
  end.

(** What the loop has built when the processor numbers increase: the
    record of every block is at the index of its number, and every other
    record is as [resize] made it. *)
Definition built (bs : list (Z * list entry)) (vals : list cpuinfo) : Prop :=
  (∀ num block, (num, block) ∈ bs →
     0 ≤ num < INT_MAX ∧
     vals !! Z.to_nat num = Some (record_of_block num block)) ∧
  (∀ i c, vals !! i = Some c → Z.of_nat i ∉ bs.*1 → c = cpuinfo_zero).

(** [resolve_numa] writes [numaNode] and nothing else. *)
Definition numa_resolved (c c' : cpuinfo) : Prop :=
  ∃ node, c' = set_numaNode node c.

(** The warning of the build at hand. *)
Definition fallback_warning (h : Host) : string :=
  if KATANA_USE_NUMA h then numa_absent_warning else numa_unconfigured_warning.

(** [v] is ordered as [std::binary_search] needs it for an [unsigned]
    value: the elements, read as [unsigned], do not decrease. *)
Definition unsigned_sorted (v : list Z) : Prop :=
  ∀ i j x y, (i ≤ j)%nat → v !! i = Some x → v !! j = Some y →
             to_unsigned x ≤ to_unsigned y.

(** A strict total order given by its boolean test, as the comparison of a
    [std::set] has to be. *)
Class StrictTotal {A} (lt : A → A → bool) : Prop := {
  lt_irrefl x : lt x x = false;
  lt_trans x y z : lt x y = true → lt y z = true → lt x z = true;
  lt_connex x y : lt x y = false → lt y x = false → x = y
}.
Global Arguments lt_irrefl {A} lt {_} x.
Global Arguments lt_trans {A} lt {_} x y z.
Global Arguments lt_connex {A} lt {_} x y.

(** The keys of [s] increase strictly. *)
Definition increasing {A} (lt : A → A → bool) (s : list A) : Prop :=
  StronglySorted (λ a b, lt a b = true) s.

(** The set an insertion loop builds from the keys [l]. *)
Definition set_of {A} (lt : A → A → bool) (l : list A) : list A :=
  foldl (λ s x, set_insert lt x s) [] l.

(** The rank the renumbering gives to the key of a record: the distance of
    the key from the beginning of the set of all keys. *)
Definition rank_of (key : cpuinfo → Z) (info : list cpuinfo) (c : cpuinfo) : nat :=
  set_find_distance Z.ltb (key c) (set_of Z.ltb (key <$> info)).

(** The fields of a record that the builder reads. *)
Definition ids (c : cpuinfo) : Z * Z * Z * Z :=
  (proc c, physid c, coreid c, numaNode c).

(** The decision [markValid] takes for a processor id. *)
Definition allowed (parseCPUList : string → list Z) (h : Host) (p : Z) : bool :=
  match parseCPUSet parseCPUList h with
  | [] => true
  | v => binary_search (std_sort Z.ltb v) p
  end.

(** The package id and the core id of a record fit an [unsigned]. *)
Definition in_range (c : cpuinfo) : Prop :=
  0 ≤ physid c < 2 ^ 32 ∧ 0 ≤ coreid c < 2 ^ 32.

(** ** The hosts of the examples *)

(** The lines of /proc/cpuinfo for one processor. *)
Definition cpu_block (p phys core : string) : list string :=
  ["processor	: " +:+ p; "physical id	: " +:+ phys; "siblings	: 2";
   "core id		: " +:+ core; "cpu cores	: 2"; ""].

(** The end-to-end scenario of the specification: four logical processors,
    two packages of two cores each, no SMT, no readable allowed set, a build
    without NUMA and without affinity support. *)
Definition host_two_packages : Host :=
  mk_Host false false false
    (Some (cpu_block "0" "0" "0" ++ cpu_block "1" "0" "1"
           ++ cpu_block "2" "1" "0" ++ cpu_block "3" "1" "1"))
    None None (λ _, (0, 0)) (λ _, "").

(** A host on which nothing can be read any more. *)
Definition host_unreadable : Host :=
  mk_Host false false false None None None (λ _, (0, 0)) (λ _, "").

(** A text in which a field line comes before the first processor line. *)
Definition host_field_first : Host :=
  mk_Host false false false
    (Some ["model name	: cpu"; "core id		: 0"; "processor	: 0"])
    None None (λ _, (0, 0)) (λ _, "").

(** Processors 0 and 2 are online, processor 1 is not. *)
Definition host_offline_cpu : Host :=
  mk_Host false false false
    (Some (cpu_block "0" "0" "0" ++ cpu_block "2" "0" "2"))
    None None (λ _, (0, 0)) (λ _, "").

(** The host on which the status file holds an empty allowed list. *)
Definition host_empty_allowed : Host :=
  mk_Host false false false
    (Some (cpu_block "0" "0" "0" ++ cpu_block "1" "0" "1"))
    (Some ["Name:	app"; "Cpus_allowed_list:"; "Mems_allowed_list:	0"])
    None (λ _, (0, 0)) (λ _, "").

(** The process is allowed on processors 0, 1 and 3. *)
Definition host_allowed_list : Host :=
  mk_Host false false false
    (Some (cpu_block "0" "0" "0" ++ cpu_block "1" "0" "1"))
    (Some ["Name:	app"; "Cpus_allowed_list:	0-1,3"; "Mems_allowed_list:	0"])
    None (λ _, (0, 0)) (λ _, "").

(** A NUMA machine on which processor 0 is on node 1 and processor 1 on
    node 0; both are cores of the one package. *)
Definition libnuma_swapped : NumaLib :=
  mk_NumaLib (Some 0) (Some 2) (Some (λ cpu, if cpu =? 0 then 1 else 0)).

Definition host_numa_swapped : Host :=
  mk_Host true false false
    (Some (cpu_block "0" "0" "0" ++ cpu_block "1" "0" "1"))
    None (Some libnuma_swapped) (λ _, (0, 0)) (λ _, "").

(** A NUMA build on a machine without the library. *)
Definition host_no_libnuma : Host :=
  mk_Host true false false
    (Some (cpu_block "0" "0" "0" ++ cpu_block "1" "1" "0"))
    None None (λ _, (0, 0)) (λ _, "").

(** A NUMA library that knows no node for processor 1. *)
Definition libnuma_inconsistent : NumaLib :=
  mk_NumaLib (Some 0) (Some 1) (Some (λ cpu, if cpu =? 1 then -1 else 0)).

Definition host_numa_inconsistent : Host :=
  mk_Host true false false
    (Some (cpu_block "0" "0" "0" ++ cpu_block "1" "0" "1"))
    None (Some libnuma_inconsistent) (λ _, (0, 0)) (λ _, "").

(** Processors 0 and 1 are the two hardware threads of one core, and the
    process is allowed on processor 1 only. *)
Definition host_sibling_only : Host :=
  mk_Host false false false
    (Some (cpu_block "0" "0" "0" ++ cpu_block "1" "0" "0"))
    (Some ["Name:	app"; "Cpus_allowed_list:	1"])
    None (λ _, (0, 0)) (λ _, "").

(** Two packages of two cores each; the process is allowed on the two
    processors of package 0 only. *)
Definition host_package_excluded : Host :=
  mk_Host false false false
    (Some (cpu_block "0" "0" "0" ++ cpu_block "1" "0" "1"
           ++ cpu_block "2" "1" "0" ++ cpu_block "3" "1" "1"))
    (Some ["Name:	app"; "Cpus_allowed_list:	0-1"])
    None (λ _, (0, 0)) (λ _, "").

(** Package 0 has the hardware threads 0 and 1 of one core, package 1 has
    processor 2, and the process is allowed on processors 1 and 2. *)
Definition host_package_order : Host :=
  mk_Host false false false
    (Some (cpu_block "0" "0" "0" ++ cpu_block "1" "0" "0" ++ cpu_block "2" "1" "0"))
    (Some ["Name:	app"; "Cpus_allowed_list:	1-2"])
    None (λ _, (0, 0)) (λ _, "").

(** ** Further notions *)

(** The key [operator<] compares, and the lexicographic order on it. *)
Definition sort_key (c : cpuinfo) : Z * Z * Z * Z :=
  (Z.b2z (smt c), physid c, coreid c, proc c).

Definition lex_lt (k k' : Z * Z * Z * Z) : Prop :=
  k.1.1.1 < k'.1.1.1 ∨
  k.1.1.1 = k'.1.1.1 ∧
  (k.1.1.2 < k'.1.1.2 ∨
   k.1.1.2 = k'.1.1.2 ∧
   (k.1.2 < k'.1.2 ∨ k.1.2 = k'.1.2 ∧ k.2 < k'.2)).

(** The node [getNumaNode] gives to a record once the statics are [s]: the
    answer of the library when it is in use, the package id otherwise. *)
Definition node_in (h : Host) (s : Statics) (c : cpuinfo) : Z :=
  if KATANA_USE_NUMA h && numaAvail s then
    match dynamic_numa_node_of_cpu s with
    | Some node_of_cpu => to_unsigned (query node_of_cpu c)
    | None => physid c
    end
  else physid c.

(** The library answers the record [c] in the state [s], when it is in
    use. *)
Definition answered (h : Host) (s : Statics) (c : cpuinfo) : Prop :=
  KATANA_USE_NUMA h && numaAvail s = true →
  ∃ node_of_cpu,
    dynamic_numa_node_of_cpu s = Some node_of_cpu ∧ 0 ≤ query node_of_cpu c.

(** The pointer [dynamic_numa_node_of_cpu] once [getNumaNode] has run from
    the state [s]: a first call loads it from the library of the host, if
    [dlopen] finds one; otherwise it is what it was. *)
Definition loaded_node_of_cpu (h : Host) (s : Statics) : option (Z → Z) :=
  if warnOnce s then dynamic_numa_node_of_cpu s
  else match dlopen_libnuma h with
       | Some lib => sym_numa_node_of_cpu lib
       | None => dynamic_numa_node_of_cpu s
       end.

(** A NUMA library whose [numa_available] answers but that has no
    [numa_num_configured_nodes]. *)
Definition libnuma_partial : NumaLib :=
  mk_NumaLib (Some 0) None (Some (λ _, 0)).

Definition host_numa_partial : Host :=
  mk_Host true false false
    (Some (cpu_block "0" "0" "0" ++ cpu_block "1" "0" "1"))
    None (Some libnuma_partial) (λ _, (0, 0)) (λ _, "").

(** What [std::sort] guarantees with [operator<]: the records are
    rearranged, and afterwards no record is less than one before it. *)
Definition sorts (sort : list cpuinfo → list cpuinfo) : Prop :=
  ∀ l, sort l ≡ₚ l ∧ StronglySorted (not_after cpuinfo_lt) (sort l).

(** What [std::partition] followed by [erase] guarantees: the records with
    [valid] remain, in some order. *)
Definition partitions (part : list cpuinfo → list cpuinfo) : Prop :=
  ∀ l, part l ≡ₚ filter (λ c, valid c = true) l.

(** Lines 249 to 260 with any outcome of the two sorts and of the
    partition. *)
Definition filter_with (sort1 part sort2 : list cpuinfo → list cpuinfo)
    (parseCPUList : string → list Z) (h : Host) (vals : list cpuinfo)
    : list cpuinfo :=
  markSMT (sort2 (part (markValid parseCPUList h (markSMT (sort1 vals))))).

(** A record without the two fields that the builder never reads. *)
Definition normalize (c : cpuinfo) : cpuinfo := set_sib 0 (set_cpucores 0 c).

(** A record as the line loop leaves it: neither flag is set. *)
Definition unmarked (c : cpuinfo) : Prop := valid c = false ∧ smt c = false.

(** The node of a record is the one [node] gives for its processor and its
    package, and its [valid] flag is [v]. *)
Definition uniform (node : Z → Z → Z) (v : bool) (c : cpuinfo) : Prop :=
  numaNode c = node (proc c) (physid c) ∧ valid c = v.

(** Another outcome of [std::sort], and another of the partition. *)
Definition sort_rotated (l : list cpuinfo) : list cpuinfo :=
  std_sort cpuinfo_lt (rotate 2 l).

Definition partition_reversed (l : list cpuinfo) : list cpuinfo :=
  reverse (filter (λ c, valid c = true) l).

(** The core of a record, and the order in which [operator<] puts the
    cores of records with equal [smt]. *)
Definition core (c : cpuinfo) : Z * Z := (physid c, coreid c).

Definition core_le (a b : Z * Z) : Prop := a.1 < b.1 ∨ a.1 = b.1 ∧ a.2 ≤ b.2.

(** The records [markSMT] has not flagged. *)
Definition unflagged (info : list cpuinfo) : list cpuinfo :=
  filter (λ c, smt c = false) info.

(** Two cores with two hardware threads each, numbered as Linux does: the
    second threads come after the first threads of all cores. *)
Definition host_smt : Host :=
  mk_Host false false false
    (Some (cpu_block "0" "0" "0" ++ cpu_block "1" "0" "1"
           ++ cpu_block "2" "0" "0" ++ cpu_block "3" "0" "1"))
    None None (λ _, (0, 0)) (λ _, "").

(** Two cores with three hardware threads each; the process is excluded
    from the first thread of each core. *)
Definition host_smt_filtered : Host :=
  mk_Host false false false
    (Some (cpu_block "0" "0" "0" ++ cpu_block "1" "0" "0"
           ++ cpu_block "2" "0" "0" ++ cpu_block "3" "0" "1"
           ++ cpu_block "4" "0" "1" ++ cpu_block "5" "0" "1"))
    (Some ["Cpus_allowed_list:	1-2,4-5"])
    None (λ _, (0, 0)) (λ _, "").

(** The OS ids of a thread entry and of a record. *)
Definition os_ids (t : katana.ThreadTopoInfo) : Z * Z :=
  (katana.osContext t, katana.osNumaNode t).

Definition record_os_ids (c : cpuinfo) : Z * Z := (proc c, numaNode c).

(** The process is allowed on processor 5 only, which the machine does not
    have. *)
Definition host_none_allowed : Host :=
  mk_Host false false false
    (Some (cpu_block "0" "0" "0" ++ cpu_block "1" "0" "1"))
    (Some ["Name:	app"; "Cpus_allowed_list:	5"])
    None (λ _, (0, 0)) (λ _, "").

(** An affinity call that accepts a mask with one bit below 64 and fails
    with [EINVAL] (22) on any other. *)
Definition host_affinity : Host :=
  mk_Host false true false None None None
    (λ mask, if (0 <? mask) && (mask <? 2 ^ 64) then (0, 0) else (-1, 22))
    (λ _, "Invalid argument").

(** A string of decimal digits. *)
Fixpoint all_digits (s : string) : bool :=
  match s with
  | EmptyString => true
  | String c s' => isdigit c && all_digits s'
  end.

(** The lines the kernel writes for a processor: the name of the field, tabs
    up to the colon, a space and the number. *)
Definition kernel_line (name : string) (num : Z) : string :=
  name +:+ ": " +:+ pretty num.

(** A line that one of the five formats converts. *)
Definition recognised (line : string) : bool :=
  match classify line with
  | Unrecognised => false
  | _ => true
  end.

(** * Properties *)

Ltac unfold_M :=
  unfold mbind, mret, M_bind, M_ret, result_bind, result_ret, get, put, throw,
    lift, KATANA_SYS_DIE in *.

(** ** The line formats *)

Example classify_processor : classify "processor	: 12" = Processor 12.
Proof. reflexivity. Qed.

Example classify_physical : classify "physical id	: 1" = PhysicalId 1.
Proof. reflexivity. Qed.

Example classify_cores : classify "cpu cores	: 8" = CpuCores 8.
Proof. reflexivity. Qed.

Example classify_other : classify "model name	: Some CPU @ 2.40GHz" = Unrecognised.
Proof. reflexivity. Qed.

Example classify_negative : classify "core id : -3" = CoreId (-3).
Proof. reflexivity. Qed.

Example parse_two :
  parse_lines false
    ["processor	: 0"; "physical id	: 0"; "siblings	: 2"; "core id		: 0";
     "cpu cores	: 1"; ""; "processor	: 1"; "physical id	: 0"; "core id		: 0"]
  = Ok [mk_cpuinfo 0 0 2 0 1 0 false false; mk_cpuinfo 1 0 0 0 0 0 false false].
Proof. reflexivity. Qed.

(** ** The parser on a field line that no processor line precedes *)

Lemma parse_loop_unrecognised debug pre lines st :
  Forall (λ l, classify l = Unrecognised) pre →
  parse_loop debug (pre ++ lines) st = parse_loop debug lines st.
Proof.
  induction 1 as [|l pre Hl _ IH]; [done|].
  destruct st as [vals cur]. cbn [app parse_loop]. unfold parse_line at 1.
  rewrite Hl. simpl. apply IH.
Qed.

Lemma vec_at_put_nil upd i : vec_at_put upd [] i = Err OutOfRange.
Proof. unfold vec_at_put, vec_at. destruct (i <? 0); done. Qed.

Lemma parse_line_field_first debug line :
  field_line line → parse_line debug ([], -1) line = Err OutOfRange.
Proof.
  unfold field_line, parse_line.
  destruct (classify line); try done; intros _; by rewrite vec_at_put_nil.
Qed.

(** C10: when the first recognised line of /proc/cpuinfo is a field line
    ([physical id], [siblings], [core id] or [cpu cores]), so that no
    processor line precedes it, [vals.at(cur)] is reached with [cur = -1] on
    the empty vector, and [parseCPUInfo] ends in [std::out_of_range]: the
    line is not skipped. *)
Theorem parseCPUInfo_field_before_processor h s pre line post :
  proc_cpuinfo h = Some (pre ++ line :: post) →
  Forall (λ l, classify l = Unrecognised) pre →
  field_line line →
  parseCPUInfo h s = Err OutOfRange.
Proof.
  intros Hfile Hpre Hline. unfold parseCPUInfo. rewrite Hfile.
  unfold_M. unfold parse_lines. rewrite parse_loop_unrecognised by done.
  cbn [parse_loop]. by rewrite parse_line_field_first.
Qed.

Lemma parseCPUInfo_field_before_processor_witness :
  Forall (λ l, classify l = Unrecognised) ["model name	: cpu"] ∧
  field_line "core id		: 0" ∧
  parseCPUInfo host_field_first process_start = Err OutOfRange.
Proof.
  assert (Hpre : Forall (λ l, classify l = Unrecognised) ["model name	: cpu"])
    by (repeat constructor).
  assert (Hline : field_line "core id		: 0") by exact I.
  split; [exact Hpre|]. split; [exact Hline|].
  exact (parseCPUInfo_field_before_processor host_field_first process_start
           ["model name	: cpu"] "core id		: 0" ["processor	: 0"]
           eq_refl Hpre Hline).
Defined.

(** ** The parser *)

Lemma to_int_range z : INT_MIN ≤ to_int z ≤ INT_MAX.
Proof.
  unfold to_int, INT_MIN, INT_MAX.
  pose proof (Z.mod_pos_bound (z + 2 ^ 31) (2 ^ 32) ltac:(lia)). lia.
Qed.

Lemma to_int_small z : INT_MIN ≤ z ≤ INT_MAX → to_int z = z.
Proof.
  unfold to_int, INT_MIN, INT_MAX. intros.
  rewrite Z.mod_small by lia. lia.
Qed.

Lemma scan_d_range s num : scan_d s = Some num → INT_MIN ≤ num ≤ INT_MAX.
Proof.
  unfold scan_d, store_int.
  destruct (skip_space s) as [|c s']; [done|].
  destruct (Ascii.eqb c "-"), (Ascii.eqb c "+");
    repeat case_match; intros; simplify_eq; apply to_int_range.
Qed.

Lemma scanf_match_range ds s num :
  scanf_match ds s = Some num → INT_MIN ≤ num ≤ INT_MAX.
Proof.
  revert s. induction ds as [|d ds IH]; intros s; [done|].
  destruct d as [c| |]; cbn [scanf_match].
  - destruct s as [|c' s']; [done|]. destruct (Ascii.eqb c c'); [apply IH|done].
  - apply IH.
  - apply scan_d_range.
Qed.

Lemma classify_processor_range line num :
  classify line = Processor num → INT_MIN ≤ num ≤ INT_MAX.
Proof.
  unfold classify, sscanf.
  repeat (case_match; try done). intros [= <-].
  by eapply scanf_match_range.
Qed.

Lemma parse_loop_app debug l1 l2 st :
  parse_loop debug (l1 ++ l2) st
  = (st' ← parse_loop debug l1 st; parse_loop debug l2 st').
Proof.
  revert st. induction l1 as [|l l1 IH]; intros st; [done|].
  cbn [app parse_loop]. unfold mbind, result_bind.
  destruct (parse_line debug st l); [apply IH|done].
Qed.

Lemma vec_at_put_Ok upd vals i vals' :
  vec_at_put upd vals i = Ok vals' →
  0 ≤ i ∧ ∃ c, vals !! Z.to_nat i = Some c ∧ vals' = <[Z.to_nat i := upd c]> vals.
Proof.
  unfold vec_at_put, vec_at, mbind, result_bind.
  destruct (i <? 0) eqn:Hi; [done|]. apply Z.ltb_ge in Hi.
  destruct (vals !! Z.to_nat i) as [c|]; [|done].
  intros [= <-]. eauto.
Qed.

(** What a [processor] line does when the loop goes on. *)
Lemma parse_line_processor debug vals cur line num vals' cur' :
  classify line = Processor num →
  parse_line debug (vals, cur) line = Ok (vals', cur') →
  0 ≤ num < INT_MAX ∧ cur' = num ∧
  vals' = <[Z.to_nat num := set_proc num cpuinfo_zero]>
            (resize (Z.to_nat (num + 1)) cpuinfo_zero vals) ∨
  0 ≤ num < INT_MAX ∧ cur' = num ∧ (Z.to_nat num < length vals)%nat ∧
  ∃ c, vals !! Z.to_nat num = Some c ∧
       vals' = <[Z.to_nat num := set_proc num c]>
                 (resize (Z.to_nat (num + 1)) cpuinfo_zero vals).
Proof.
  intros Hc. pose proof (classify_processor_range _ _ Hc) as Hrange.
  unfold parse_line. rewrite Hc.
  destruct (debug && negb (cur <? num)); [done|].
  unfold vec_resize, mbind, result_bind.
  destruct (to_int (num + 1) <? 0) eqn:Hneg; [done|]. apply Z.ltb_ge in Hneg.
  destruct (vec_at_put _ _ _) as [vals''|] eqn:Hput; [|done].
  intros [= <- <-]. apply vec_at_put_Ok in Hput as (Hnum & c & Hlook & ->).
  assert (num < INT_MAX) as Hlt.
  { destruct (decide (num = INT_MAX)) as [->|]; [|lia]. vm_compute in Hneg. done. }
  rewrite to_int_small in Hlook |- * by (unfold INT_MIN, INT_MAX in *; lia).
  assert (to_unsigned num = num) as ->.
  { apply Z.mod_small. unfold INT_MAX in *. lia. }
  destruct (decide (Z.to_nat num < length vals)%nat) as [Hold|Hnew].
  - right. rewrite lookup_resize in Hlook by lia. eauto 10.
  - left. rewrite lookup_resize_new in Hlook by lia. injection Hlook as <-. eauto.
Qed.

Lemma parse_line_field debug vals cur line upd :
  field_update (classify line) = Some upd →
  parse_line debug (vals, cur) line
  = (vals' ← vec_at_put upd vals cur; Ok (vals', cur)).
Proof.
  unfold parse_line. destruct (classify line); simpl; intros; by simplify_eq.
Qed.

Lemma parse_line_unrecognised debug st line :
  classify line = Unrecognised → parse_line debug st line = Ok st.
Proof. destruct st. unfold parse_line. by intros ->. Qed.

Lemma last_value_snoc sel block e :
  last_value sel (block ++ [e])
  = match sel e with
    | Some num => to_unsigned num
    | None => last_value sel block
    end.
Proof.
  unfold last_value. rewrite omap_app. simpl.
  destruct (sel e) as [num|].
  - by rewrite last_snoc.
  - by rewrite app_nil_r.
Qed.

Lemma record_of_block_field num block e upd :
  field_update e = Some upd →
  record_of_block num (block ++ [e]) = upd (record_of_block num block).
Proof.
  unfold record_of_block. rewrite !last_value_snoc.
  destruct e; simpl; intros; by simplify_eq.
Qed.

Lemma record_of_block_unrecognised num block :
  record_of_block num (block ++ [Unrecognised]) = record_of_block num block.
Proof. unfold record_of_block. by rewrite !last_value_snoc. Qed.

Lemma processor_numbers_snoc lines line :
  processor_numbers (lines ++ [line])
  = processor_numbers lines ++
    match classify line with Processor num => [num] | _ => [] end.
Proof.
  unfold processor_numbers. rewrite omap_app. f_equal. cbn.
  by destruct (classify line).
Qed.

(** The vector is as long as the last processor number says. *)
Lemma parse_loop_length debug lines vals cur :
  parse_loop debug lines ([], -1) = Ok (vals, cur) →
  cur = default (-1) (last (processor_numbers lines)) ∧
  -1 ≤ cur < INT_MAX ∧
  length vals = Z.to_nat (cur + 1).
Proof.
  revert vals cur. induction lines as [|line lines IH] using rev_ind;
    intros vals cur.
  { intros [= <- <-]. unfold INT_MAX. repeat split; lia. }
  rewrite parse_loop_app. unfold mbind, result_bind.
  destruct (parse_loop debug lines ([], -1)) as [[vals0 cur0]|]; [|done].
  destruct (IH vals0 cur0 eq_refl) as (Hcur0 & Hrange0 & Hlen0).
  cbn [parse_loop].
  destruct (parse_line debug (vals0, cur0) line) as [[vals1 cur1]|] eqn:Hline;
    [|done].
  intros [= <- <-]. rewrite processor_numbers_snoc.
  destruct (classify line) as [num|num|num|num|num|] eqn:Hc.
  - rewrite last_snoc. cbn.
    destruct (parse_line_processor _ _ _ _ _ _ _ Hc Hline)
      as [(Hnum & -> & ->)|(Hnum & -> & _ & c & _ & ->)];
      rewrite length_insert, length_resize; repeat split; lia.
  - rewrite app_nil_r.
    rewrite (parse_line_field _ _ _ _ (set_physid (to_unsigned num))) in Hline
      by by rewrite Hc.
    unfold mbind, result_bind in Hline.
    destruct (vec_at_put _ _ _) eqn:Hput; [|done]. injection Hline as <- <-.
    apply vec_at_put_Ok in Hput as (_ & c & _ & ->). by rewrite length_insert.
  - rewrite app_nil_r.
    rewrite (parse_line_field _ _ _ _ (set_sib (to_unsigned num))) in Hline
      by by rewrite Hc.
    unfold mbind, result_bind in Hline.
    destruct (vec_at_put _ _ _) eqn:Hput; [|done]. injection Hline as <- <-.
    apply vec_at_put_Ok in Hput as (_ & c & _ & ->). by rewrite length_insert.
  - rewrite app_nil_r.
    rewrite (parse_line_field _ _ _ _ (set_coreid (to_unsigned num))) in Hline
      by by rewrite Hc.
    unfold mbind, result_bind in Hline.
    destruct (vec_at_put _ _ _) eqn:Hput; [|done]. injection Hline as <- <-.
    apply vec_at_put_Ok in Hput as (_ & c & _ & ->). by rewrite length_insert.
  - rewrite app_nil_r.
    rewrite (parse_line_field _ _ _ _ (set_cpucores (to_unsigned num))) in Hline
      by by rewrite Hc.
    unfold mbind, result_bind in Hline.
    destruct (vec_at_put _ _ _) eqn:Hput; [|done]. injection Hline as <- <-.
    apply vec_at_put_Ok in Hput as (_ & c & _ & ->). by rewrite length_insert.
  - rewrite app_nil_r. rewrite parse_line_unrecognised in Hline by done.
    by injection Hline as <- <-.
Qed.

Lemma blocks_snoc lines line :
  blocks (lines ++ [line]) = add_line (blocks lines) line.
Proof. unfold blocks. by rewrite foldl_snoc. Qed.

Lemma add_line_numbers bs line :
  (add_line bs line).*1
  = match classify line with
    | Processor num => num :: bs.*1
    | _ => bs.*1
    end.
Proof.
  unfold add_line. destruct (classify line); try done;
    by destruct bs as [|[n blk] bs'].
Qed.

Lemma blocks_numbers lines :
  (blocks lines).*1 = reverse (processor_numbers lines).
Proof.
  induction lines as [|line lines IH] using rev_ind; [done|].
  rewrite blocks_snoc, add_line_numbers, processor_numbers_snoc, IH.
  destruct (classify line); by rewrite ?app_nil_r, ?reverse_snoc.
Qed.

Lemma record_of_block_nil num :
  0 ≤ num < INT_MAX → record_of_block num [] = set_proc num cpuinfo_zero.
Proof.
  intros. unfold record_of_block, set_proc, last_value. cbn.
  f_equal. apply Z.mod_small. unfold INT_MAX in *. lia.
Qed.

Lemma built_processor bs vals cur num :
  StronglySorted (flip Z.lt) (num :: bs.*1) →
  cur = default (-1) (head bs.*1) →
  length vals = Z.to_nat (cur + 1) →
  0 ≤ num < INT_MAX →
  built bs vals →
  built ((num, []) :: bs)
    (<[Z.to_nat num := set_proc num cpuinfo_zero]>
       (resize (Z.to_nat (num + 1)) cpuinfo_zero vals)).
Proof.
  intros [Hbelow _]%StronglySorted_cons Hcur Hlen Hnum [Hblocks Hgaps].
  rewrite Forall_forall in Hbelow. unfold flip in Hbelow.
  assert (Hshort : (length vals ≤ Z.to_nat num)%nat).
  { rewrite Hlen, Hcur. destruct bs as [|[n blk] bs']; cbn; [lia|].
    specialize (Hbelow n ltac:(left)). lia. }
  split.
  - intros n blk [[= -> ->]|Hin]%elem_of_cons.
    + split; [lia|]. rewrite list_lookup_insert_eq
        by (rewrite length_resize; lia).
      by rewrite record_of_block_nil.
    + destruct (Hblocks n blk Hin) as [Hn Hlook]. split; [done|].
      assert (n < num) by (apply Hbelow, list_elem_of_fmap; by exists (n, blk)).
      rewrite list_lookup_insert_ne by lia.
      rewrite lookup_resize; [done|lia|]. by eapply lookup_lt_Some.
  - intros i c Hlook Hnot. rewrite fmap_cons, not_elem_of_cons in Hnot.
    destruct Hnot as [Hne Hnot]. cbn in Hne.
    rewrite list_lookup_insert_ne in Hlook by lia.
    destruct (decide (i < length vals)%nat) as [Hold|Hnew].
    + rewrite lookup_resize in Hlook by (try lia). by eapply Hgaps.
    + pose proof (lookup_lt_Some _ _ _ Hlook) as Hi.
      rewrite length_resize in Hi.
      rewrite lookup_resize_new in Hlook by lia. by injection Hlook.
Qed.

Lemma built_field bs vals cur e upd c :
  StronglySorted (flip Z.lt) bs.*1 →
  cur = default (-1) (head bs.*1) →
  0 ≤ cur →
  field_update e = Some upd →
  vals !! Z.to_nat cur = Some c →
  built bs vals →
  ∃ block bs', bs = (cur, block) :: bs' ∧
    built ((cur, block ++ [e]) :: bs') (<[Z.to_nat cur := upd c]> vals).
Proof.
  intros Hsorted Hcur Hpos Hupd Hc [Hblocks Hgaps].
  destruct bs as [|[n block] bs']; cbn in Hcur; [lia|]. subst n.
  exists block, bs'. split; [done|].
  cbn in Hsorted. apply StronglySorted_cons in Hsorted as [Hbelow _].
  rewrite Forall_forall in Hbelow. unfold flip in Hbelow.
  destruct (Hblocks cur block ltac:(left)) as [Hrange Hhead].
  split.
  - intros n blk [[= -> ->]|Hin]%elem_of_cons.
    + split; [done|].
      rewrite list_lookup_insert_eq by by eapply lookup_lt_Some.
      rewrite (record_of_block_field _ _ _ _ Hupd). congruence.
    + destruct (Hblocks n blk ltac:(by right)) as [Hn Hlook]. split; [done|].
      assert (n < cur) by (apply Hbelow, list_elem_of_fmap; by exists (n, blk)).
      by rewrite list_lookup_insert_ne by lia.
  - intros i c' Hlook Hnot. rewrite fmap_cons, not_elem_of_cons in Hnot.
    destruct Hnot as [Hne Hnot]. cbn in Hne.
    rewrite list_lookup_insert_ne in Hlook by lia.
    eapply Hgaps; [done|]. rewrite fmap_cons, not_elem_of_cons. done.
Qed.

Lemma built_unrecognised bs vals :
  built bs vals →
  built (match bs with
         | [] => []
         | (num, block) :: bs' => (num, block ++ [Unrecognised]) :: bs'
         end) vals.
Proof.
  destruct bs as [|[n block] bs']; [done|]. intros [Hblocks Hgaps]. split.
  - intros m blk [[= -> ->]|Hin]%elem_of_cons.
    + rewrite record_of_block_unrecognised. apply Hblocks. by left.
    + apply Hblocks. by right.
  - intros i c Hlook Hnot. by eapply Hgaps.
Qed.

Lemma StronglySorted_flip_reverse (l : list Z) :
  StronglySorted Z.lt l → StronglySorted (flip Z.lt) (reverse l).
Proof.
  induction 1 as [|x l _ IH Hx]; [constructor|].
  rewrite reverse_cons. apply StronglySorted_app_2; [|done|repeat constructor].
  intros y ? Hy ->%list_elem_of_singleton. rewrite elem_of_reverse in Hy.
  rewrite Forall_forall in Hx. unfold flip. by apply Hx.
Qed.

Lemma add_line_field bs line upd :
  field_update (classify line) = Some upd →
  add_line bs line
  = match bs with
    | [] => []
    | (num, block) :: bs' => (num, block ++ [classify line]) :: bs'
    end.
Proof. unfold add_line. by destruct (classify line). Qed.

Lemma parse_loop_built debug lines vals cur :
  StronglySorted Z.lt (processor_numbers lines) →
  parse_loop debug lines ([], -1) = Ok (vals, cur) →
  built (blocks lines) vals.
Proof.
  revert vals cur. induction lines as [|line lines IH] using rev_ind;
    intros vals cur Hsorted.
  { intros [= <- <-]. split; [by intros ?? ?%elem_of_nil|done]. }
  rewrite parse_loop_app. unfold mbind, result_bind.
  destruct (parse_loop debug lines ([], -1)) as [[vals0 cur0]|] eqn:Hloop;
    [|done].
  destruct (parse_loop_length _ _ _ _ Hloop) as (Hcur0 & Hrange0 & Hlen0).
  rewrite processor_numbers_snoc in Hsorted.
  pose proof (StronglySorted_app_1_l _ _ _ Hsorted) as Hsorted0.
  specialize (IH vals0 cur0 Hsorted0 eq_refl).
  rewrite <- head_reverse, <- blocks_numbers in Hcur0.
  cbn [parse_loop].
  destruct (parse_line debug (vals0, cur0) line) as [[vals1 cur1]|] eqn:Hline;
    [|done].
  intros [= <- <-]. rewrite blocks_snoc.
  destruct (field_update (classify line)) as [upd|] eqn:Hupd.
  - rewrite (parse_line_field _ _ _ _ _ Hupd) in Hline.
    unfold mbind, result_bind in Hline.
    destruct (vec_at_put _ _ _) eqn:Hput; [|done]. injection Hline as <- <-.
    apply vec_at_put_Ok in Hput as (Hpos & c & Hc & ->).
    apply StronglySorted_flip_reverse in Hsorted0.
    rewrite <- blocks_numbers in Hsorted0.
    destruct (built_field _ _ _ _ _ _ Hsorted0 Hcur0 Hpos Hupd Hc IH)
      as (block & bs' & Hbs & Hbuilt).
    by rewrite (add_line_field _ _ _ Hupd), Hbs.
  - destruct (classify line) as [num| | | | |] eqn:Hc; try done.
    + apply StronglySorted_flip_reverse in Hsorted.
      rewrite reverse_snoc, <- blocks_numbers in Hsorted.
      unfold add_line. rewrite Hc.
      destruct (parse_line_processor _ _ _ _ _ _ _ Hc Hline)
        as [(Hnum & -> & ->)|(Hnum & -> & Hold & _)].
      * by eapply built_processor.
      * exfalso. apply StronglySorted_cons in Hsorted as [Hbelow _].
        rewrite Forall_forall in Hbelow. unfold flip in Hbelow.
        destruct ((blocks lines).*1) as [|n ns]; cbn in Hcur0; [lia|].
        specialize (Hbelow n ltac:(left)). lia.
    + rewrite parse_line_unrecognised in Hline by done.
      injection Hline as <- <-. unfold add_line. rewrite Hc.
      by apply built_unrecognised.
Qed.

(** With the debug assertion compiled in, the loop goes on only while the
    processor numbers increase. *)
Lemma parse_line_debug vals cur line num st :
  classify line = Processor num →
  parse_line true (vals, cur) line = Ok st → cur < num.
Proof.
  unfold parse_line. intros ->. cbn [andb].
  destruct (cur <? num) eqn:Hlt; [intros _; by apply Z.ltb_lt|done].
Qed.

Lemma StronglySorted_last_max (l : list Z) m x :
  StronglySorted Z.lt l → last l = Some m → x ∈ l → x ≤ m.
Proof.
  intros Hl [l' ->]%last_Some [Hx|Hx]%elem_of_app.
  - apply Z.lt_le_incl. eapply StronglySorted_app_1_elem_of; [done..|by left].
  - apply list_elem_of_singleton in Hx. lia.
Qed.

Lemma parse_loop_debug_increasing lines vals cur :
  parse_loop true lines ([], -1) = Ok (vals, cur) →
  StronglySorted Z.lt (processor_numbers lines).
Proof.
  revert vals cur. induction lines as [|line lines IH] using rev_ind;
    intros vals cur; [constructor|].
  rewrite parse_loop_app. unfold mbind, result_bind.
  destruct (parse_loop true lines ([], -1)) as [[vals0 cur0]|] eqn:Hloop;
    [|done].
  destruct (parse_loop_length _ _ _ _ Hloop) as (Hcur0 & _ & _).
  specialize (IH vals0 cur0 eq_refl). cbn [parse_loop].
  destruct (parse_line true (vals0, cur0) line) as [st|] eqn:Hline; [|done].
  intros _. rewrite processor_numbers_snoc.
  destruct (classify line) as [num| | | | |] eqn:Hc;
    try by rewrite app_nil_r.
  apply StronglySorted_app_2; [|done|repeat constructor].
  intros x ? Hx ->%list_elem_of_singleton.
  pose proof (parse_line_debug _ _ _ _ _ Hc Hline) as Hlt.
  destruct (last (processor_numbers lines)) as [m|] eqn:Hlast.
  - pose proof (StronglySorted_last_max _ _ _ IH Hlast Hx). cbn in Hcur0. lia.
  - apply last_None in Hlast. rewrite Hlast in Hx. by apply elem_of_nil in Hx.
Qed.

Lemma length_remove_dups_NoDup `{EqDecision A} (l : list A) :
  NoDup l → length (remove_dups l) = length l.
Proof.
  intros Hl. apply Permutation_length, NoDup_Permutation; [|done|].
  - apply NoDup_remove_dups.
  - intros x. apply elem_of_remove_dups.
Qed.

Lemma resolve_numa_fields h vals s vals' s' :
  resolve_numa h vals s = Ok (vals', s') → Forall2 numa_resolved vals vals'.
Proof.
  revert s vals'. induction vals as [|c vals IH]; intros s vals'.
  { intros [= <- <-]. constructor. }
  cbn [resolve_numa]. unfold_M.
  destruct (getNumaNode h c s) as [[node s1]|]; [|done].
  fold (resolve_numa h vals).
  destruct (resolve_numa h vals s1) as [[vals1 s2]|] eqn:Hrest; [|done].
  intros [= <- <-]. constructor; [by exists node|by eapply IH].
Qed.

Lemma parseCPUInfo_Ok h s vals s' :
  parseCPUInfo h s = Ok (vals, s') →
  ∃ lines parsed cur,
    proc_cpuinfo h = Some lines ∧
    parse_loop (debug_assertions h) lines ([], -1) = Ok (parsed, cur) ∧
    Forall2 numa_resolved parsed vals.
Proof.
  unfold parseCPUInfo. destruct (proc_cpuinfo h) as [lines|]; [|done].
  unfold parse_lines. unfold_M.
  destruct (parse_loop _ lines _) as [[parsed cur]|] eqn:Hloop; [|done].
  cbn. intros Hnuma%resolve_numa_fields. eauto 10.
Qed.

(** The length of the sequence is not the number of distinct [processor]
    lines: with processors 0 and 2 online the text has two of them and
    [parseCPUInfo] returns three records. *)
Lemma parseCPUInfo_offline_counterexample :
  ¬ (∀ lines vals s',
       proc_cpuinfo host_offline_cpu = Some lines →
       parseCPUInfo host_offline_cpu process_start = Ok (vals, s') →
       length vals = length (remove_dups (processor_numbers lines))).
Proof.
  intros Hclaim.
  epose proof (Hclaim _ _ _ eq_refl ltac:(vm_compute; reflexivity)) as Hlen.
  vm_compute in Hlen. discriminate Hlen.
Qed.

(** What the line loop builds.  When [parseCPUInfo] returns, the sequence
    is as long as the number of the last [processor] line plus one (empty
    without such a line); this is the number of distinct [processor] lines
    when they are numbered 0, 1, 2, ... in this order.  When the numbers
    increase, which the code asserts and a build with debug assertions
    enforces, the record at the index of a [processor] line holds its number
    and, for [physid], [sib], [coreid] and [cpucores], the last value its
    block sets (0 when the block does not set the field); the records at all
    other indices are the padding of [resize], with these five fields 0. *)
Lemma parseCPUInfo_records h lines s vals s' :
  proc_cpuinfo h = Some lines →
  parseCPUInfo h s = Ok (vals, s') →
  let numbers := processor_numbers lines in
  length vals = Z.to_nat (default (-1) (last numbers) + 1) ∧
  (numbers = seqZ 0 (Z.of_nat (length numbers)) →
   length vals = length (remove_dups numbers)) ∧
  (debug_assertions h = true ∨ StronglySorted Z.lt numbers →
   (∀ num block, (num, block) ∈ blocks lines →
      ∃ c, vals !! Z.to_nat num = Some c ∧
           proc c = num ∧
           physid c = last_value sel_physid block ∧
           sib c = last_value sel_sib block ∧
           coreid c = last_value sel_coreid block ∧
           cpucores c = last_value sel_cpucores block) ∧
   (∀ i c, vals !! i = Some c → Z.of_nat i ∉ numbers →
      proc c = 0 ∧ physid c = 0 ∧ sib c = 0 ∧ coreid c = 0 ∧ cpucores c = 0)).
Proof.
  intros Hfile (lines' & parsed & cur & Hfile' & Hloop & Hnuma)%parseCPUInfo_Ok
    numbers.
  assert (lines' = lines) as -> by congruence.
  destruct (parse_loop_length _ _ _ _ Hloop) as (Hcur & Hrange & Hlen).
  rewrite <- (Forall2_length _ _ _ Hnuma), Hlen, Hcur. subst numbers.
  set (numbers := processor_numbers lines) in *.
  split; [done|]. split.
  - intros Hseq. rewrite length_remove_dups_NoDup
      by (rewrite Hseq; apply NoDup_seqZ).
    rewrite Hseq at 1. generalize (length numbers).
    intros [|m]; [reflexivity|].
    rewrite seqZ_S, last_snoc. cbn [default from_option id]. lia.
  - intros Hsorted.
    assert (StronglySorted Z.lt numbers) as Hsorted'.
    { destruct Hsorted as [Hdebug|]; [|done]. rewrite Hdebug in Hloop.
      by eapply parse_loop_debug_increasing. }
    destruct (parse_loop_built _ _ _ _ Hsorted' Hloop) as [Hblocks Hgaps].
    split.
    + intros num block [Hnum Hlook]%Hblocks.
      destruct (Forall2_lookup_l _ _ _ _ _ Hnuma Hlook) as (c & Hc & node & ->).
      exists (set_numaNode node (record_of_block num block)).
      split; [done|]. cbn. split_and!; try done.
      apply Z.mod_small. unfold INT_MAX in Hnum. lia.
    + intros i c Hc Hnot.
      destruct (Forall2_lookup_r _ _ _ _ _ Hnuma Hc) as (c0 & Hc0 & node & ->).
      rewrite (Hgaps i c0 Hc0); [done|].
      by rewrite blocks_numbers, elem_of_reverse.
Qed.

Lemma parseCPUInfo_records_witness :
  ∃ vals s',
    parseCPUInfo host_two_packages process_start = Ok (vals, s') ∧
    length vals = 4%nat ∧
    ∃ c, vals !! 2%nat = Some c ∧
         proc c = 2 ∧ physid c = 1 ∧ sib c = 2 ∧ coreid c = 0 ∧ cpucores c = 2.
Proof.
  eexists _, _. split; [vm_compute; reflexivity|].
  epose proof (parseCPUInfo_records host_two_packages _ process_start _ _
                 eq_refl ltac:(vm_compute; reflexivity))
    as (Hlen & _ & Hfields).
  split; [exact Hlen|].
  destruct Hfields as [Hblocks _].
  { right. apply (bool_decide_unpack _). vm_compute. exact I. }
  apply (Hblocks 2
           [PhysicalId 1; Siblings 2; CoreId 0; CpuCores 2; Unrecognised]).
  vm_compute. apply list_elem_of_further, list_elem_of_here.
Defined.

(** C3: the code breaks the claim at a text with a gap in the processor
    numbers.  With processors 0 and 2 online the text has two distinct
    [processor] lines, and [parseCPUInfo] returns three records:
    [vals.resize(cur + 1)] pads index 1 with a value-initialised record,
    which no line of the text describes and whose [proc] is 0, not its
    index, although the loop writes [proc] as the index of every record it
    fills.  [makeHWTopo] makes a thread entry of the padding: three threads
    for two processors, two of them with the OS id 0. *)
Theorem parseCPUInfo_pads_offline_cpu :
  let lines := cpu_block "0" "0" "0" ++ cpu_block "2" "0" "2" in
  proc_cpuinfo host_offline_cpu = Some lines ∧
  processor_numbers lines = [0; 2] ∧
  (∃ s',
     parseCPUInfo host_offline_cpu process_start
     = Ok ([mk_cpuinfo 0 0 2 0 2 0 false false;
            cpuinfo_zero;
            mk_cpuinfo 2 0 2 2 2 0 false false], s')) ∧
  ∃ topo s',
    makeHWTopo cpulist.parseCPUList host_offline_cpu process_start
    = Ok (topo, s') ∧
    katana.maxThreads (katana.machineTopoInfo topo) = 3 ∧
    katana.osContext <$> katana.threadTopoInfo topo = [0; 2; 0].
Proof.
  cbn zeta. split; [reflexivity|]. split; [reflexivity|]. split.
  - eexists. vm_compute. reflexivity.
  - eexists _, _. split; [vm_compute; reflexivity|]. split; reflexivity.
Qed.

(** ** The NUMA resolver *)

Lemma getNumaNode_fallback h c s :
  numa_unavailable h →
  numaAvail s = false →
  (warnOnce s = false → dynamic_numa_available s = None) →
  ∃ s',
    getNumaNode h c s = Ok (physid c, s') ∧
    numaAvail s' = false ∧ warnOnce s' = true ∧
    log s' = log s ++ (if warnOnce s then [] else [fallback_warning h]).
Proof.
  intros Hun Hav Hptr. unfold getNumaNode, fallback_warning.
  destruct (KATANA_USE_NUMA h) eqn:Hbuild.
  - destruct Hun as [?|Hun]; [congruence|].
    unfold_M. destruct (warnOnce s) eqn:Hw; cbn.
    + rewrite Hav. cbn. exists s. by rewrite app_nil_r.
    + unfold LoadLibNuma, probe_numa. unfold_M. cbn.
      destruct (dlopen_libnuma h) as [lib|]; cbn.
      * destruct (sym_numa_available lib) as [r|]; cbn.
        -- destruct Hun as [Hr|(n & Hn & Hle)].
           ++ destruct (0 <=? to_int r) eqn:Hr'; [lia|]. cbn. eauto.
           ++ destruct (0 <=? to_int r) eqn:Hr'; cbn; [|eauto].
              rewrite Hn. cbn. destruct (0 <? to_int n) eqn:Hn'; [lia|].
              cbn. eauto.
        -- eauto.
      * rewrite Hptr by done. cbn. eauto.
  - unfold_M. destruct (warnOnce s) eqn:Hw; cbn.
    + exists s. by rewrite app_nil_r.
    + eauto.
Qed.

Lemma resolve_numa_fallback h cs s :
  numa_unavailable h →
  numaAvail s = false →
  (warnOnce s = false → dynamic_numa_available s = None) →
  ∃ s',
    resolve_numa h cs s = Ok ((λ c, set_numaNode (physid c) c) <$> cs, s') ∧
    (length (log s') ≤ length (log s) + (if warnOnce s then 0 else 1))%nat.
Proof.
  intros Hun. revert s. induction cs as [|c cs IH]; intros s Hav Hptr.
  - exists s. split; [done|]. lia.
  - destruct (getNumaNode_fallback h c s Hun Hav Hptr)
      as (s1 & Hcall & Hav1 & Hw1 & Hlog1).
    destruct (IH s1 Hav1) as (s2 & Hrest & Hlen); [by rewrite Hw1|].
    exists s2. cbn [resolve_numa fmap list_fmap]. unfold_M.
    rewrite Hcall. fold (resolve_numa h cs). rewrite Hrest.
    split; [done|]. rewrite Hw1 in Hlen. rewrite Hlog1, length_app in Hlen.
    destruct (warnOnce s); simpl in Hlen; lia.
Qed.

Lemma getNumaNode_available h node_of_cpu c s :
  numa_available h node_of_cpu →
  (warnOnce s = true →
   numaAvail s = true ∧ dynamic_numa_node_of_cpu s = Some node_of_cpu) →
  if query node_of_cpu c <? 0 then
    getNumaNode h c s
    = Err (SysDie ("failed finding numa node for " +:+ pretty (proc c)))
  else
    ∃ s', getNumaNode h c s = Ok (to_unsigned (query node_of_cpu c), s') ∧
          warnOnce s' = true ∧ numaAvail s' = true ∧
          dynamic_numa_node_of_cpu s' = Some node_of_cpu.
Proof.
  intros (Hbuild & lib & r & n & Hlib & Hr & Hr0 & Hn & Hn0 & Hq) Hinv.
  unfold getNumaNode, query. rewrite Hbuild. unfold_M.
  destruct (warnOnce s) eqn:Hw; cbn.
  - destruct Hinv as [Hav Hptr]; [done|]. rewrite Hav, Hptr. cbn.
    destruct (_ <? 0); [done|]. exists s. by rewrite Hw.
  - unfold LoadLibNuma, probe_numa. unfold_M. rewrite Hlib. cbn.
    rewrite Hr. cbn. destruct (0 <=? to_int r) eqn:Hr'; [|lia].
    rewrite Hn. cbn. destruct (0 <? to_int n) eqn:Hn'; [|lia]. cbn.
    rewrite Hq. destruct (_ <? 0); [done|]. eauto.
Qed.

Lemma resolve_numa_fatal h node_of_cpu cs c rest s :
  numa_available h node_of_cpu →
  (warnOnce s = true →
   numaAvail s = true ∧ dynamic_numa_node_of_cpu s = Some node_of_cpu) →
  Forall (λ c', 0 ≤ query node_of_cpu c') cs →
  query node_of_cpu c < 0 →
  resolve_numa h (cs ++ c :: rest) s
  = Err (SysDie ("failed finding numa node for " +:+ pretty (proc c))).
Proof.
  intros Hav Hinv Hcs Hc. revert s Hinv.
  induction Hcs as [|c' cs Hc' _ IH]; intros s Hinv.
  - cbn [app resolve_numa]. unfold_M.
    pose proof (getNumaNode_available h node_of_cpu c s Hav Hinv) as Hcall.
    destruct (query node_of_cpu c <? 0) eqn:Hneg; [|lia]. by rewrite Hcall.
  - cbn [app resolve_numa]. unfold_M.
    pose proof (getNumaNode_available h node_of_cpu c' s Hav Hinv) as Hcall.
    destruct (query node_of_cpu c' <? 0) eqn:Hneg; [lia|].
    destruct Hcall as (s' & -> & Hw & Ha & Hp).
    fold (resolve_numa h (cs ++ c :: rest)). by rewrite IH.
Qed.

(** C7: from the start of the process, when the NUMA capability is
    unavailable or reports no configured node (a build without NUMA support
    included), [getNumaNode] returns the package id of every record it is
    called on, and at most one warning is written in all; when the
    capability is available, the first record whose node query is negative
    ends the process through [KATANA_SYS_DIE]. *)
Theorem getNumaNode_fallback_or_fatal h :
  (numa_unavailable h →
   ∀ cs, ∃ s',
     resolve_numa h cs process_start
     = Ok ((λ c, set_numaNode (physid c) c) <$> cs, s') ∧
     (length (log s') ≤ 1)%nat) ∧
  (∀ node_of_cpu, numa_available h node_of_cpu →
   ∀ cs c rest,
     Forall (λ c', 0 ≤ query node_of_cpu c') cs →
     query node_of_cpu c < 0 →
     resolve_numa h (cs ++ c :: rest) process_start
     = Err (SysDie ("failed finding numa node for " +:+ pretty (proc c)))).
Proof.
  split.
  - intros Hun cs.
    destruct (resolve_numa_fallback h cs process_start Hun) as (s' & ? & ?);
      [done..|]. eauto.
  - intros node_of_cpu Hav cs c rest Hcs Hc.
    by apply (resolve_numa_fatal h node_of_cpu).
Qed.

Lemma getNumaNode_fallback_or_fatal_witness :
  (∃ s',
     resolve_numa host_no_libnuma
       [set_proc 0 cpuinfo_zero; set_physid 1 (set_proc 1 cpuinfo_zero)]
       process_start
     = Ok ([set_proc 0 cpuinfo_zero;
            set_numaNode 1 (set_physid 1 (set_proc 1 cpuinfo_zero))], s') ∧
     (length (log s') ≤ 1)%nat) ∧
  resolve_numa host_numa_inconsistent
    [set_proc 0 cpuinfo_zero; set_proc 1 cpuinfo_zero; set_proc 2 cpuinfo_zero]
    process_start
  = Err (SysDie "failed finding numa node for 1").
Proof.
  split.
  - apply (proj1 (getNumaNode_fallback_or_fatal host_no_libnuma)).
    right. exact I.
  - refine (proj2 (getNumaNode_fallback_or_fatal host_numa_inconsistent)
              (λ cpu, if cpu =? 1 then -1 else 0) _
              [set_proc 0 cpuinfo_zero] (set_proc 1 cpuinfo_zero)
              [set_proc 2 cpuinfo_zero] _ _).
    + split; [reflexivity|]. exists libnuma_inconsistent, 0, 1.
      by split_and!.
    + repeat constructor. by vm_compute.
    + reflexivity.
Defined.

(** ** Binary search *)

Lemma lower_bound_loop_spec v value fuel first count :
  unsigned_sorted v →
  (count ≤ fuel)%nat →
  (first + count ≤ length v)%nat →
  (∀ i x, (i < first)%nat → v !! i = Some x → to_unsigned x < value) →
  (∀ i x, (first + count ≤ i)%nat → v !! i = Some x → value ≤ to_unsigned x) →
  let r := lower_bound_loop fuel v value first count in
  (r ≤ length v)%nat ∧
  (∀ i x, (i < r)%nat → v !! i = Some x → to_unsigned x < value) ∧
  (∀ i x, (r ≤ i)%nat → v !! i = Some x → value ≤ to_unsigned x).
Proof.
  intros Hsorted. revert first count.
  induction fuel as [|fuel IH]; intros first count Hfuel Hlen Hlow Hhigh.
  - assert (count = 0%nat) as -> by lia. cbn.
    rewrite Nat.add_0_r in Hhigh. split; [lia|]. split; assumption.
  - cbn [lower_bound_loop]. destruct count as [|k].
    { rewrite Nat.add_0_r in Hhigh. split; [lia|]. split; assumption. }
    set (step := Nat.div2 (S k)).
    assert (Hstep : (step < S k)%nat) by (apply Nat.lt_div2; lia).
    destruct (lookup_lt_is_Some_2 v (first + step)) as [x Hx]; [lia|].
    rewrite Hx. destruct (to_unsigned x <? value) eqn:Hcmp.
    + apply Z.ltb_lt in Hcmp. apply IH; [lia|lia| |].
      * intros i y Hi Hy.
        pose proof (Hsorted i (first + step)%nat y x ltac:(lia) Hy Hx). lia.
      * intros i y Hi Hy. apply (Hhigh i y); [lia|done].
    + apply Z.ltb_ge in Hcmp. apply IH; [lia|lia|done|].
      intros i y Hi Hy.
      pose proof (Hsorted (first + step)%nat i x y ltac:(lia) Hx Hy). lia.
Qed.

Lemma binary_search_spec v value :
  unsigned_sorted v →
  binary_search v value = true ↔ ∃ x, x ∈ v ∧ to_unsigned x = value.
Proof.
  intros Hsorted. unfold binary_search, lower_bound.
  destruct (lower_bound_loop_spec v value (length v) 0 (length v) Hsorted)
    as (Hr & Hlow & Hhigh); [lia|lia|intros; lia| |].
  { intros i x Hi Hx. apply lookup_lt_Some in Hx. lia. }
  set (r := lower_bound_loop (length v) v value 0 (length v)) in *.
  split.
  - destruct (v !! r) as [x|] eqn:Hx; [|done].
    intros Hle%negb_true_iff%Z.ltb_ge. exists x. split.
    + by apply list_elem_of_lookup_2 in Hx.
    + pose proof (Hhigh r x ltac:(lia) Hx). lia.
  - intros (x & [j Hj]%list_elem_of_lookup_1 & <-).
    assert (r ≤ j)%nat as Hrj.
    { destruct (decide (r ≤ j)%nat); [done|].
      pose proof (Hlow j x ltac:(lia) Hj). lia. }
    destruct (lookup_lt_is_Some_2 v r) as [y Hy].
    { apply lookup_lt_Some in Hj. lia. }
    rewrite Hy. apply negb_true_iff, Z.ltb_ge.
    exact (Hsorted r j y x Hrj Hy Hj).
Qed.

(** ** The sort *)

Lemma not_after_Zlt a b : not_after Z.ltb a b ↔ a ≤ b.
Proof. unfold not_after. apply Z.ltb_ge. Qed.

Global Instance not_after_Zlt_total : Total (not_after Z.ltb).
Proof. intros a b. rewrite !not_after_Zlt. lia. Qed.

Global Instance not_after_Zlt_trans : Transitive (not_after Z.ltb).
Proof. intros a b c. rewrite !not_after_Zlt. lia. Qed.

Lemma std_sort_perm {A} (lt : A → A → bool) l : std_sort lt l ≡ₚ l.
Proof. apply merge_sort_Permutation. Qed.

Lemma StronglySorted_lookup_le (v : list Z) i j x y :
  StronglySorted (not_after Z.ltb) v →
  (i ≤ j)%nat → v !! i = Some x → v !! j = Some y → x ≤ y.
Proof.
  intros Hs. revert i j. induction Hs as [|a v Hs IH Ha]; intros i j Hij Hi Hj.
  { done. }
  destruct i as [|i], j as [|j]; simpl in *; try lia.
  - injection Hi as <-. injection Hj as <-. lia.
  - injection Hi as <-. apply list_elem_of_lookup_2 in Hj.
    rewrite Forall_forall in Ha. by apply not_after_Zlt, Ha.
  - apply (IH i j); [lia|done..].
Qed.

Lemma std_sort_unsigned_sorted (v : list Z) :
  Forall (λ x, 0 ≤ x ≤ INT_MAX) v → unsigned_sorted (std_sort Z.ltb v).
Proof.
  intros Hrange i j x y Hij Hi Hj.
  assert (Hall : Forall (λ x, 0 ≤ x ≤ INT_MAX) (std_sort Z.ltb v)).
  { by rewrite std_sort_perm. }
  rewrite Forall_forall in Hall.
  pose proof (Hall x (list_elem_of_lookup_2 _ _ _ Hi)) as Hx.
  pose proof (Hall y (list_elem_of_lookup_2 _ _ _ Hj)) as Hy.
  unfold to_unsigned, INT_MAX in *.
  rewrite !Z.mod_small by lia.
  eapply StronglySorted_lookup_le; [|exact Hij|exact Hi|exact Hj].
  apply StronglySorted_merge_sort; apply _.
Qed.

(** ** The allowed set *)

Lemma to_unsigned_small x : 0 ≤ x ≤ INT_MAX → to_unsigned x = x.
Proof. unfold to_unsigned, INT_MAX. intros. apply Z.mod_small. lia. Qed.

Lemma binary_search_member (v : list Z) (p : Z) :
  Forall (λ x, 0 ≤ x ≤ INT_MAX) v →
  binary_search (std_sort Z.ltb v) p = bool_decide (p ∈ v).
Proof.
  intros Hrange. apply eq_true_iff_eq. rewrite bool_decide_eq_true.
  rewrite binary_search_spec by by apply std_sort_unsigned_sorted.
  rewrite Forall_forall in Hrange. split.
  - intros (x & Hx & <-). rewrite std_sort_perm in Hx.
    by rewrite to_unsigned_small by auto.
  - intros Hp. exists p. rewrite std_sort_perm. split; [done|].
    by apply to_unsigned_small, Hrange.
Qed.

(** The elements have to be non-negative: the search compares them as
    [unsigned], and a sorted vector that begins with -1 is not ordered for
    that comparison. *)
Example binary_search_negative_entry :
  0 ∈ [-1; 0; 1] ∧ binary_search (std_sort Z.ltb [-1; 0; 1]) 0 = false.
Proof. split; [by right; left|reflexivity]. Qed.

(** Counterexample to C6 as stated: the status file has a
    [Cpus_allowed_list:] line, the list after the prefix is empty, and the
    record of processor 0 is marked valid although 0 is not a member of the
    parsed set. *)
Lemma markValid_empty_list_counterexample :
  ¬ (∀ lines line,
       proc_self_status host_empty_allowed = Some lines →
       find_prefixed lines = Some line →
       ∀ c, c ∈ markValid cpulist.parseCPUList host_empty_allowed [cpuinfo_zero] →
            (valid c = true ↔
             proc c ∈ cpulist.parseCPUList (substr_from (String.length prefix) line))).
Proof.
  intros Hclaim.
  specialize (Hclaim _ "Cpus_allowed_list:" eq_refl eq_refl
                (set_valid true cpuinfo_zero)).
  destruct Hclaim as [Hmember _]; [by left|].
  specialize (Hmember eq_refl). vm_compute in Hmember. by inversion Hmember.
Qed.

(** C6, amended: when /proc/self/status cannot be opened or has no line
    that starts with [Cpus_allowed_list:], every record is marked valid;
    when it has one, every record is marked valid if the list parsed from
    the line is empty, and otherwise (for a list of non-negative [int]s) a
    record is marked valid exactly when its processor id is in the list. *)
Theorem markValid_allowed_set parseCPUList h info :
  (proc_self_status h = None →
   markValid parseCPUList h info = set_valid true <$> info) ∧
  (∀ lines, proc_self_status h = Some lines →
     (find_prefixed lines = None →
      markValid parseCPUList h info = set_valid true <$> info) ∧
     (∀ line, find_prefixed lines = Some line →
        let v := parseCPUList (substr_from (String.length prefix) line) in
        (v = [] → markValid parseCPUList h info = set_valid true <$> info) ∧
        (v ≠ [] → Forall (λ x, 0 ≤ x ≤ INT_MAX) v →
         markValid parseCPUList h info
         = (λ c, set_valid (bool_decide (proc c ∈ v)) c) <$> info))).
Proof.
  unfold markValid, parseCPUSet. split.
  - by intros ->.
  - intros lines ->. split.
    + by intros ->.
    + intros line ->. cbn zeta.
      destruct (parseCPUList (substr_from (String.length prefix) line))
        as [|x v'] eqn:Hv; [done|].
      split; [done|]. intros _ Hrange.
      apply map_ext. intros c. by rewrite binary_search_member.
Qed.

Lemma markValid_allowed_set_witness :
  markValid cpulist.parseCPUList host_allowed_list
    [set_proc 1 cpuinfo_zero; set_proc 2 cpuinfo_zero; set_proc 3 cpuinfo_zero]
  = [set_valid true (set_proc 1 cpuinfo_zero); set_proc 2 cpuinfo_zero;
     set_valid true (set_proc 3 cpuinfo_zero)].
Proof.
  refine (eq_trans
    (proj2 (proj2 (proj2 (markValid_allowed_set cpulist.parseCPUList
                            host_allowed_list _) _ eq_refl)
                    "Cpus_allowed_list:	0-1,3" eq_refl) _ _) _).
  - vm_compute. discriminate.
  - apply (bool_decide_unpack _). vm_compute. exact I.
  - vm_compute. reflexivity.
Defined.

(** ** Sets as increasing lt sequences *)

Global Instance Zlt_strict_total : StrictTotal Z.ltb.
Proof.
  split.
  - intros x. apply Z.ltb_irrefl.
  - intros x y z ?%Z.ltb_lt ?%Z.ltb_lt. apply Z.ltb_lt. lia.
  - intros x y ?%Z.ltb_ge ?%Z.ltb_ge. lia.
Qed.

Global Instance pair_lt_strict_total : StrictTotal pair_lt.
Proof.
  split; unfold pair_lt.
  - intros [a b]. cbn. rewrite !Z.ltb_irrefl. done.
  - intros [a b] [c d] [e f]. cbn.
    rewrite !orb_true_iff, !andb_true_iff, !negb_true_iff, !Z.ltb_lt, !Z.ltb_ge.
    lia.
  - intros [a b] [c d]. cbn.
    rewrite !orb_false_iff, !andb_false_iff, !negb_false_iff, !Z.ltb_lt, !Z.ltb_ge.
    intros. f_equal; lia.
Qed.

Section sets.
Context {A : Type} (lt : A → A → bool) `{!StrictTotal lt}.

Lemma lt_asym x y : lt x y = true → lt y x = false.
Proof.
  intros Hxy. destruct (lt y x) eqn:Hyx; [|done].
  by rewrite <- (lt_irrefl lt x), (lt_trans lt x y x).
Qed.

Lemma set_insert_spec x s :
  increasing lt s →
  increasing lt (set_insert lt x s) ∧ ∀ y, y ∈ set_insert lt x s ↔ y = x ∨ y ∈ s.
Proof.
  induction 1 as [|a s Hs IH Ha]; cbn.
  { split; [repeat constructor|]. intros y.
    rewrite list_elem_of_singleton, elem_of_nil. tauto. }
  destruct IH as [IHs IHin]. rewrite Forall_forall in Ha.
  destruct (lt x a) eqn:Hxa; [|destruct (lt a x) eqn:Hax].
  - split; [|intros y; by rewrite !elem_of_cons].
    constructor; [constructor; [done|by apply Forall_forall]|].
    constructor; [done|].
    apply Forall_forall. intros z Hz. apply (lt_trans lt x a z); auto.
  - split.
    + constructor; [done|]. apply Forall_forall. intros z [->|Hz]%IHin; auto.
    + intros y. rewrite !elem_of_cons, IHin. tauto.
  - assert (x = a) as -> by by apply (lt_connex lt).
    split; [by constructor; [|apply Forall_forall]|].
    intros y. rewrite elem_of_cons. intuition congruence.
Qed.

Lemma set_of_spec l :
  increasing lt (set_of lt l) ∧ ∀ y, y ∈ set_of lt l ↔ y ∈ l.
Proof.
  unfold set_of. induction l as [|x l IH] using rev_ind.
  { split; [constructor|done]. }
  rewrite foldl_snoc. destruct IH as [IHs IHin].
  destruct (set_insert_spec x _ IHs) as [Hs Hin]. split; [done|].
  intros y. rewrite Hin, IHin, elem_of_app, list_elem_of_singleton. tauto.
Qed.

Lemma increasing_NoDup s : increasing lt s → NoDup s.
Proof.
  induction 1 as [|a s Hs IH Ha]; constructor; [|done].
  rewrite Forall_forall in Ha. intros Hin%Ha. by rewrite (lt_irrefl lt) in Hin.
Qed.

(** The size of the set is the number of distinct keys. *)
Lemma length_set_of `{EqDecision A} l :
  length (set_of lt l) = length (remove_dups l).
Proof.
  destruct (set_of_spec l) as [Hs Hin].
  apply Permutation_length, NoDup_Permutation.
  - by apply increasing_NoDup.
  - apply NoDup_remove_dups.
  - intros y. by rewrite Hin, elem_of_remove_dups.
Qed.

(** [find] and [distance] on the set: a key is at the index of its rank,
    and the other way round. *)
Lemma set_find_distance_lookup s x :
  increasing lt s → x ∈ s → s !! set_find_distance lt x s = Some x.
Proof.
  induction 1 as [|a s Hs IH Ha]; [by intros ?%elem_of_nil|].
  rewrite Forall_forall in Ha. cbn.
  destruct (lt x a) eqn:Hxa, (lt a x) eqn:Hax; cbn.
  - intros _. by rewrite (lt_asym x a) in Hax.
  - intros [->|Hin%Ha]%elem_of_cons; [by rewrite (lt_irrefl lt) in Hxa|].
    by rewrite (lt_asym a x) in Hxa.
  - intros [->|Hin]%elem_of_cons; [by rewrite (lt_irrefl lt) in Hax|auto].
  - intros _. f_equal. symmetry. by apply (lt_connex lt).
Qed.

Lemma set_find_distance_index s i x :
  increasing lt s → s !! i = Some x → set_find_distance lt x s = i.
Proof.
  intros Hs. revert i. induction Hs as [|a s Hs IH Ha]; intros i; [done|].
  rewrite Forall_forall in Ha. destruct i as [|i]; cbn.
  - intros [= ->]. by rewrite (lt_irrefl lt).
  - intros Hi. pose proof (Ha x (list_elem_of_lookup_2 _ _ _ Hi)) as Hax.
    rewrite Hax, (lt_asym a x Hax). cbn. f_equal. by apply IH.
Qed.

Lemma filter_below_nil a s :
  Forall (λ z, lt a z = true) s → filter (λ y, lt y a = true) s = [].
Proof.
  induction 1 as [|b s Hb _ IH]; [done|].
  rewrite filter_cons_False; [done|]. by rewrite (lt_asym a b).
Qed.

Lemma set_find_distance_rank s x :
  increasing lt s → x ∈ s →
  set_find_distance lt x s = length (filter (λ y, lt y x = true) s).
Proof.
  induction 1 as [|a s Hs IH Ha]; [by intros ?%elem_of_nil|].
  pose proof Ha as Ha'. rewrite Forall_forall in Ha.
  cbn [set_find_distance]. rewrite filter_cons.
  destruct (lt x a) eqn:Hxa, (lt a x) eqn:Hax; cbn [negb andb].
  - intros _. by rewrite (lt_asym x a) in Hax.
  - intros [->|Hin%Ha]%elem_of_cons; [by rewrite (lt_irrefl lt) in Hxa|].
    by rewrite (lt_asym a x) in Hxa.
  - intros [->|Hin]%elem_of_cons; [by rewrite (lt_irrefl lt) in Hax|].
    rewrite decide_True by done. cbn. f_equal. auto.
  - intros _. rewrite decide_False by done.
    assert (x = a) as -> by by apply (lt_connex lt).
    by rewrite filter_below_nil.
Qed.
End sets.

(** ** The pipeline of the builder *)

Lemma fmap_filter_comm {A B} (f : A → B) (Q : B → Prop)
    `{!∀ y, Decision (Q y)} (l : list A) :
  f <$> filter (λ x, Q (f x)) l = filter Q (f <$> l).
Proof.
  induction l as [|x l IH]; [done|]. cbn [fmap list_fmap].
  rewrite !filter_cons. destruct (decide (Q (f x))); cbn; by rewrite IH.
Qed.

Lemma ids_markSMT_from prev rest : ids <$> markSMT_from prev rest = ids <$> rest.
Proof.
  revert prev. induction rest as [|c rest IH]; intros prev; [done|].
  cbn. by rewrite IH.
Qed.

Lemma ids_markSMT info : ids <$> markSMT info = ids <$> info.
Proof. destruct info as [|c rest]; [done|]. cbn. by rewrite ids_markSMT_from. Qed.

Lemma length_markSMT info : length (markSMT info) = length info.
Proof. by rewrite <- (length_fmap ids), ids_markSMT, length_fmap. Qed.

Lemma markValid_allowed parseCPUList h info :
  markValid parseCPUList h info
  = (λ c, set_valid (allowed parseCPUList h (proc c)) c) <$> info.
Proof.
  unfold markValid, allowed. by destruct (parseCPUSet parseCPUList h).
Qed.

Lemma erase_invalid_markValid parseCPUList h info :
  erase_invalid (markValid parseCPUList h info)
  = set_valid true <$> filter (λ c, allowed parseCPUList h (proc c) = true) info.
Proof.
  rewrite markValid_allowed. unfold erase_invalid.
  induction info as [|c info IH]; [done|]. cbn [fmap list_fmap].
  rewrite !filter_cons. cbn [valid set_valid].
  destruct (decide (allowed parseCPUList h (proc c) = true)) as [Hc|Hc].
  - cbn [fmap list_fmap]. by rewrite IH, Hc.
  - apply IH.
Qed.

Lemma ids_valid_records parseCPUList h vals :
  ids <$> valid_records parseCPUList h vals
  = filter (λ k, allowed parseCPUList h k.1.1.1 = true) (ids <$> vals).
Proof.
  unfold valid_records. fold (erase_invalid (markValid parseCPUList h vals)).
  rewrite erase_invalid_markValid. rewrite <- list_fmap_compose.
  by rewrite <- (fmap_filter_comm ids (λ k, allowed parseCPUList h k.1.1.1 = true)).
Qed.

Lemma filtered_info_Ok parseCPUList h s info s' :
  filtered_info parseCPUList h s = Ok (info, s') →
  ∃ vals,
    parseCPUInfo h s = Ok (vals, s') ∧
    info = markSMT (std_sort cpuinfo_lt
             (erase_invalid (markValid parseCPUList h
                (markSMT (std_sort cpuinfo_lt vals))))).
Proof.
  unfold filtered_info. unfold_M.
  destruct (parseCPUInfo h s) as [[vals s1]|]; [|done].
  intros [= <- <-]. eauto.
Qed.

(** The records the topology is built from are the valid records, up to
    their order and their [smt] flags. *)
Lemma filtered_info_valid_records parseCPUList h s info s' :
  filtered_info parseCPUList h s = Ok (info, s') →
  ∃ vals,
    parseCPUInfo h s = Ok (vals, s') ∧
    ids <$> info ≡ₚ ids <$> valid_records parseCPUList h vals.
Proof.
  intros (vals & Hparse & ->)%filtered_info_Ok. exists vals. split; [done|].
  rewrite ids_markSMT, std_sort_perm.
  change (erase_invalid (markValid parseCPUList h ?l))
    with (valid_records parseCPUList h l).
  rewrite !ids_valid_records. apply filter_Permutation.
  by rewrite ids_markSMT, std_sort_perm.
Qed.

Lemma makeHWTopo_Ok parseCPUList h s topo s' :
  makeHWTopo parseCPUList h s = Ok (topo, s') →
  ∃ info, filtered_info parseCPUList h s = Ok (info, s') ∧
          topo = build_topo info.
Proof.
  unfold makeHWTopo. unfold_M.
  destruct (filtered_info parseCPUList h s) as [[info s1]|]; [|done].
  intros [= <- <-]. eauto.
Qed.

Lemma to_unsigned_range z : 0 ≤ to_unsigned z < 2 ^ 32.
Proof. unfold to_unsigned. apply Z.mod_pos_bound. lia. Qed.

Lemma vec_at_put_in_range upd vals i vals' :
  (∀ c, in_range c → in_range (upd c)) →
  Forall in_range vals →
  vec_at_put upd vals i = Ok vals' → Forall in_range vals'.
Proof.
  intros Hupd Hvals (_ & c & Hc & ->)%vec_at_put_Ok.
  apply Forall_insert; [done|]. apply Hupd.
  rewrite Forall_forall in Hvals. by eapply Hvals, list_elem_of_lookup_2.
Qed.

Lemma parse_line_in_range debug vals cur line vals' cur' :
  Forall in_range vals →
  parse_line debug (vals, cur) line = Ok (vals', cur') →
  Forall in_range vals'.
Proof.
  intros Hvals. unfold parse_line.
  pose proof to_unsigned_range as Hr.
  destruct (classify line) as [num|num|num|num|num|].
  - destruct (debug && negb (cur <? num)); [done|].
    unfold vec_resize, mbind, result_bind.
    destruct (to_int (num + 1) <? 0); [done|].
    destruct (vec_at_put _ _ _) as [vals1|] eqn:Hput; [|done].
    intros [= <- <-]. eapply vec_at_put_in_range; [|..|exact Hput].
    + by intros c [].
    + apply Forall_resize; [|done]. split; cbn; lia.
  - unfold mbind, result_bind.
    destruct (vec_at_put _ _ _) as [vals1|] eqn:Hput; [|done].
    intros [= <- <-]. eapply vec_at_put_in_range; [|done|exact Hput].
    intros c []. split; cbn; auto.
  - unfold mbind, result_bind.
    destruct (vec_at_put _ _ _) as [vals1|] eqn:Hput; [|done].
    intros [= <- <-]. eapply vec_at_put_in_range; [|done|exact Hput].
    by intros c [].
  - unfold mbind, result_bind.
    destruct (vec_at_put _ _ _) as [vals1|] eqn:Hput; [|done].
    intros [= <- <-]. eapply vec_at_put_in_range; [|done|exact Hput].
    intros c []. split; cbn; auto.
  - unfold mbind, result_bind.
    destruct (vec_at_put _ _ _) as [vals1|] eqn:Hput; [|done].
    intros [= <- <-]. eapply vec_at_put_in_range; [|done|exact Hput].
    by intros c [].
  - by intros [= <- <-].
Qed.

Lemma parse_loop_in_range debug lines vals cur vals' cur' :
  Forall in_range vals →
  parse_loop debug lines (vals, cur) = Ok (vals', cur') →
  Forall in_range vals'.
Proof.
  revert vals cur. induction lines as [|line lines IH]; intros vals cur Hvals.
  { by intros [= <- <-]. }
  cbn [parse_loop]. unfold mbind, result_bind.
  destruct (parse_line debug (vals, cur) line) as [[vals1 cur1]|] eqn:Hline;
    [|done].
  apply IH. by eapply parse_line_in_range.
Qed.

Lemma parseCPUInfo_in_range h s vals s' :
  parseCPUInfo h s = Ok (vals, s') →
  Forall in_range vals ∧ (length vals ≤ Z.to_nat INT_MAX)%nat.
Proof.
  intros (lines & parsed & cur & _ & Hloop & Hnuma)%parseCPUInfo_Ok.
  destruct (parse_loop_length _ _ _ _ Hloop) as (_ & Hcur & Hlen).
  split; [|rewrite <- (Forall2_length _ _ _ Hnuma); lia].
  apply parse_loop_in_range in Hloop; [|constructor].
  rewrite Forall_forall in Hloop. apply Forall_forall. intros c' Hc'.
  apply list_elem_of_lookup_1 in Hc' as [i Hi].
  destruct (Forall2_lookup_r _ _ _ _ _ Hnuma Hi) as (c & Hc & node & ->).
  apply (Hloop c). by eapply list_elem_of_lookup_2.
Qed.

Lemma filtered_info_in_range parseCPUList h s info s' :
  filtered_info parseCPUList h s = Ok (info, s') →
  Forall in_range info ∧ (length info ≤ Z.to_nat INT_MAX)%nat.
Proof.
  intros (vals & Hparse & Hperm)%filtered_info_valid_records.
  destruct (parseCPUInfo_in_range _ _ _ _ Hparse) as [Hrange Hlen].
  rewrite ids_valid_records in Hperm. split.
  - rewrite Forall_forall in Hrange. apply Forall_forall. intros c Hc.
    assert (ids c ∈ ids <$> vals) as (c' & Hids & Hc')%list_elem_of_fmap.
    { eapply list_elem_of_filter. rewrite <- Hperm. by apply list_elem_of_fmap_2. }
    specialize (Hrange c' Hc'). unfold in_range, ids in *.
    injection Hids as _ Hp Hc0 _. by rewrite Hp, Hc0.
  - apply Permutation_length in Hperm. rewrite length_fmap in Hperm.
    rewrite Hperm. etrans; [apply length_filter|]. by rewrite length_fmap.
Qed.

(** ** The aggregate counts *)

Lemma distinct_Permutation `{EqDecision A} (l k : list A) :
  l ≡ₚ k → length (remove_dups l) = length (remove_dups k).
Proof.
  intros Hperm. apply Permutation_length, NoDup_Permutation;
    [apply NoDup_remove_dups..|].
  intros x. by rewrite !elem_of_remove_dups, Hperm.
Qed.

Lemma distinct_fmap_inj `{EqDecision A, EqDecision B} (f : A → B) (l : list A) :
  (∀ x y, x ∈ l → y ∈ l → f x = f y → x = y) →
  length (remove_dups (f <$> l)) = length (remove_dups l).
Proof.
  intros Hinj. rewrite <- (length_fmap f (remove_dups l)).
  apply Permutation_length, NoDup_Permutation.
  - apply NoDup_remove_dups.
  - apply NoDup_fmap_2_strong; [|apply NoDup_remove_dups].
    intros x y Hx Hy Hxy. rewrite elem_of_remove_dups in Hx, Hy.
    by apply Hinj.
  - intros y. rewrite elem_of_remove_dups, !list_elem_of_fmap.
    by setoid_rewrite elem_of_remove_dups.
Qed.

Lemma distinct_le `{EqDecision A} (l : list A) :
  (length (remove_dups l) ≤ length l)%nat.
Proof.
  induction l as [|x l IH]; [done|]. cbn.
  destruct (decide_rel elem_of x l); cbn; lia.
Qed.

Lemma to_int_inj x y :
  0 ≤ x < 2 ^ 32 → 0 ≤ y < 2 ^ 32 → to_int x = to_int y → x = y.
Proof. unfold to_int. intros. Z.div_mod_to_equations. lia. Qed.

Lemma to_unsigned_length (n bound : nat) :
  (n ≤ bound)%nat → (bound ≤ Z.to_nat INT_MAX)%nat →
  to_unsigned (Z.of_nat n) = Z.of_nat n.
Proof.
  intros. apply Z.mod_small. unfold INT_MAX in *. lia.
Qed.

Lemma countSockets_distinct info :
  (length info ≤ Z.to_nat INT_MAX)%nat →
  countSockets info = Z.of_nat (length (remove_dups (physid <$> info))).
Proof.
  intros Hlen. unfold countSockets.
  rewrite <- (foldl_fmap (λ s x, set_insert Z.ltb x s) [] info physid).
  fold (set_of Z.ltb (physid <$> info)). rewrite (length_set_of Z.ltb).
  apply (to_unsigned_length _ (length info)); [|done].
  etrans; [apply distinct_le|]. by rewrite length_fmap.
Qed.

Lemma countNumaNodes_distinct info :
  (length info ≤ Z.to_nat INT_MAX)%nat →
  countNumaNodes info = Z.of_nat (length (remove_dups (numaNode <$> info))).
Proof.
  intros Hlen. unfold countNumaNodes.
  rewrite <- (foldl_fmap (λ s x, set_insert Z.ltb x s) [] info numaNode).
  fold (set_of Z.ltb (numaNode <$> info)). rewrite (length_set_of Z.ltb).
  apply (to_unsigned_length _ (length info)); [|done].
  etrans; [apply distinct_le|]. by rewrite length_fmap.
Qed.

Lemma countCores_distinct info :
  Forall in_range info →
  (length info ≤ Z.to_nat INT_MAX)%nat →
  countCores info
  = Z.of_nat (length (remove_dups ((λ c, (physid c, coreid c)) <$> info))).
Proof.
  intros Hrange Hlen. unfold countCores.
  rewrite <- (foldl_fmap (λ s x, set_insert pair_lt x s) [] info
                (λ c, (to_int (physid c), to_int (coreid c)))).
  fold (set_of pair_lt ((λ c, (to_int (physid c), to_int (coreid c))) <$> info)).
  rewrite (length_set_of pair_lt).
  assert ((λ c, (to_int (physid c), to_int (coreid c))) <$> info
          = (λ k : Z * Z, (to_int k.1, to_int k.2))
              <$> ((λ c, (physid c, coreid c)) <$> info)) as ->
    by by rewrite <- list_fmap_compose.
  rewrite distinct_fmap_inj.
  - apply (to_unsigned_length _ (length info)); [|done].
    etrans; [apply distinct_le|]. by rewrite length_fmap.
  - rewrite Forall_forall in Hrange.
    intros [a b] [a' b'] (c & [= -> ->] & Hc%Hrange)%list_elem_of_fmap
      (c' & [= -> ->] & Hc'%Hrange)%list_elem_of_fmap [= Ha Hb].
    destruct Hc, Hc'. f_equal; by apply to_int_inj.
Qed.

(** C4: the four counts of [MachineTopoInfo] are taken over the valid
    records alone, the records of the parser whose [valid] flag [markValid]
    sets; a record it leaves invalid is counted nowhere.  [maxSockets] is
    the number of distinct package ids, [maxCores] the number of distinct
    pairs of package id and core id, [maxNumaNodes] the number of distinct
    resolved NUMA node ids, and [maxThreads] the number of valid records. *)
Theorem machine_counts_over_valid_records parseCPUList h s topo s' :
  makeHWTopo parseCPUList h s = Ok (topo, s') →
  ∃ vals,
    parseCPUInfo h s = Ok (vals, s') ∧
    let V := filter (λ c, valid c = true) (markValid parseCPUList h vals) in
    let m := katana.machineTopoInfo topo in
    katana.maxSockets m = Z.of_nat (length (remove_dups (physid <$> V))) ∧
    katana.maxCores m
    = Z.of_nat (length (remove_dups ((λ c, (physid c, coreid c)) <$> V))) ∧
    katana.maxNumaNodes m = Z.of_nat (length (remove_dups (numaNode <$> V))) ∧
    katana.maxThreads m = Z.of_nat (length V).
Proof.
  intros (info & Hinfo & ->)%makeHWTopo_Ok.
  destruct (filtered_info_in_range _ _ _ _ _ Hinfo) as [Hrange Hlen].
  destruct (filtered_info_valid_records _ _ _ _ _ Hinfo)
    as (vals & Hparse & Hperm).
  exists vals. split; [done|].
  change (filter (λ c, valid c = true) (markValid parseCPUList h vals))
    with (valid_records parseCPUList h vals).
  cbn.
  rewrite countSockets_distinct, countCores_distinct, countNumaNodes_distinct
    by done.
  rewrite (to_unsigned_length _ (length info)) by done.
  assert (Hproj : ∀ {B} `{EqDecision B} (f : Z * Z * Z * Z → B),
            length (remove_dups ((f ∘ ids) <$> info))
            = length (remove_dups ((f ∘ ids) <$> valid_records parseCPUList h vals))).
  { intros B ? f. rewrite !(list_fmap_compose ids f).
    apply distinct_Permutation. by rewrite Hperm. }
  split_and!.
  - f_equal. apply (Hproj _ _ (λ k, k.1.1.2)).
  - f_equal. apply (Hproj _ _ (λ k, (k.1.1.2, k.1.2))).
  - f_equal. apply (Hproj _ _ (λ k, k.2)).
  - f_equal. apply Permutation_length in Hperm. by rewrite !length_fmap in Hperm.
Qed.

Lemma machine_counts_over_valid_records_witness :
  ∃ topo s' vals,
    makeHWTopo cpulist.parseCPUList host_package_excluded process_start
    = Ok (topo, s') ∧
    parseCPUInfo host_package_excluded process_start = Ok (vals, s') ∧
    proc <$> vals = [0; 1; 2; 3] ∧
    proc <$> filter (λ c, valid c = true)
               (markValid cpulist.parseCPUList host_package_excluded vals)
    = [0; 1] ∧
    katana.machineTopoInfo topo = katana.mk_MachineTopoInfo 2 2 1 1 ∧
    katana.maxThreads (katana.machineTopoInfo topo) = 2 ∧
    katana.maxSockets (katana.machineTopoInfo topo) = 1 ∧
    katana.maxCores (katana.machineTopoInfo topo) = 2 ∧
    katana.maxNumaNodes (katana.machineTopoInfo topo) = 1.
Proof.
  eexists _, _.
  edestruct (machine_counts_over_valid_records cpulist.parseCPUList
               host_package_excluded process_start)
    as (vals & Hvals & Hsockets & Hcores & Hnodes & Hthreads);
    [vm_compute; reflexivity|].
  exists vals. split; [reflexivity|]. split; [exact Hvals|].
  vm_compute in Hvals. injection Hvals as <-.
  split; [reflexivity|]. split; [reflexivity|]. split; [reflexivity|].
  split_and!; [exact Hthreads|exact Hsockets|exact Hcores|exact Hnodes].
Defined.

(** ** The renumbering *)

Lemma length_renumber info sockets numaNodes i mid rest :
  length (renumber info sockets numaNodes i mid rest) = length rest.
Proof.
  revert i mid. induction rest as [|c rest IH]; intros i mid; [done|].
  cbn. by rewrite IH.
Qed.

(** The entry the loop makes for the record at index [k] of [rest]. *)
Lemma renumber_lookup info sockets numaNodes i mid rest k c :
  rest !! k = Some c →
  ∃ mid',
    renumber info sockets numaNodes i mid rest !! k
    = Some (katana.mk_ThreadTopoInfo
              (to_unsigned (Z.of_nat (i + k)))
              (to_unsigned (Z.of_nat
                 (find_if_distance (λ c', physid c' =? physid c) info)))
              (to_unsigned (Z.of_nat (set_find_distance Z.ltb (physid c) sockets)))
              (to_unsigned (Z.of_nat (set_find_distance Z.ltb (numaNode c) numaNodes)))
              mid' (proc c) (numaNode c)).
Proof.
  revert i mid k. induction rest as [|c0 rest IH]; intros i mid k; [done|].
  cbn [renumber]. destruct k as [|k].
  - intros [= ->]. rewrite Nat.add_0_r. eexists. reflexivity.
  - intros Hk. change ((c0 :: rest) !! S k) with (rest !! k) in Hk.
    match goal with
    | |- context [renumber _ _ _ _ ?m rest] =>
        destruct (IH (S i) m k Hk) as [mid' Hmid]
    end.
    exists mid'. rewrite lookup_cons_ne_0 by done. cbn [pred]. rewrite Hmid.
    do 3 f_equal. lia.
Qed.

Section ranks.
(** The ranks of one key of the records: [key] is [physid] or
    [numaNode]. *)
Context (key : cpuinfo → Z) (info : list cpuinfo).

Lemma rank_lookup c :
  c ∈ info → set_of Z.ltb (key <$> info) !! rank_of key info c = Some (key c).
Proof.
  intros Hc. destruct (set_of_spec Z.ltb (key <$> info)) as [Hs Hin].
  apply (set_find_distance_lookup Z.ltb); [done|].
  apply Hin. by apply list_elem_of_fmap_2.
Qed.

Lemma rank_bound c : c ∈ info → (rank_of key info c < length info)%nat.
Proof.
  intros Hc%rank_lookup%lookup_lt_Some.
  rewrite (length_set_of Z.ltb) in Hc.
  pose proof (distinct_le (key <$> info)) as Hle.
  rewrite length_fmap in Hle. lia.
Qed.

Lemma rank_numeric c :
  c ∈ info → rank_of key info c = numeric_rank (key <$> info) (key c).
Proof.
  intros Hc. destruct (set_of_spec Z.ltb (key <$> info)) as [Hs Hin].
  unfold rank_of. rewrite (set_find_distance_rank Z.ltb); [|done|].
  - unfold numeric_rank.
    rewrite (list_filter_iff _ (λ y, y < key c))
      by (intros y; apply Z.ltb_lt).
    apply Permutation_length, filter_Permutation, NoDup_Permutation.
    + by apply (increasing_NoDup Z.ltb).
    + apply NoDup_remove_dups.
    + intros y. by rewrite Hin, elem_of_remove_dups.
  - apply Hin. by apply list_elem_of_fmap_2.
Qed.

Lemma rank_inj c1 c2 :
  c1 ∈ info → c2 ∈ info →
  rank_of key info c1 = rank_of key info c2 ↔ key c1 = key c2.
Proof.
  intros H1%rank_lookup H2%rank_lookup. split.
  - intros Heq. rewrite Heq in H1. congruence.
  - unfold rank_of. by intros ->.
Qed.

Lemma rank_onto (r : nat) :
  (r < length (remove_dups (key <$> info)))%nat ↔
  ∃ c, c ∈ info ∧ rank_of key info c = r.
Proof.
  destruct (set_of_spec Z.ltb (key <$> info)) as [Hs Hin].
  rewrite <- (length_set_of Z.ltb). split.
  - intros [x Hx]%lookup_lt_is_Some_2.
    pose proof (list_elem_of_lookup_2 _ _ _ Hx)
      as (c & -> & Hc)%Hin%list_elem_of_fmap.
    exists c. split; [done|]. by apply (set_find_distance_index Z.ltb).
  - intros (c & Hc%rank_lookup & <-). by eapply lookup_lt_Some.
Qed.
End ranks.

Lemma find_if_distance_le {A} (p : A → bool) l :
  (find_if_distance p l ≤ length l)%nat.
Proof. induction l as [|x l IH]; cbn; [lia|]. destruct (p x); lia. Qed.

(** [find_if] stops at the first element that satisfies the test. *)
Lemma find_if_distance_first {A} (p : A → bool) l i x :
  l !! i = Some x → p x = true →
  (find_if_distance p l ≤ i)%nat ∧
  ∃ y, l !! find_if_distance p l = Some y ∧ p y = true ∧
       ∀ k z, (k < find_if_distance p l)%nat → l !! k = Some z → p z = false.
Proof.
  revert i. induction l as [|a l IH]; intros i; [done|].
  cbn [find_if_distance]. destruct (p a) eqn:Ha.
  - intros _ _. split; [lia|]. exists a. split_and!; [done..|]. intros; lia.
  - destruct i as [|i]; [intros [= ->]; congruence|].
    intros Hi Hx. destruct (IH i Hi Hx) as (Hle & y & Hy & Hpy & Hbefore).
    split; [lia|]. exists y. split_and!; [done..|].
    intros [|k] z Hk; [by intros [= ->]|]. apply Hbefore. lia.
Qed.

Lemma build_topo_sets info :
  katana.threadTopoInfo (build_topo info)
  = renumber info (set_of Z.ltb (physid <$> info))
      (set_of Z.ltb (numaNode <$> info)) 0 0 info.
Proof. unfold build_topo, set_of. cbn. by rewrite !foldl_fmap. Qed.

(** The entry of the topology for the record at index [i]. *)
Lemma build_topo_entry info i c t :
  (length info ≤ Z.to_nat INT_MAX)%nat →
  info !! i = Some c →
  katana.threadTopoInfo (build_topo info) !! i = Some t →
  katana.tid t = Z.of_nat i ∧
  katana.socketLeader t
  = Z.of_nat (find_if_distance (λ c', physid c' =? physid c) info) ∧
  katana.socket t = Z.of_nat (rank_of physid info c) ∧
  katana.numaNode t = Z.of_nat (rank_of numaNode info c) ∧
  katana.osContext t = proc c ∧
  katana.osNumaNode t = numaNode c.
Proof.
  intros Hlen Hc. rewrite build_topo_sets.
  destruct (renumber_lookup info (set_of Z.ltb (physid <$> info))
              (set_of Z.ltb (numaNode <$> info)) 0 0 info i c Hc) as [mid ->].
  intros [= <-]. cbn.
  pose proof (list_elem_of_lookup_2 _ _ _ Hc) as Hin.
  pose proof (lookup_lt_Some _ _ _ Hc) as Hi.
  pose proof (rank_bound physid info c Hin) as Hp.
  pose proof (rank_bound numaNode info c Hin) as Hn.
  pose proof (find_if_distance_le (λ c', physid c' =? physid c) info) as Hl.
  unfold rank_of in *.
  rewrite !(to_unsigned_length _ (length info)) by (done || lia).
  done.
Qed.

(** Counterexample to C1 as stated: processor 0 is on NUMA node 1 and is
    seen first, so the scan order gives node 1 the rank 0; the code gives
    it the rank 1, its position in numeric order. *)
Lemma ranks_in_scan_order_counterexample :
  ¬ (∀ info topo s',
       filtered_info cpulist.parseCPUList host_numa_swapped process_start
       = Ok (info, s') →
       makeHWTopo cpulist.parseCPUList host_numa_swapped process_start
       = Ok (topo, s') →
       ranks_in_scan_order info (katana.threadTopoInfo topo)).
Proof.
  intros Hclaim.
  epose proof (Hclaim _ _ _ ltac:(vm_compute; reflexivity)
                 ltac:(vm_compute; reflexivity) 0%nat _ _ eq_refl eq_refl)
    as [_ Hnuma].
  vm_compute in Hnuma. discriminate Hnuma.
Qed.

(** The package ranks leave the scan order as well: on this host the final
    order begins with processor 2 of package 1, whose rank is 1. *)
Lemma package_ranks_not_in_scan_order :
  ∃ info topo s',
    filtered_info cpulist.parseCPUList host_package_order process_start
    = Ok (info, s') ∧
    makeHWTopo cpulist.parseCPUList host_package_order process_start
    = Ok (topo, s') ∧
    physid <$> info = [1; 0] ∧
    katana.socket <$> katana.threadTopoInfo topo = [1; 0] ∧
    scan_rank (physid <$> info) 1 = 0%nat.
Proof.
  eexists _, _, _. split_and!; vm_compute; reflexivity.
Qed.

(** C1, amended: the sequence is built from [info], the valid records in
    their final order.  Its package ranks and its NUMA ranks are each a
    bijection from the distinct package ids (NUMA ids) of the valid records
    onto 0..count-1, and the rank of an id is its position in the numeric
    order of these ids, the number of distinct ids below it. *)
Theorem ranks_in_numeric_order parseCPUList h s topo s' :
  makeHWTopo parseCPUList h s = Ok (topo, s') →
  ∃ info vals,
    filtered_info parseCPUList h s = Ok (info, s') ∧
    parseCPUInfo h s = Ok (vals, s') ∧
    ids <$> info ≡ₚ ids <$> valid_records parseCPUList h vals ∧
    let tti := katana.threadTopoInfo topo in
    let m := katana.machineTopoInfo topo in
    length tti = length info ∧
    (∀ i c t, info !! i = Some c → tti !! i = Some t →
       katana.socket t = Z.of_nat (numeric_rank (physid <$> info) (physid c)) ∧
       katana.numaNode t
       = Z.of_nat (numeric_rank (numaNode <$> info) (numaNode c))) ∧
    (∀ i j ci cj ti tj,
       info !! i = Some ci → info !! j = Some cj →
       tti !! i = Some ti → tti !! j = Some tj →
       (katana.socket ti = katana.socket tj ↔ physid ci = physid cj) ∧
       (katana.numaNode ti = katana.numaNode tj ↔ numaNode ci = numaNode cj)) ∧
    (∀ r, 0 ≤ r < katana.maxSockets m ↔ ∃ t, t ∈ tti ∧ katana.socket t = r) ∧
    (∀ r, 0 ≤ r < katana.maxNumaNodes m ↔
          ∃ t, t ∈ tti ∧ katana.numaNode t = r).
Proof.
  intros (info & Hinfo & ->)%makeHWTopo_Ok.
  destruct (filtered_info_valid_records _ _ _ _ _ Hinfo)
    as (vals & Hparse & Hperm).
  exists info, vals. split_and!; [done..|].
  destruct (filtered_info_in_range _ _ _ _ _ Hinfo) as [_ Hlen].
  pose proof (build_topo_entry info) as Hentry.
  assert (Hlength : length (katana.threadTopoInfo (build_topo info)) = length info)
    by (rewrite build_topo_sets; apply length_renumber).
  (* every key of the two renumberings behaves alike *)
  assert (Honto : ∀ (key : cpuinfo → Z) (rank : katana.ThreadTopoInfo → Z),
            (∀ i c t, info !! i = Some c →
               katana.threadTopoInfo (build_topo info) !! i = Some t →
               rank t = Z.of_nat (rank_of key info c)) →
            ∀ r, 0 ≤ r < Z.of_nat (length (remove_dups (key <$> info))) ↔
                 ∃ t, t ∈ katana.threadTopoInfo (build_topo info) ∧ rank t = r).
  { intros key rank Hrank r. split.
    - intros Hr. destruct (proj1 (rank_onto key info (Z.to_nat r)))
        as (c & [i Hi]%list_elem_of_lookup_1 & Hc); [lia|].
      destruct (lookup_lt_is_Some_2 (katana.threadTopoInfo (build_topo info)) i)
        as [t Ht]; [rewrite Hlength; by eapply lookup_lt_Some|].
      exists t. split; [by eapply list_elem_of_lookup_2|].
      rewrite (Hrank i c t Hi Ht), Hc. lia.
    - intros (t & [i Ht]%list_elem_of_lookup_1 & <-).
      destruct (lookup_lt_is_Some_2 info i) as [c Hc];
        [rewrite <- Hlength; by eapply lookup_lt_Some|].
      rewrite (Hrank i c t Hc Ht). split; [lia|]. apply Nat2Z.inj_lt.
      apply rank_onto. exists c. split; [by eapply list_elem_of_lookup_2|done]. }
  cbn zeta. split_and!.
  - done.
  - intros i c t Hc Ht. destruct (Hentry i c t Hlen Hc Ht) as (_ & _ & -> & -> & _).
    pose proof (list_elem_of_lookup_2 _ _ _ Hc) as Hin.
    by rewrite !rank_numeric.
  - intros i j ci cj ti tj Hci Hcj Hti Htj.
    destruct (Hentry i ci ti Hlen Hci Hti) as (_ & _ & -> & -> & _).
    destruct (Hentry j cj tj Hlen Hcj Htj) as (_ & _ & -> & -> & _).
    pose proof (list_elem_of_lookup_2 _ _ _ Hci) as Hi.
    pose proof (list_elem_of_lookup_2 _ _ _ Hcj) as Hj.
    rewrite !Nat2Z.inj_iff. split; by apply rank_inj.
  - cbn. rewrite countSockets_distinct by done.
    apply (Honto physid katana.socket).
    intros i c t Hc Ht. by destruct (Hentry i c t Hlen Hc Ht) as (_ & _ & -> & _).
  - cbn. rewrite countNumaNodes_distinct by done.
    apply (Honto numaNode katana.numaNode).
    intros i c t Hc Ht.
    by destruct (Hentry i c t Hlen Hc Ht) as (_ & _ & _ & -> & _).
Qed.

Lemma ranks_in_numeric_order_witness :
  ∃ topo s',
    makeHWTopo cpulist.parseCPUList host_numa_swapped process_start
    = Ok (topo, s') ∧
    (∀ r, 0 ≤ r < 2 ↔
          ∃ t, t ∈ katana.threadTopoInfo topo ∧ katana.numaNode t = r).
Proof.
  eexists _, _. split; [vm_compute; reflexivity|].
  edestruct (ranks_in_numeric_order cpulist.parseCPUList host_numa_swapped
               process_start)
    as (info & vals & _ & _ & _ & _ & _ & _ & _ & Hnuma);
    [vm_compute; reflexivity|].
  exact Hnuma.
Defined.

(** C5: the leader of every entry is the compact id of the first entry, in
    the final order, with the same package id; hence the leader of a leader
    is the leader itself, no leader id exceeds the id of its entry, and an
    entry and its leader have the same package rank. *)
Theorem leader_is_first_of_package parseCPUList h s topo s' :
  makeHWTopo parseCPUList h s = Ok (topo, s') →
  ∃ info,
    filtered_info parseCPUList h s = Ok (info, s') ∧
    let tti := katana.threadTopoInfo topo in
    length tti = length info ∧
    ∀ i c t, info !! i = Some c → tti !! i = Some t →
      katana.tid t = Z.of_nat i ∧
      ∃ j cl tl,
        katana.socketLeader t = Z.of_nat j ∧
        info !! j = Some cl ∧ tti !! j = Some tl ∧
        physid cl = physid c ∧
        (∀ k ck, (k < j)%nat → info !! k = Some ck → physid ck ≠ physid c) ∧
        katana.socketLeader tl = katana.tid tl ∧
        katana.socketLeader t ≤ katana.tid t ∧
        katana.socket tl = katana.socket t.
Proof.
  intros (info & Hinfo & ->)%makeHWTopo_Ok. exists info. split; [done|].
  destruct (filtered_info_in_range _ _ _ _ _ Hinfo) as [_ Hlen].
  assert (Hlength : length (katana.threadTopoInfo (build_topo info)) = length info)
    by (rewrite build_topo_sets; apply length_renumber).
  cbn zeta. split; [done|]. intros i c t Hc Ht.
  destruct (build_topo_entry info i c t Hlen Hc Ht) as (Htid & Hleader & Hsocket & _).
  split; [done|].
  destruct (find_if_distance_first (λ c', physid c' =? physid c) info i c Hc)
    as (Hle & cl & Hcl & Hsame%Z.eqb_eq & Hbefore); [apply Z.eqb_refl|].
  set (j := find_if_distance (λ c', physid c' =? physid c) info) in *.
  destruct (lookup_lt_is_Some_2 (katana.threadTopoInfo (build_topo info)) j)
    as [tl Htl]; [rewrite Hlength; by eapply lookup_lt_Some|].
  destruct (build_topo_entry info j cl tl Hlen Hcl Htl)
    as (Htidl & Hleaderl & Hsocketl & _).
  exists j, cl, tl. split_and!; try done.
  - intros k ck Hk Hck. by apply Z.eqb_neq, (Hbefore k).
  - rewrite Hleaderl, Htidl, Hsame. done.
  - rewrite Hleader, Htid. lia.
  - rewrite Hsocketl, Hsocket. unfold rank_of. by rewrite Hsame.
Qed.

Lemma leader_is_first_of_package_witness :
  ∃ topo s',
    makeHWTopo cpulist.parseCPUList host_two_packages process_start
    = Ok (topo, s') ∧
    ∃ t j tl,
      katana.threadTopoInfo topo !! 3%nat = Some t ∧
      katana.socketLeader t = Z.of_nat j ∧
      katana.threadTopoInfo topo !! j = Some tl ∧
      katana.socketLeader tl = katana.tid tl ∧
      katana.socketLeader t ≤ katana.tid t ∧
      katana.socket tl = katana.socket t.
Proof.
  eexists _, _. split; [vm_compute; reflexivity|].
  edestruct (leader_is_first_of_package cpulist.parseCPUList host_two_packages
               process_start) as (info & Hinfo & _ & Hentries);
    [vm_compute; reflexivity|].
  vm_compute in Hinfo. injection Hinfo as <-.
  edestruct (Hentries 3%nat)
    as (_ & j & cl & tl & Hj & _ & Htl & _ & _ & Hself & Hle & Hrank);
    [reflexivity..|].
  eexists _, j, tl. split; [reflexivity|]. by split_and!.
Defined.

(** ** The second SMT pass *)

(** What [markSMT] does: the first record is returned as it is, and every
    later record is flagged exactly when it shares package and core with
    the record before it. *)
Lemma markSMT_head info : head (markSMT info) = head info.
Proof. by destruct info. Qed.

Lemma markSMT_from_lookup prev rest i c :
  markSMT_from prev rest !! i = Some c →
  ∃ p, (prev :: markSMT_from prev rest) !! i = Some p ∧
       smt c = (physid p =? physid c) && (coreid p =? coreid c).
Proof.
  revert prev i. induction rest as [|c0 rest IH]; intros prev i; [done|].
  cbn [markSMT_from]. destruct i as [|i].
  - intros [= <-]. exists prev. split; [done|]. done.
  - intros Hi. change ((?x :: ?l) !! S i) with (l !! i) in Hi.
    destruct (IH _ _ Hi) as (p & Hp & Hsmt). by exists p.
Qed.

Lemma markSMT_later info i c :
  markSMT info !! S i = Some c →
  ∃ p, markSMT info !! i = Some p ∧
       smt c = (physid p =? physid c) && (coreid p =? coreid c).
Proof.
  destruct info as [|c0 rest]; [done|]. cbn [markSMT].
  intros Hi. change ((?x :: ?l) !! S i) with (l !! i) in Hi.
  by apply markSMT_from_lookup.
Qed.

(** Removing the invalid records lowers [maxThreads] by their number. *)
Lemma maxThreads_without_invalid parseCPUList h s topo s' :
  makeHWTopo parseCPUList h s = Ok (topo, s') →
  ∃ vals,
    parseCPUInfo h s = Ok (vals, s') ∧
    katana.maxThreads (katana.machineTopoInfo topo)
    = Z.of_nat (length vals)
      - Z.of_nat (length (filter (λ c, valid c ≠ true)
                            (markValid parseCPUList h vals))).
Proof.
  intros (info & Hinfo & ->)%makeHWTopo_Ok.
  destruct (filtered_info_in_range _ _ _ _ _ Hinfo) as [_ Hlen].
  destruct (filtered_info_valid_records _ _ _ _ _ Hinfo)
    as (vals & Hparse & Hperm).
  exists vals. split; [done|]. cbn.
  rewrite (to_unsigned_length _ (length info)) by done.
  apply Permutation_length in Hperm. rewrite !length_fmap in Hperm.
  rewrite Hperm. unfold valid_records.
  pose proof (filter_app_complement (λ c, valid c = true)
                (markValid parseCPUList h vals)) as Hsplit.
  apply Permutation_length in Hsplit.
  rewrite length_app, markValid_allowed, length_fmap in Hsplit.
  rewrite <- markValid_allowed in Hsplit. lia.
Qed.

(** C2, at the failing input: processors 0 and 1 are the two hardware
    threads of one core and only processor 1 is allowed.  One record is
    removed and [maxThreads] is 1; the record of processor 1 is the first of
    the filtered sequence, [markSMT] leaves it as it is, and it keeps the
    [smt] flag of the first pass although no sibling of it is left. *)
Theorem markSMT_keeps_flag_of_first_record :
  ∃ vals c topo s',
    parseCPUInfo host_sibling_only process_start = Ok (vals, s') ∧
    length vals = 2%nat ∧
    filtered_info cpulist.parseCPUList host_sibling_only process_start
    = Ok ([c], s') ∧
    makeHWTopo cpulist.parseCPUList host_sibling_only process_start
    = Ok (topo, s') ∧
    katana.maxThreads (katana.machineTopoInfo topo) = 1 ∧
    proc c = 1 ∧ smt c = true.
Proof.
  eexists _, _, _, _. split_and!; vm_compute; reflexivity.
Qed.

(** ** The end-to-end scenario of the specification *)

Example two_packages_topology :
  ∃ topo s',
    makeHWTopo cpulist.parseCPUList host_two_packages process_start
    = Ok (topo, s') ∧
    katana.machineTopoInfo topo = katana.mk_MachineTopoInfo 4 4 2 2 ∧
    katana.socket <$> katana.threadTopoInfo topo = [0; 0; 1; 1] ∧
    katana.socketLeader <$> katana.threadTopoInfo topo = [0; 0; 2; 2] ∧
    katana.osContext <$> katana.threadTopoInfo topo = [0; 1; 2; 3].
Proof. eexists _, _. split_and!; vm_compute; reflexivity. Qed.

(** ** The topology cache *)

Lemma getHWTopo_data parseCPUList h s d s1 :
  getHWTopo parseCPUList h s = Ok (d, s1) → data s1 = Some d.
Proof.
  unfold getHWTopo. unfold_M. destruct (data s) as [d0|] eqn:Hd.
  - intros [= <- <-]. done.
  - destruct (makeHWTopo parseCPUList h s) as [[d1 s2]|]; [|done].
    unfold set_data. intros [= <- <-]. done.
Qed.

Lemma getHWTopo_hit parseCPUList h s d :
  data s = Some d → getHWTopo parseCPUList h s = Ok (d, s).
Proof. intros Hd. unfold getHWTopo. unfold_M. by rewrite Hd. Qed.

(** C9: once a call of [getHWTopo] has returned the topology [d], every
    later call returns [d] again, whatever the host looks like by then, and
    leaves the statics and the diagnostics as they are: the build pipeline,
    which reads the host, does not run again. *)
Theorem getHWTopo_computed_once parseCPUList h s d s1 :
  getHWTopo parseCPUList h s = Ok (d, s1) →
  ∀ parseCPUList' hs,
    later_calls parseCPUList' hs s1 = Ok (replicate (length hs) d, s1).
Proof.
  intros Hfirst parseCPUList' hs. apply getHWTopo_data in Hfirst.
  induction hs as [|h' hs IH]; [done|].
  cbn [later_calls length replicate]. unfold_M.
  rewrite (getHWTopo_hit _ _ _ _ Hfirst).
  fold (later_calls parseCPUList' hs). by rewrite IH.
Qed.

Lemma getHWTopo_computed_once_witness :
  ∃ d s1,
    getHWTopo cpulist.parseCPUList host_two_packages process_start = Ok (d, s1) ∧
    later_calls cpulist.parseCPUList [host_unreadable; host_two_packages] s1
    = Ok ([d; d], s1).
Proof.
  eexists _, _. split.
  - vm_compute. reflexivity.
  - apply (getHWTopo_computed_once cpulist.parseCPUList host_two_packages
             process_start _ _ eq_refl cpulist.parseCPUList
             [host_unreadable; host_two_packages]).
Defined.

(** ** The affinity binder *)

Lemma string_app_assoc (a b c : string) : (a +:+ b) +:+ c = a +:+ (b +:+ c).
Proof.
  induction a as [|x a IH]; [done|].
  change (String x ((a +:+ b) +:+ c) = String x (a +:+ (b +:+ c))).
  by rewrite IH.
Qed.

(** One call, from any state of the process. *)
Lemma bindThreadSelf_call h osContext s :
  ∃ b s',
    bindThreadSelf h osContext s = Ok (b, s') ∧
    (KATANA_USE_SCHED_SETAFFINITY h = false →
       b = false ∧ affinity_warned s' = true ∧
       log s' = log s ++ (if affinity_warned s then []
                          else [affinity_unsupported_warning])) ∧
    (KATANA_USE_SCHED_SETAFFINITY h = true →
       let r := sched_setaffinity h (CPU_SET osContext 0) in
       (r.1 = -1 →
          b = false ∧
          ∃ text, log s' = log s ++ [text +:+ strerror h r.2 +:+ ")"]) ∧
       (r.1 ≠ -1 → b = true ∧ s' = s)).
Proof.
  unfold bindThreadSelf.
  destruct (KATANA_USE_SCHED_SETAFFINITY h) eqn:Hsup.
  - destruct (sched_setaffinity h (CPU_SET osContext 0)) as [ret errno] eqn:Hcall.
    destruct (ret =? -1) eqn:Hret.
    + apply Z.eqb_eq in Hret. subst ret.
      eexists false, _. split; [reflexivity|]. split; [done|].
      intros _. cbn. split; [|done]. intros _. split; [done|].
      exists ("Could not set CPU affinity to " +:+ pretty osContext +:+ "(").
      by rewrite !string_app_assoc.
    + apply Z.eqb_neq in Hret.
      exists true, s. split; [reflexivity|]. split; [done|].
      intros _. cbn. split; [done|]. intros _. done.
  - unfold KATANA_WARN_ONCE. unfold_M.
    destruct (affinity_warned s) eqn:Hw.
    + exists false, s. split; [reflexivity|]. split; [|done].
      intros _. by rewrite app_nil_r.
    + eexists false, _. split; [reflexivity|]. split; [|done].
      intros _. done.
Qed.

Lemma bind_all_unsupported h contexts s :
  KATANA_USE_SCHED_SETAFFINITY h = false →
  ∃ s',
    bind_all h contexts s = Ok (replicate (length contexts) false, s') ∧
    (length (log s') ≤ length (log s) + (if affinity_warned s then 0 else 1))%nat.
Proof.
  intros Hbuild. revert s. induction contexts as [|osContext contexts IH];
    intros s.
  { exists s. split; [done|]. lia. }
  destruct (bindThreadSelf_call h osContext s)
    as (b & s1 & Hcall & Hunsupported & _).
  destruct (Hunsupported Hbuild) as (-> & Hwarned & Hlog).
  destruct (IH s1) as (s2 & Hrest & Hlen).
  exists s2. cbn [bind_all length replicate]. unfold_M.
  rewrite Hcall. fold (bind_all h contexts). rewrite Hrest.
  split; [done|]. rewrite Hwarned, Hlog, length_app in Hlen.
  destruct (affinity_warned s); simpl in Hlen; lia.
Qed.

(** C8: [bindThreadSelf] returns for every [osContext] and never fails.
    Without affinity support it answers [false] and writes its warning
    unless the warning has been written before, so that all the calls of a
    process write it once at most; with affinity support it passes the mask
    built by [CPU_SET] to [sched_setaffinity], answers [false] with a
    diagnostic that carries [strerror(errno)] when the call yields -1, and
    [true] without touching anything otherwise. *)
Theorem bindThreadSelf_outcome h :
  (∀ osContext s, ∃ b s',
     bindThreadSelf h osContext s = Ok (b, s') ∧
     (KATANA_USE_SCHED_SETAFFINITY h = false →
        b = false ∧ affinity_warned s' = true ∧
        log s' = log s ++ (if affinity_warned s then []
                           else [affinity_unsupported_warning])) ∧
     (KATANA_USE_SCHED_SETAFFINITY h = true →
        let r := sched_setaffinity h (CPU_SET osContext 0) in
        (r.1 = -1 →
           b = false ∧
           ∃ text, log s' = log s ++ [text +:+ strerror h r.2 +:+ ")"]) ∧
        (r.1 ≠ -1 → b = true ∧ s' = s))) ∧
  (KATANA_USE_SCHED_SETAFFINITY h = false →
   ∀ contexts, ∃ s',
     bind_all h contexts process_start
     = Ok (replicate (length contexts) false, s') ∧
     (length (log s') ≤ 1)%nat).
Proof.
  split.
  - apply bindThreadSelf_call.
  - intros Hbuild contexts.
    destruct (bind_all_unsupported h contexts process_start Hbuild)
      as (s' & Hcalls & Hlen).
    by exists s'.
Qed.

Lemma bindThreadSelf_outcome_witness :
  ∃ s',
    bind_all host_two_packages [0; 1; 5000] process_start
    = Ok ([false; false; false], s') ∧
    (length (log s') ≤ 1)%nat.
Proof.
  exact (proj2 (bindThreadSelf_outcome host_two_packages) eq_refl [0; 1; 5000]).
Defined.

(** ** The order of the records *)

Lemma cpuinfo_lt_lex a b :
  cpuinfo_lt a b = true ↔ lex_lt (sort_key a) (sort_key b).
Proof.
  unfold cpuinfo_lt, lex_lt, sort_key. cbn.
  destruct (smt a), (smt b); cbn;
    try (split; [intros; lia|intros [?|[? ?]]; lia || done]);
    destruct (physid a =? physid b) eqn:Hp; cbn;
    [apply Z.eqb_eq in Hp|apply Z.eqb_neq in Hp
    |apply Z.eqb_eq in Hp|apply Z.eqb_neq in Hp];
    try (rewrite Z.ltb_lt; lia);
    (destruct (coreid a =? coreid b) eqn:Hc; cbn;
     [apply Z.eqb_eq in Hc|apply Z.eqb_neq in Hc]; rewrite Z.ltb_lt; lia).
Qed.

Lemma not_after_cpuinfo_lex a b :
  not_after cpuinfo_lt a b ↔ ¬ lex_lt (sort_key b) (sort_key a).
Proof.
  unfold not_after. rewrite <- cpuinfo_lt_lex. by destruct (cpuinfo_lt b a).
Qed.

Global Instance not_after_cpuinfo_total : Total (not_after cpuinfo_lt).
Proof.
  intros a b. rewrite !not_after_cpuinfo_lex. unfold lex_lt.
  destruct (sort_key a) as [[[a1 a2] a3] a4], (sort_key b) as [[[b1 b2] b3] b4].
  cbn. lia.
Qed.

Global Instance not_after_cpuinfo_trans : Transitive (not_after cpuinfo_lt).
Proof.
  intros a b c. rewrite !not_after_cpuinfo_lex. unfold lex_lt.
  destruct (sort_key a) as [[[a1 a2] a3] a4], (sort_key b) as [[[b1 b2] b3] b4],
    (sort_key c) as [[[c1 c2] c3] c4].
  cbn. lia.
Qed.

Lemma cpuinfo_lt_equiv a b :
  cpuinfo_lt a b = false ∧ cpuinfo_lt b a = false ↔
  smt a = smt b ∧ physid a = physid b ∧ coreid a = coreid b ∧ proc a = proc b.
Proof.
  rewrite <- !not_true_iff_false, !cpuinfo_lt_lex.
  unfold lex_lt, sort_key. cbn.
  destruct (smt a), (smt b); cbn; split; intros; try lia;
    split_and?; try done; lia.
Qed.

(** X1: [operator<] is a strict weak ordering, as [std::sort] requires: it is
    irreflexive and transitive, and two records are equivalent under it
    (neither is less) exactly when they agree on [smt], [physid], [coreid]
    and [proc]. *)
Theorem cpuinfo_lt_strict_weak_order :
  (∀ a, cpuinfo_lt a a = false) ∧
  (∀ a b c, cpuinfo_lt a b = true → cpuinfo_lt b c = true →
            cpuinfo_lt a c = true) ∧
  (∀ a b, cpuinfo_lt a b = false ∧ cpuinfo_lt b a = false ↔
          smt a = smt b ∧ physid a = physid b ∧ coreid a = coreid b ∧
          proc a = proc b).
Proof.
  split_and!.
  - intros a. apply not_true_iff_false. rewrite cpuinfo_lt_lex.
    unfold lex_lt. lia.
  - intros a b c. rewrite !cpuinfo_lt_lex. unfold lex_lt.
    destruct (sort_key a) as [[[a1 a2] a3] a4],
      (sort_key b) as [[[b1 b2] b3] b4], (sort_key c) as [[[c1 c2] c3] c4].
    cbn. lia.
  - apply cpuinfo_lt_equiv.
Qed.

(** ** One mode for all records *)

Lemma getNumaNode_node_in h c s n s1 :
  getNumaNode h c s = Ok (n, s1) →
  n = node_in h s1 c ∧ answered h s1 c ∧
  (KATANA_USE_NUMA h = true → warnOnce s1 = true) ∧
  ((KATANA_USE_NUMA h = true → warnOnce s = true) →
   numaAvail s1 = numaAvail s ∧
   dynamic_numa_node_of_cpu s1 = dynamic_numa_node_of_cpu s).
Proof.
  unfold getNumaNode, node_in, answered.
  destruct (KATANA_USE_NUMA h) eqn:Hbuild; unfold_M; cbn [andb].
  - destruct (warnOnce s) eqn:Hw; cbn.
    + destruct (numaAvail s) eqn:Ha; cbn.
      * destruct (dynamic_numa_node_of_cpu s) as [f|] eqn:Hf; [|done].
        destruct (_ <? 0) eqn:Hneg; [done|]. intros [= <- <-].
        rewrite Hw, Ha, Hf. split_and!; try done.
        intros _. exists f. split; [done|]. unfold query. lia.
      * intros [= <- <-]. by rewrite Hw, Ha.
    + unfold LoadLibNuma, probe_numa. unfold_M.
      destruct (dlopen_libnuma h) as [lib|]; cbn.
      * destruct (sym_numa_available lib) as [r|]; cbn;
          [destruct (0 <=? to_int r); cbn;
           [destruct (sym_numa_num_configured_nodes lib) as [k|]; [|done];
            cbn; destruct (0 <? to_int k); cbn;
            [destruct (sym_numa_node_of_cpu lib) as [f|]; [|done];
             destruct (_ <? 0) eqn:Hneg; [done|]|]|]|];
          intros [= <- <-]; cbn;
          (split_and!; [done|try done|done
                       |intros Habs; by specialize (Habs eq_refl)]).
        intros _. exists f. split; [done|]. unfold query. lia.
      * destruct (dynamic_numa_available s) as [r|]; cbn;
          [destruct (0 <=? to_int r); cbn;
           [destruct (dynamic_numa_num_configured_nodes s) as [k|]; [|done];
            cbn; destruct (0 <? to_int k); cbn;
            [destruct (dynamic_numa_node_of_cpu s) as [f|] eqn:Hf; [|done];
             destruct (_ <? 0) eqn:Hneg; [done|]|]|]|];
          intros [= <- <-]; cbn; rewrite ?Hf;
          (split_and!; [done|try done|done
                       |intros Habs; by specialize (Habs eq_refl)]).
        intros _. exists f. split; [done|]. unfold query. lia.
  - destruct (warnOnce s); cbn; intros [= <- <-]; done.
Qed.

Lemma getNumaNode_loaded h c s n s1 :
  getNumaNode h c s = Ok (n, s1) →
  KATANA_USE_NUMA h = true →
  dynamic_numa_node_of_cpu s1 = loaded_node_of_cpu h s.
Proof.
  unfold getNumaNode, loaded_node_of_cpu. intros Hcall Hbuild. revert Hcall.
  rewrite Hbuild. unfold_M.
  destruct (warnOnce s) eqn:Hw; cbn.
  - destruct (numaAvail s); cbn; [|by intros [= <- <-]].
    destruct (dynamic_numa_node_of_cpu s) as [f|] eqn:Hf; [|done].
    destruct (_ <? 0); [done|]. by intros [= <- <-].
  - unfold LoadLibNuma, probe_numa. unfold_M.
    destruct (dlopen_libnuma h) as [lib|]; cbn.
    + destruct (sym_numa_available lib) as [r|]; cbn;
        [destruct (0 <=? to_int r); cbn;
         [destruct (sym_numa_num_configured_nodes lib) as [k|]; [|done];
          cbn; destruct (0 <? to_int k); cbn;
          [destruct (sym_numa_node_of_cpu lib) as [f|]; [|done];
           destruct (_ <? 0); [done|]|]|]|];
        by intros [= <- <-].
    + destruct (dynamic_numa_available s) as [r|]; cbn;
        [destruct (0 <=? to_int r); cbn;
         [destruct (dynamic_numa_num_configured_nodes s) as [k|]; [|done];
          cbn; destruct (0 <? to_int k); cbn;
          [destruct (dynamic_numa_node_of_cpu s) as [f|]; [|done];
           destruct (_ <? 0); [done|]|]|]|];
        by intros [= <- <-].
Qed.

Lemma resolve_numa_settled h vals s vals' s' :
  (KATANA_USE_NUMA h = true → warnOnce s = true) →
  resolve_numa h vals s = Ok (vals', s') →
  Forall2 (λ c c', c' = set_numaNode (node_in h s c) c ∧ answered h s c)
    vals vals' ∧
  numaAvail s' = numaAvail s ∧
  dynamic_numa_node_of_cpu s' = dynamic_numa_node_of_cpu s.
Proof.
  revert s vals'. induction vals as [|c vals IH]; intros s vals' Hs.
  { intros [= <- <-]. split; [constructor|done]. }
  cbn [resolve_numa]. unfold_M.
  destruct (getNumaNode h c s) as [[n s1]|] eqn:Hcall; [|done].
  fold (resolve_numa h vals).
  destruct (resolve_numa h vals s1) as [[vals1 s2]|] eqn:Hrest; [|done].
  intros [= <- <-].
  destruct (getNumaNode_node_in _ _ _ _ _ Hcall) as (-> & Hans & Hw1 & Hsame).
  destruct (Hsame Hs) as [Ha Hf].
  assert (Hnode : ∀ c', node_in h s1 c' = node_in h s c')
    by (intros c'; unfold node_in; by rewrite Ha, Hf).
  assert (Hanswered : ∀ c', answered h s1 c' → answered h s c')
    by (intros c'; unfold answered; by rewrite Ha, Hf).
  destruct (IH s1 vals1 Hw1 Hrest) as (Hall & Ha2 & Hf2).
  split; [|by rewrite Ha2, Hf2].
  constructor; [by rewrite Hnode; auto|].
  eapply Forall2_impl; [done|].
  intros c1 c1' [-> ?]. cbn. rewrite Hnode. auto.
Qed.

(** All records are resolved in the state [s1] that the first call
    leaves; the mode and the pointer of [s1] are those of the end, and in a
    NUMA build the pointer is the one the first call found. *)
Lemma resolve_numa_one_mode h c vals s vals' s' :
  resolve_numa h (c :: vals) s = Ok (vals', s') →
  ∃ s1,
    Forall2 (λ c c', c' = set_numaNode (node_in h s1 c) c ∧ answered h s1 c)
      (c :: vals) vals' ∧
    numaAvail s' = numaAvail s1 ∧
    dynamic_numa_node_of_cpu s' = dynamic_numa_node_of_cpu s1 ∧
    (KATANA_USE_NUMA h = true →
     dynamic_numa_node_of_cpu s1 = loaded_node_of_cpu h s).
Proof.
  cbn [resolve_numa]. unfold_M.
  destruct (getNumaNode h c s) as [[n s1]|] eqn:Hcall; [|done].
  fold (resolve_numa h vals).
  destruct (resolve_numa h vals s1) as [[vals1 s2]|] eqn:Hrest; [|done].
  intros [= <- <-]. exists s1.
  destruct (getNumaNode_node_in _ _ _ _ _ Hcall) as (-> & Hans & Hw1 & _).
  destruct (resolve_numa_settled _ _ _ _ _ Hw1 Hrest) as (Hall & Ha & Hf).
  split_and!; [by constructor|done..|].
  intros Hbuild. by eapply getNumaNode_loaded.
Qed.

Lemma parse_lines_Ok debug lines vals :
  parse_lines debug lines = Ok vals →
  ∃ cur, parse_loop debug lines ([], -1) = Ok (vals, cur).
Proof.
  unfold parse_lines. unfold_M.
  destruct (parse_loop _ lines _) as [[parsed cur]|]; [|done].
  intros [= <-]. eauto.
Qed.

(** What [parseCPUInfo] is made of, with the state in which the nodes were
    resolved; without a record the statics are untouched. *)
Lemma parseCPUInfo_nodes h s vals s' :
  parseCPUInfo h s = Ok (vals, s') →
  ∃ lines parsed cur s1,
    proc_cpuinfo h = Some lines ∧
    parse_loop (debug_assertions h) lines ([], -1) = Ok (parsed, cur) ∧
    Forall2 (λ c c', c' = set_numaNode (node_in h s1 c) c ∧ answered h s1 c)
      parsed vals ∧
    (parsed ≠ [] →
     numaAvail s' = numaAvail s1 ∧
     dynamic_numa_node_of_cpu s' = dynamic_numa_node_of_cpu s1 ∧
     (KATANA_USE_NUMA h = true →
      dynamic_numa_node_of_cpu s1 = loaded_node_of_cpu h s)).
Proof.
  unfold parseCPUInfo. destruct (proc_cpuinfo h) as [lines|]; [|done].
  unfold lift. unfold_M.
  destruct (parse_lines _ lines) as [parsed|] eqn:Hparse; [|done].
  apply parse_lines_Ok in Hparse as [cur Hloop].
  destruct parsed as [|c parsed].
  - intros [= <- <-]. exists lines, [], cur, s.
    split_and!; [done..|constructor|done].
  - intros (s1 & Hall & Hmode)%resolve_numa_one_mode.
    exists lines, (c :: parsed), cur, s1. by split_and!.
Qed.

(** X2: One call of [parseCPUInfo] resolves the NUMA nodes of all its records in
    one way, and the statics tell which.  Either every record has its
    package id as node, and then there is no record or the library is not in
    use when the call returns; or, in a NUMA build with the library in use,
    every record has as node the answer that the function behind
    [dynamic_numa_node_of_cpu] gives for its processor, no answer is
    negative, and this function is the one the call found: the symbol of the
    library of the host when the call was the first to load it, the pointer
    the statics held before otherwise.  The fallback is never mixed with
    answers of the library. *)
Theorem parseCPUInfo_one_numa_mode h s vals s' :
  parseCPUInfo h s = Ok (vals, s') →
  ((vals = [] ∨ KATANA_USE_NUMA h && numaAvail s' = false) ∧
   ∀ c, c ∈ vals → numaNode c = physid c) ∨
  (KATANA_USE_NUMA h = true ∧ numaAvail s' = true ∧
   ∃ node_of_cpu,
     loaded_node_of_cpu h s = Some node_of_cpu ∧
     dynamic_numa_node_of_cpu s' = Some node_of_cpu ∧
     ∀ c, c ∈ vals →
       0 ≤ query node_of_cpu c ∧ numaNode c = query node_of_cpu c).
Proof.
  intros (lines & parsed & cur & s1 & _ & _ & Hnodes & Hmode)%parseCPUInfo_nodes.
  destruct parsed as [|c0 parsed].
  { apply Forall2_nil_inv_l in Hnodes as ->. left.
    split; [by left|]. by intros c ?%elem_of_nil. }
  destruct Hmode as (Ha & Hf & Hloaded); [done|].
  destruct (KATANA_USE_NUMA h && numaAvail s1) eqn:Hlib.
  - pose proof (Forall2_cons_inv_l _ _ _ _ Hnodes)
      as (c0' & vals0 & [_ Hans0] & _ & _).
    destruct (Hans0 Hlib) as (f & Hptr & _).
    apply andb_true_iff in Hlib as [Hbuild Havail].
    right. split; [done|]. split; [by rewrite Ha|]. exists f.
    split; [by rewrite <- Hloaded|]. split; [by rewrite Hf|].
    intros c' (i & Hi)%list_elem_of_lookup_1.
    destruct (Forall2_lookup_r _ _ _ _ _ Hnodes Hi) as (c & Hc & -> & Hans).
    destruct Hans as (f' & Hf' & Hpos); [by rewrite Hbuild, Havail|].
    assert (f' = f) as -> by congruence.
    split; [done|]. cbn. unfold node_in. rewrite Hbuild, Havail, Hptr. cbn.
    apply Z.mod_small. pose proof (to_int_range (f (to_int (proc c)))) as Hr.
    unfold query, INT_MAX, INT_MIN in *. cbn [proc set_numaNode] in *. lia.
  - left. split; [right; by rewrite Ha|].
    intros c' (i & Hi)%list_elem_of_lookup_1.
    destruct (Forall2_lookup_r _ _ _ _ _ Hnodes Hi) as (c & Hc & -> & _).
    cbn. unfold node_in. by rewrite Hlib.
Qed.

Lemma parseCPUInfo_one_numa_mode_witness :
  ∃ vals s' node_of_cpu,
    parseCPUInfo host_numa_swapped process_start = Ok (vals, s') ∧
    sym_numa_node_of_cpu libnuma_swapped = Some node_of_cpu ∧
    dynamic_numa_node_of_cpu s' = Some node_of_cpu ∧
    physid <$> vals = [0; 0] ∧
    numaNode <$> vals = [1; 0] ∧
    ∀ c, c ∈ vals →
      0 ≤ query node_of_cpu c ∧ numaNode c = query node_of_cpu c.
Proof.
  eexists _, _.
  destruct (parseCPUInfo_one_numa_mode host_numa_swapped process_start _ _
              ltac:(vm_compute; reflexivity))
    as [[[Hnone|Hoff] _]|(_ & _ & f & Hloaded & Hptr & Hall)];
    [discriminate Hnone|discriminate Hoff|].
  exists f. split; [reflexivity|]. split; [exact Hloaded|].
  split; [exact Hptr|]. split; [reflexivity|]. split; [reflexivity|].
  exact Hall.
Defined.

(** ** The library path *)

Lemma resolve_numa_available h node_of_cpu cs s :
  numa_available h node_of_cpu →
  (warnOnce s = true →
   numaAvail s = true ∧ dynamic_numa_node_of_cpu s = Some node_of_cpu) →
  Forall (λ c, 0 ≤ query node_of_cpu c) cs →
  ∃ s',
    resolve_numa h cs s
    = Ok ((λ c, set_numaNode (query node_of_cpu c) c) <$> cs, s') ∧
    log s' = log s.
Proof.
  intros Hav Hinv Hcs. revert s Hinv.
  induction Hcs as [|c cs Hc _ IH]; intros s Hinv.
  { exists s. done. }
  pose proof (getNumaNode_available h node_of_cpu c s Hav Hinv) as Hcall.
  destruct (query node_of_cpu c <? 0) eqn:Hneg; [lia|].
  destruct Hcall as (s1 & Hcall & Hw & Ha & Hp).
  destruct (IH s1) as (s2 & Hrest & Hlog); [done|].
  exists s2. cbn [resolve_numa fmap list_fmap]. unfold_M.
  rewrite Hcall. fold (resolve_numa h cs). rewrite Hrest.
  assert (to_unsigned (query node_of_cpu c) = query node_of_cpu c) as ->.
  { apply Z.mod_small. pose proof (to_int_range (node_of_cpu (to_int (proc c)))).
    unfold query, INT_MAX, INT_MIN in *. lia. }
  split; [done|]. rewrite Hlog.
  (* the first call writes nothing either *)
  revert Hcall. destruct Hav as (Hbuild & lib & r & n & Hlib & Hr & Hr0 & Hn & Hn0 & Hq).
  unfold getNumaNode. rewrite Hbuild. unfold_M.
  destruct (warnOnce s) eqn:Hws; cbn.
  - destruct Hinv as [Ha' Hp']; [done|]. rewrite Ha', Hp'. cbn.
    destruct (_ <? 0); [done|]. intros ?; by simplify_eq.
  - unfold LoadLibNuma, probe_numa. unfold_M. rewrite Hlib. cbn.
    rewrite Hr. cbn. destruct (0 <=? to_int r) eqn:Hr'; [|lia].
    rewrite Hn. cbn. destruct (0 <? to_int n) eqn:Hn'; [|lia]. cbn.
    rewrite Hq. destruct (_ <? 0); [done|]. intros ?; by simplify_eq.
Qed.

(** X3: With the NUMA library available and an answer for every processor,
    [parseCPUInfo] at the start of the process gives every record the node
    the library reports for its processor and writes no warning. *)
Theorem parseCPUInfo_library_nodes h node_of_cpu lines parsed :
  numa_available h node_of_cpu →
  proc_cpuinfo h = Some lines →
  parse_lines (debug_assertions h) lines = Ok parsed →
  Forall (λ c, 0 ≤ query node_of_cpu c) parsed →
  ∃ s',
    parseCPUInfo h process_start
    = Ok ((λ c, set_numaNode (query node_of_cpu c) c) <$> parsed, s') ∧
    log s' = [].
Proof.
  intros Hav Hlines Hparse Hcs.
  destruct (resolve_numa_available h node_of_cpu parsed process_start Hav)
    as (s' & Hres & Hlog); [done|done|].
  exists s'. unfold parseCPUInfo, lift. rewrite Hlines. unfold_M.
  by rewrite Hparse.
Qed.

Lemma parseCPUInfo_library_nodes_witness :
  ∃ s',
    parseCPUInfo host_numa_swapped process_start
    = Ok ([mk_cpuinfo 0 0 2 0 2 1 false false;
           mk_cpuinfo 1 0 2 1 2 0 false false], s') ∧
    log s' = [].
Proof.
  apply (parseCPUInfo_library_nodes host_numa_swapped
           (λ cpu, if cpu =? 0 then 1 else 0)
           (cpu_block "0" "0" "0" ++ cpu_block "1" "0" "1")
           [mk_cpuinfo 0 0 2 0 2 0 false false;
            mk_cpuinfo 1 0 2 1 2 0 false false]).
  - split; [reflexivity|]. exists libnuma_swapped, 0, 2. by split_and!.
  - reflexivity.
  - vm_compute; reflexivity.
  - apply (bool_decide_unpack _). vm_compute. exact I.
Defined.

(** ** Missing symbols *)

(** X4: [getNumaNode] tests only [dynamic_numa_available] against null.  When
    the library answers [numa_available() >= 0] but has no
    [numa_num_configured_nodes], the first call of a NUMA build calls through
    a null pointer; [parseCPUInfo] then returns for no text that has a
    record. *)
Theorem parseCPUInfo_missing_symbol h lib r lines c parsed :
  KATANA_USE_NUMA h = true →
  dlopen_libnuma h = Some lib →
  sym_numa_available lib = Some r → 0 ≤ to_int r →
  sym_numa_num_configured_nodes lib = None →
  proc_cpuinfo h = Some lines →
  parse_lines (debug_assertions h) lines = Ok (c :: parsed) →
  parseCPUInfo h process_start = Err NullCall.
Proof.
  intros Hbuild Hlib Hr Hr0 Hn Hlines Hparse.
  unfold parseCPUInfo, lift. rewrite Hlines. unfold_M. rewrite Hparse.
  cbn [resolve_numa]. unfold_M. unfold getNumaNode. rewrite Hbuild.
  unfold_M. cbn. unfold LoadLibNuma, probe_numa. unfold_M. rewrite Hlib. cbn.
  rewrite Hr. cbn. destruct (0 <=? to_int r) eqn:Hr'; [|lia].
  by rewrite Hn.
Qed.

Lemma parseCPUInfo_missing_symbol_witness :
  parseCPUInfo host_numa_partial process_start = Err NullCall.
Proof.
  apply (parseCPUInfo_missing_symbol host_numa_partial libnuma_partial 0
           (cpu_block "0" "0" "0" ++ cpu_block "1" "0" "1")
           (mk_cpuinfo 0 0 2 0 2 0 false false)
           [mk_cpuinfo 1 0 2 1 2 0 false false]);
    first [reflexivity|apply (bool_decide_unpack _); vm_compute; exact I].
Defined.

(** ** Independence of the order of equivalent records *)

Lemma vec_at_put_unmarked upd vals i vals' :
  (∀ c, unmarked c → unmarked (upd c)) →
  Forall unmarked vals →
  vec_at_put upd vals i = Ok vals' → Forall unmarked vals'.
Proof.
  intros Hupd Hvals (_ & c & Hc & ->)%vec_at_put_Ok.
  apply Forall_insert; [done|]. apply Hupd.
  rewrite Forall_forall in Hvals. by eapply Hvals, list_elem_of_lookup_2.
Qed.

Lemma parse_line_unmarked debug vals cur line vals' cur' :
  Forall unmarked vals →
  parse_line debug (vals, cur) line = Ok (vals', cur') →
  Forall unmarked vals'.
Proof.
  intros Hvals. unfold parse_line.
  destruct (classify line) as [num|num|num|num|num|];
    [destruct (debug && negb (cur <? num)); [done|];
     unfold vec_resize, mbind, result_bind;
     destruct (to_int (num + 1) <? 0); [done|]
    |unfold mbind, result_bind..|by intros [= <- <-]];
    (destruct (vec_at_put _ _ _) as [vals1|] eqn:Hput; [|done]);
    intros [= <- <-];
    (refine (vec_at_put_unmarked _ _ _ _ _ _ Hput); [intros c Hc; exact Hc|]);
    try done.
  by apply Forall_resize.
Qed.

Lemma parse_loop_unmarked debug lines vals cur vals' cur' :
  Forall unmarked vals →
  parse_loop debug lines (vals, cur) = Ok (vals', cur') →
  Forall unmarked vals'.
Proof.
  revert vals cur. induction lines as [|line lines IH]; intros vals cur Hvals.
  { by intros [= <- <-]. }
  cbn [parse_loop]. unfold mbind, result_bind.
  destruct (parse_line debug (vals, cur) line) as [[vals1 cur1]|] eqn:Hline;
    [|done].
  apply IH. by eapply parse_line_unmarked.
Qed.

(** The records of [parseCPUInfo]: no flag is set, and the node is a
    function of the processor and of the package. *)
Lemma parseCPUInfo_uniform h s vals s' :
  parseCPUInfo h s = Ok (vals, s') →
  ∃ node, Forall (λ c, uniform node false c ∧ smt c = false) vals.
Proof.
  intros (lines & parsed & cur & s1 & _ & Hloop & Hnodes & _)%parseCPUInfo_nodes.
  apply parse_loop_unmarked in Hloop; [|constructor].
  exists (λ p ph, node_in h s1 (mk_cpuinfo p ph 0 0 0 0 false false)).
  rewrite Forall_forall in Hloop. apply Forall_forall.
  intros c' (i & Hi)%list_elem_of_lookup_1.
  destruct (Forall2_lookup_r _ _ _ _ _ Hnodes Hi) as (c & Hc & -> & _).
  destruct (Hloop c) as [Hv Hs]; [by eapply list_elem_of_lookup_2|].
  by split_and!.
Qed.

Lemma std_sort_sorts : sorts (std_sort cpuinfo_lt).
Proof.
  intros l. split; [apply std_sort_perm|].
  apply (StronglySorted_merge_sort (not_after cpuinfo_lt)).
Qed.

Lemma sort_rotated_sorts : sorts sort_rotated.
Proof.
  intros l. unfold sort_rotated. split.
  - rewrite std_sort_perm. unfold rotate.
    by rewrite Permutation_app_comm, take_drop.
  - apply (StronglySorted_merge_sort (not_after cpuinfo_lt)).
Qed.

Lemma erase_invalid_partitions : partitions erase_invalid.
Proof. by intros l. Qed.

Lemma partition_reversed_partitions : partitions partition_reversed.
Proof. intros l. apply reverse_Permutation. Qed.

Lemma cpuinfo_lt_normalize a b :
  cpuinfo_lt (normalize a) (normalize b) = cpuinfo_lt a b.
Proof. done. Qed.

(** Two sorted arrangements of the same records agree up to the fields
    [operator<] does not read. *)
Lemma sorted_normalize_unique node v l1 l2 :
  Forall (uniform node v) l1 → Forall (uniform node v) l2 →
  normalize <$> l1 ≡ₚ normalize <$> l2 →
  StronglySorted (not_after cpuinfo_lt) l1 →
  StronglySorted (not_after cpuinfo_lt) l2 →
  normalize <$> l1 = normalize <$> l2.
Proof.
  intros H1 H2 Hperm Hs1 Hs2.
  apply (StronglySorted_unique_strong (not_after cpuinfo_lt)); [| | |done].
  - intros x1 x2 (a & -> & Ha)%list_elem_of_fmap (b & -> & Hb)%list_elem_of_fmap.
    rewrite Forall_forall in H1, H2.
    destruct (H1 a Ha) as [Hna Hva], (H2 b Hb) as [Hnb Hvb].
    unfold not_after. rewrite !cpuinfo_lt_normalize. intros Hba Hab.
    destruct (proj1 (cpuinfo_lt_equiv a b)) as (Hs & Hp & Hc & Hq);
      [done|].
    destruct a, b; cbn in *. unfold normalize, set_sib, set_cpucores; cbn.
    congruence.
  - eapply StronglySorted_fmap; [|done]. intros x y. unfold not_after.
    by rewrite cpuinfo_lt_normalize.
  - eapply StronglySorted_fmap; [|done]. intros x y. unfold not_after.
    by rewrite cpuinfo_lt_normalize.
Qed.

Lemma normalize_markSMT_from prev rest :
  normalize <$> markSMT_from prev rest
  = markSMT_from (normalize prev) (normalize <$> rest).
Proof.
  revert prev. induction rest as [|c rest IH]; intros prev; [done|].
  cbn [markSMT_from fmap list_fmap]. by rewrite IH.
Qed.

Lemma normalize_markSMT l : normalize <$> markSMT l = markSMT (normalize <$> l).
Proof.
  destruct l as [|c l]; [done|]. cbn [markSMT fmap list_fmap].
  by rewrite normalize_markSMT_from.
Qed.

Lemma normalize_markValid parseCPUList h l :
  normalize <$> markValid parseCPUList h l
  = markValid parseCPUList h (normalize <$> l).
Proof.
  rewrite !markValid_allowed, <- !list_fmap_compose. by apply list_fmap_ext.
Qed.

Lemma normalize_filter_valid (l : list cpuinfo) :
  normalize <$> filter (λ c, valid c = true) l
  = filter (λ c, valid c = true) (normalize <$> l).
Proof.
  induction l as [|c l IH]; [done|]. cbn [fmap list_fmap].
  rewrite !filter_cons. change (valid (normalize c)) with (valid c).
  destruct (decide (valid c = true)); cbn [fmap list_fmap]; by rewrite IH.
Qed.

Lemma markSMT_from_Forall (P : cpuinfo → Prop) prev rest :
  (∀ c b, P c → P (set_smt b c)) →
  Forall P rest → Forall P (markSMT_from prev rest).
Proof.
  intros Hset Hrest. revert prev.
  induction Hrest as [|c rest Hc _ IH]; intros prev; [constructor|].
  cbn [markSMT_from]. constructor; [by apply Hset|apply IH].
Qed.

Lemma markSMT_Forall (P : cpuinfo → Prop) l :
  (∀ c b, P c → P (set_smt b c)) → Forall P l → Forall P (markSMT l).
Proof.
  intros Hset [|c rest Hc Hrest]; [constructor|]. cbn [markSMT].
  constructor; [done|by apply markSMT_from_Forall].
Qed.

Lemma find_if_distance_fmap {A B} (f : A → B) (p : B → bool) (l : list A) :
  find_if_distance (λ x, p (f x)) l = find_if_distance p (f <$> l).
Proof.
  induction l as [|x l IH]; [done|]. cbn [find_if_distance fmap list_fmap].
  by rewrite IH.
Qed.

Lemma ids_fields (l1 l2 : list cpuinfo) :
  ids <$> l1 = ids <$> l2 →
  proc <$> l1 = proc <$> l2 ∧ physid <$> l1 = physid <$> l2 ∧
  coreid <$> l1 = coreid <$> l2 ∧ numaNode <$> l1 = numaNode <$> l2.
Proof.
  intros Hids.
  assert (∀ (f : Z * Z * Z * Z → Z),
            (f ∘ ids) <$> l1 = (f ∘ ids) <$> l2) as Hf
    by (intros f; by rewrite !list_fmap_compose, Hids).
  split_and!;
    [apply (Hf (λ k, k.1.1.1))|apply (Hf (λ k, k.1.1.2))
    |apply (Hf (λ k, k.1.2))|apply (Hf (λ k, k.2))].
Qed.

Lemma renumber_ext info1 info2 sockets numaNodes i mid rest1 rest2 :
  physid <$> info1 = physid <$> info2 →
  ids <$> rest1 = ids <$> rest2 →
  renumber info1 sockets numaNodes i mid rest1
  = renumber info2 sockets numaNodes i mid rest2.
Proof.
  intros Hinfo. revert i mid rest2.
  induction rest1 as [|c1 rest1 IH]; intros i mid [|c2 rest2]; try done.
  cbn [fmap list_fmap]. intros [= Hp Hph Hc Hn Hrest].
  cbn [renumber]. rewrite (IH _ _ rest2 Hrest), Hp, Hph, Hn.
  by rewrite !(find_if_distance_fmap physid (λ x, x =? physid c2)), Hinfo.
Qed.

(** The topology is a function of the four fields in [ids]: the builder
    reads neither [sib], [cpucores], [valid] nor [smt]. *)
Lemma build_topo_ext info1 info2 :
  ids <$> info1 = ids <$> info2 → build_topo info1 = build_topo info2.
Proof.
  intros Hids. destruct (ids_fields _ _ Hids) as (Hproc & Hphys & Hcore & Hnode).
  assert (Hlen : length info1 = length info2)
    by by rewrite <- (length_fmap ids info1), Hids, length_fmap.
  assert (Hcores : (λ c, (to_int (physid c), to_int (coreid c))) <$> info1
                   = (λ c, (to_int (physid c), to_int (coreid c))) <$> info2).
  { change (((λ k, (to_int k.1.1.2, to_int k.1.2)) ∘ ids) <$> info1
            = ((λ k, (to_int k.1.1.2, to_int k.1.2)) ∘ ids) <$> info2).
    by rewrite !list_fmap_compose, Hids. }
  unfold build_topo, countCores, countSockets, countNumaNodes.
  rewrite <- !(foldl_fmap (λ s x, set_insert Z.ltb x s) [] _ physid).
  rewrite <- !(foldl_fmap (λ s x, set_insert Z.ltb x s) [] _ numaNode).
  rewrite <- !(foldl_fmap (λ s x, set_insert pair_lt x s) [] _
                 (λ c, (to_int (physid c), to_int (coreid c)))).
  rewrite Hlen, Hphys, Hnode, Hcores. f_equal. by apply renumber_ext.
Qed.

Lemma build_topo_normalize info :
  build_topo (normalize <$> info) = build_topo info.
Proof. apply build_topo_ext. by rewrite <- list_fmap_compose. Qed.

(** The records the topology is built from, up to [sib] and [cpucores], for
    any outcome of the sorts and of the partition. *)
Lemma filter_with_normalize sort1 part sort2 parseCPUList h node vals :
  sorts sort1 → partitions part → sorts sort2 →
  Forall (λ c, uniform node false c ∧ smt c = false) vals →
  normalize <$> filter_with sort1 part sort2 parseCPUList h vals
  = normalize <$> filter_with (std_sort cpuinfo_lt) erase_invalid
                    (std_sort cpuinfo_lt) parseCPUList h vals.
Proof.
  intros Hsort1 Hpart Hsort2 Hvals. unfold filter_with.
  pose proof std_sort_sorts as Hstd.
  assert (Huni : Forall (uniform node false) vals)
    by (eapply Forall_impl; [done|]; by intros c []).
  assert (Hfirst : normalize <$> sort1 vals
                   = normalize <$> std_sort cpuinfo_lt vals).
  { destruct (Hsort1 vals) as [Hp1 Hs1], (Hstd vals) as [Hp2 Hs2].
    apply (sorted_normalize_unique node false); [by rewrite Hp1|by rewrite Hp2| |done..].
    by rewrite Hp1, Hp2. }
  set (marked1 := markValid parseCPUList h (markSMT (sort1 vals))).
  set (marked2 := markValid parseCPUList h (markSMT (std_sort cpuinfo_lt vals))).
  assert (Hmarked : normalize <$> marked1 = normalize <$> marked2).
  { unfold marked1, marked2.
    by rewrite !normalize_markValid, !normalize_markSMT, Hfirst. }
  assert (Hnode : ∀ sort, sorts sort →
            Forall (uniform node true)
              (filter (λ c, valid c = true)
                 (markValid parseCPUList h (markSMT (sort vals))))).
  { intros sort Hsort. apply Forall_forall.
    intros c [Hv Hc]%list_elem_of_filter. split; [|done].
    rewrite markValid_allowed in Hc.
    apply list_elem_of_fmap in Hc as (c1 & -> & Hc1). cbn.
    assert (Forall (uniform node false) (markSMT (sort vals))) as Hall.
    { apply markSMT_Forall; [by intros ? ? []|].
      by rewrite (proj1 (Hsort vals)). }
    rewrite Forall_forall in Hall. by destruct (Hall c1 Hc1). }
  rewrite !normalize_markSMT. f_equal.
  destruct (Hsort2 (part marked1)) as [Hp1 Hs1].
  destruct (Hstd (erase_invalid marked2)) as [Hp2 Hs2].
  apply (sorted_normalize_unique node true); [| | |done..].
  - rewrite Hp1, (Hpart marked1). by apply Hnode.
  - rewrite Hp2. by apply Hnode.
  - rewrite Hp1, Hp2, (Hpart marked1). unfold erase_invalid.
    by rewrite !normalize_filter_valid, Hmarked.
Qed.

(** X5: [std::sort] leaves the order of equivalent records open, and
    [std::partition] the order of the records it keeps.  The topology
    [makeHWTopo] returns is the same for every outcome of the two sorts and
    of the partition that the standard allows. *)
Theorem makeHWTopo_any_sort sort1 part sort2 parseCPUList h s topo s' :
  sorts sort1 → partitions part → sorts sort2 →
  makeHWTopo parseCPUList h s = Ok (topo, s') →
  ∃ vals,
    parseCPUInfo h s = Ok (vals, s') ∧
    topo = build_topo (filter_with sort1 part sort2 parseCPUList h vals).
Proof.
  intros Hsort1 Hpart Hsort2 (info & Hinfo & ->)%makeHWTopo_Ok.
  apply filtered_info_Ok in Hinfo as (vals & Hparse & ->).
  exists vals. split; [done|].
  destruct (parseCPUInfo_uniform _ _ _ _ Hparse) as [node Hvals].
  rewrite <- (build_topo_normalize (filter_with _ _ _ _ _ _)).
  rewrite (filter_with_normalize _ _ _ _ _ node) by done.
  by rewrite build_topo_normalize.
Qed.

Lemma makeHWTopo_any_sort_witness :
  ∃ topo s' vals,
    makeHWTopo cpulist.parseCPUList host_offline_cpu process_start
    = Ok (topo, s') ∧
    parseCPUInfo host_offline_cpu process_start = Ok (vals, s') ∧
    sort_rotated vals ≠ std_sort cpuinfo_lt vals ∧
    topo = build_topo (filter_with sort_rotated partition_reversed sort_rotated
                         cpulist.parseCPUList host_offline_cpu vals).
Proof.
  eexists _, _.
  edestruct (makeHWTopo_any_sort sort_rotated partition_reversed sort_rotated
               cpulist.parseCPUList host_offline_cpu process_start)
    as (vals & Hvals & Htopo);
    [apply sort_rotated_sorts|apply partition_reversed_partitions
    |apply sort_rotated_sorts|vm_compute; reflexivity|].
  exists vals. split; [reflexivity|]. split; [exact Hvals|].
  split; [|exact Htopo].
  vm_compute in Hvals. injection Hvals as <-. by vm_compute.
Defined.

(** X6: The [smt] flags that the second call of [markSMT] writes reach no
    reader: the topology is the one built from the valid records as the
    second sort leaves them. *)
Theorem makeHWTopo_second_markSMT_unread parseCPUList h s topo s' :
  makeHWTopo parseCPUList h s = Ok (topo, s') →
  ∃ vals,
    parseCPUInfo h s = Ok (vals, s') ∧
    topo = build_topo
             (std_sort cpuinfo_lt
                (valid_records parseCPUList h
                   (markSMT (std_sort cpuinfo_lt vals)))).
Proof.
  intros (info & Hinfo & ->)%makeHWTopo_Ok.
  apply filtered_info_Ok in Hinfo as (vals & Hparse & ->).
  exists vals. split; [done|]. apply build_topo_ext, ids_markSMT.
Qed.

Lemma makeHWTopo_second_markSMT_unread_witness :
  ∃ topo s' vals,
    makeHWTopo cpulist.parseCPUList host_sibling_only process_start
    = Ok (topo, s') ∧
    parseCPUInfo host_sibling_only process_start = Ok (vals, s') ∧
    topo = build_topo
             (std_sort cpuinfo_lt
                (valid_records cpulist.parseCPUList host_sibling_only
                   (markSMT (std_sort cpuinfo_lt vals)))).
Proof.
  eexists _, _.
  edestruct (makeHWTopo_second_markSMT_unread cpulist.parseCPUList
               host_sibling_only process_start) as (vals & Hvals & Htopo);
    [vm_compute; reflexivity|].
  exists vals. split; [reflexivity|]. split; [exact Hvals|exact Htopo].
Defined.

(** ** One thread of every core comes first *)

Lemma StronglySorted_impl_Forall {A} (R1 R2 : relation A) (P : A → Prop) l :
  (∀ x y, P x → P y → R1 x y → R2 x y) →
  Forall P l → StronglySorted R1 l → StronglySorted R2 l.
Proof.
  intros HR HP Hl. induction Hl as [|x l Hl IH Hx]; [constructor|].
  apply Forall_cons in HP as [Hpx HP]. constructor; [by apply IH|].
  rewrite Forall_forall in Hx, HP. apply Forall_forall. intros y Hy.
  apply HR; auto.
Qed.

Lemma filter_none {A} (P : A → Prop) `{!∀ x, Decision (P x)} (l : list A) :
  Forall (λ x, ¬ P x) l → filter P l = [].
Proof.
  induction 1 as [|x l Hx _ IH]; [done|]. by rewrite filter_cons_False.
Qed.

Lemma filter_all {A} (P : A → Prop) `{!∀ x, Decision (P x)} (l : list A) :
  Forall P l → filter P l = l.
Proof.
  induction 1 as [|x l Hx _ IH]; [done|]. by rewrite filter_cons_True, IH.
Qed.

(** Records without [smt] flag are sorted by core. *)
Lemma sorted_by_core l :
  Forall (λ c, smt c = false) l →
  StronglySorted (not_after cpuinfo_lt) l →
  StronglySorted core_le (core <$> l).
Proof.
  intros Hflags Hl.
  apply (StronglySorted_fmap core (λ a b, core_le (core a) (core b))); [done|].
  eapply (StronglySorted_impl_Forall _ _ (λ c, smt c = false)); [|done..].
  intros a b Ha Hb. rewrite not_after_cpuinfo_lex.
  unfold lex_lt, sort_key, core_le, core. rewrite Ha, Hb. cbn. lia.
Qed.

Lemma core_markSMT_from prev rest :
  core <$> markSMT_from prev rest = core <$> rest.
Proof.
  revert prev. induction rest as [|c rest IH]; intros prev; [done|].
  cbn. by rewrite IH.
Qed.

Lemma core_markSMT info : core <$> markSMT info = core <$> info.
Proof. destruct info as [|c rest]; [done|]. cbn. by rewrite core_markSMT_from. Qed.

(** On records sorted by core, [markSMT] leaves exactly one record of
    every core after the first without flag. *)
Lemma markSMT_from_firsts prev rest :
  StronglySorted core_le (core prev :: (core <$> rest)) →
  let firsts := core <$> unflagged (markSMT_from prev rest) in
  NoDup firsts ∧
  (∀ k, k ∈ firsts → core_le (core prev) k ∧ k ≠ core prev) ∧
  (∀ c, c ∈ rest → core c = core prev ∨ core c ∈ firsts).
Proof.
  revert prev. induction rest as [|c rest IH]; intros prev Hsorted.
  { cbn. split_and!; [constructor|by intros k ?%elem_of_nil..]. }
  apply StronglySorted_inv in Hsorted as [Hrest Hprev].
  apply Forall_cons in Hprev as [Hpc Hprev].
  cbn [markSMT_from]. unfold unflagged. rewrite filter_cons. cbn [smt set_smt].
  set (c' := set_smt _ c).
  specialize (IH c' Hrest). cbn zeta in IH. fold (unflagged (markSMT_from c' rest)) in *.
  destruct IH as (Hnodup & Hafter & Hall).
  change (core c') with (core c) in *.
  assert (Hsame : (physid prev =? physid c) && (coreid prev =? coreid c) = true
                  ↔ core prev = core c).
  { unfold core. rewrite andb_true_iff, !Z.eqb_eq. split; [by intros [-> ->]|].
    by intros [= -> ->]. }
  cbn zeta. destruct (decide (_ = false)) as [Hflag|Hflag].
  - assert (core prev ≠ core c) as Hne.
    { intros Heq%Hsame. congruence. }
    cbn [fmap list_fmap]. change (core c') with (core c). split_and!.
    + constructor; [|done]. intros Hin%Hafter. tauto.
    + intros k [->|Hk]%elem_of_cons; [done|].
      destruct (Hafter k Hk) as [Hck Hne'].
      unfold core_le in *. split; [lia|]. intros ->. apply Hne'.
      destruct (core prev) as [p1 p2], (core c) as [c1 c2]. cbn in *.
      f_equal; lia.
    + intros c0 [->|Hc0]%elem_of_cons; [right; by left|].
      destruct (Hall c0 Hc0) as [->|?]; right; [by left|by right].
  - apply not_false_is_true, Hsame in Hflag. rewrite Hflag. split_and!.
    + done.
    + done.
    + intros c0 [->|Hc0]%elem_of_cons; [by left|]. by apply Hall.
Qed.

Lemma markSMT_firsts info :
  Forall (λ c, smt c = false) info →
  StronglySorted (not_after cpuinfo_lt) info →
  let firsts := core <$> unflagged (markSMT info) in
  NoDup firsts ∧ ∀ k, k ∈ firsts ↔ k ∈ core <$> info.
Proof.
  intros Hflags Hsorted. pose proof (sorted_by_core _ Hflags Hsorted) as Hcores.
  destruct info as [|c rest]; [by split; [constructor|]|].
  apply Forall_cons in Hflags as [Hc _].
  destruct (markSMT_from_firsts c rest Hcores) as (Hnodup & Hafter & Hall).
  cbn [markSMT]. unfold unflagged in *. rewrite filter_cons.
  destruct (decide (smt c = false)); [|done]. cbn [fmap list_fmap]. split.
  - constructor; [|done]. intros Hin%Hafter. tauto.
  - intros k. rewrite !elem_of_cons. split.
    + intros [->|Hk]; [by left|]. right.
      apply list_elem_of_fmap in Hk as (c0 & -> & Hc0).
      apply list_elem_of_filter in Hc0 as [_ Hc0].
      rewrite <- (core_markSMT_from c rest). by apply list_elem_of_fmap_2.
    + intros [->|(c0 & -> & Hc0)%list_elem_of_fmap]; [by left|].
      destruct (Hall c0 Hc0) as [->|?]; [by left|by right].
Qed.

(** In a sorted sequence the records without flag come first. *)
Lemma sorted_unflagged_first l :
  StronglySorted (not_after cpuinfo_lt) l →
  take (length (unflagged l)) l = unflagged l.
Proof.
  unfold unflagged. induction 1 as [|x l Hl IH Hx]; [done|].
  rewrite filter_cons. destruct (decide (smt x = false)) as [Hflag|Hflag].
  - cbn. by rewrite IH.
  - apply not_false_is_true in Hflag.
    assert (filter (λ c, smt c = false) l = []) as ->; [|done].
    apply filter_none. rewrite Forall_forall in Hx. apply Forall_forall.
    intros y Hy Hy'. specialize (Hx y Hy).
    apply not_after_cpuinfo_lex in Hx. apply Hx.
    unfold lex_lt, sort_key. rewrite Hflag, Hy'. cbn. lia.
Qed.

Lemma unflagged_set_valid b l :
  core <$> unflagged (set_valid b <$> l) = core <$> unflagged l.
Proof.
  unfold unflagged. induction l as [|c l IH]; [done|].
  cbn [fmap list_fmap]. rewrite !filter_cons. cbn [smt set_valid].
  destruct (decide (smt c = false)); cbn [fmap list_fmap]; by rewrite IH.
Qed.

(** X7: When no parsed record is excluded, the first [maxCores] records the
    topology is built from are on pairwise distinct cores, and every core
    has one of them: the threads with the compact ids below [maxCores] are
    one thread of every core. *)
Theorem first_threads_on_distinct_cores parseCPUList h s topo s' vals :
  makeHWTopo parseCPUList h s = Ok (topo, s') →
  parseCPUInfo h s = Ok (vals, s') →
  Forall (λ c, allowed parseCPUList h (proc c) = true) vals →
  ∃ info,
    filtered_info parseCPUList h s = Ok (info, s') ∧
    let firsts :=
      take (Z.to_nat (katana.maxCores (katana.machineTopoInfo topo))) info in
    NoDup (core <$> firsts) ∧
    ∀ c, c ∈ info → core c ∈ core <$> firsts.
Proof.
  intros (info & Hinfo & ->)%makeHWTopo_Ok Hparse Hallowed.
  exists info. split; [done|].
  destruct (filtered_info_in_range _ _ _ _ _ Hinfo) as [Hrange Hlen].
  cbn [katana.maxCores katana.machineTopoInfo build_topo].
  rewrite countCores_distinct by done. rewrite Nat2Z.id.
  fold core. change (λ c, (physid c, coreid c)) with core.
  apply filtered_info_Ok in Hinfo as (vals0 & Hparse0 & ->).
  assert (vals0 = vals) as -> by congruence.
  destruct (parseCPUInfo_uniform _ _ _ _ Hparse) as [node Hvals].
  set (A := std_sort cpuinfo_lt vals).
  assert (HA : Forall (λ c, smt c = false) A).
  { unfold A. rewrite std_sort_perm. eapply Forall_impl; [done|]. by intros c []. }
  destruct (std_sort_sorts vals) as [HpA HsA]. fold A in HpA, HsA.
  destruct (markSMT_firsts A HA HsA) as [Hnodup Hfirsts].
  rewrite erase_invalid_markValid.
  assert (filter (λ c, allowed parseCPUList h (proc c) = true) (markSMT A)
          = markSMT A) as ->.
  { apply filter_all, Forall_forall. intros c Hc.
    assert (ids c ∈ ids <$> markSMT A) as Hin by by apply list_elem_of_fmap_2.
    rewrite ids_markSMT in Hin. apply list_elem_of_fmap in Hin as (c0 & Hids & Hc0).
    rewrite Forall_forall in Hallowed. unfold A in Hc0. rewrite std_sort_perm in Hc0.
    specialize (Hallowed c0 Hc0). unfold ids in Hids.
    injection Hids as Hp _ _ _. by rewrite Hp. }
  set (B := set_valid true <$> markSMT A).
  set (D := std_sort cpuinfo_lt B).
  destruct (std_sort_sorts B) as [HpD HsD]. fold D in HpD, HsD.
  assert (HU : core <$> unflagged D ≡ₚ core <$> unflagged (markSMT A)).
  { unfold unflagged at 1. rewrite HpD. fold (unflagged B). unfold B.
    by rewrite unflagged_set_valid. }
  assert (Hcores : core <$> markSMT D ≡ₚ core <$> A).
  { rewrite core_markSMT, HpD. unfold B. rewrite <- list_fmap_compose.
    change (core ∘ set_valid true) with core. by rewrite core_markSMT. }
  assert (Hcount : length (remove_dups (core <$> markSMT D))
                   = length (unflagged D)).
  { rewrite <- (length_fmap core (unflagged D)), HU.
    apply Permutation_length, NoDup_Permutation; [apply NoDup_remove_dups|done|].
    intros k. by rewrite elem_of_remove_dups, Hcores, Hfirsts. }
  rewrite Hcount. cbn zeta.
  assert (Htake : core <$> take (length (unflagged D)) (markSMT D)
                  = core <$> unflagged D).
  { by rewrite fmap_take, core_markSMT, <- fmap_take, sorted_unflagged_first. }
  rewrite Htake, HU. split; [done|].
  intros c Hc. rewrite ?Htake, ?HU. apply Hfirsts. rewrite <- Hcores.
  by apply list_elem_of_fmap_2.
Qed.

Lemma first_threads_on_distinct_cores_witness :
  ∃ topo s' info,
    makeHWTopo cpulist.parseCPUList host_smt process_start = Ok (topo, s') ∧
    filtered_info cpulist.parseCPUList host_smt process_start = Ok (info, s') ∧
    katana.maxCores (katana.machineTopoInfo topo) = 2 ∧
    proc <$> info = [0; 1; 2; 3] ∧
    NoDup (core <$> take 2 info).
Proof.
  eexists _, _.
  edestruct (first_threads_on_distinct_cores cpulist.parseCPUList host_smt
               process_start) as (info & Hinfo & Hnodup & _);
    [vm_compute; reflexivity|vm_compute; reflexivity| |].
  { apply (bool_decide_unpack _). vm_compute. exact I. }
  exists info. split; [reflexivity|]. split; [exact Hinfo|].
  vm_compute in Hinfo. injection Hinfo as <-.
  split; [reflexivity|]. split; [reflexivity|]. exact Hnodup.
Defined.

(** The condition is needed: with three hardware threads on each of two
    cores and the first thread of each core excluded, the threads with the
    compact ids 0 and 1 are processors 1 and 2, both on core 0. *)
Example first_threads_share_core_when_filtered :
  ∃ info s',
    filtered_info cpulist.parseCPUList host_smt_filtered process_start
    = Ok (info, s') ∧
    countCores info = 2 ∧
    (λ c, (proc c, core c)) <$> take 2 info = [(1, (0, 0)); (2, (0, 0))].
Proof. eexists _, _. split; [vm_compute; reflexivity|]. by vm_compute. Qed.

(** ** The running maximum of the package ranks *)

Lemma renumber_cumulative info sockets numaNodes i mid rest k t :
  renumber info sockets numaNodes i mid rest !! k = Some t →
  katana.cumulativeMaxSocket t
  = foldl Z.max mid
      (katana.socket <$> take (S k) (renumber info sockets numaNodes i mid rest)).
Proof.
  revert i mid k. induction rest as [|c rest IH]; intros i mid k; [done|].
  cbn [renumber]. destruct k as [|k].
  - intros [= <-]. done.
  - intros Hk. change ((?x :: ?l) !! S k) with (l !! k) in Hk.
    rewrite (IH _ _ _ Hk). done.
Qed.

Lemma foldl_max_bounds (m : Z) (l : list Z) :
  m ≤ foldl Z.max m l ∧
  (∀ x, x ∈ l → x ≤ foldl Z.max m l) ∧
  (foldl Z.max m l = m ∨ foldl Z.max m l ∈ l).
Proof.
  revert m. induction l as [|x l IH]; intros m.
  { cbn. split_and!; [lia|by intros x ?%elem_of_nil|by left]. }
  cbn [foldl]. destruct (IH (Z.max m x)) as (Hge & Hall & Hatt). split_and!.
  - lia.
  - intros y [->|Hy]%elem_of_cons; [lia|by apply Hall].
  - destruct Hatt as [Heq|Hin]; [|right; by right].
    rewrite Heq. destruct (Z.max_spec m x) as [[_ ->]|[_ ->]];
      [right; by left|by left].
Qed.

Lemma socket_rank info i c t :
  (length info ≤ Z.to_nat INT_MAX)%nat →
  info !! i = Some c →
  katana.threadTopoInfo (build_topo info) !! i = Some t →
  0 ≤ katana.socket t < Z.of_nat (length (remove_dups (physid <$> info))) ∧
  katana.socket t = Z.of_nat (rank_of physid info c).
Proof.
  intros Hlen Hc Ht.
  destruct (build_topo_entry info i c t Hlen Hc Ht) as (_ & _ & Hsocket & _).
  split; [|done]. rewrite Hsocket.
  pose proof (rank_lookup physid info c (list_elem_of_lookup_2 _ _ _ Hc)) as Hr.
  apply lookup_lt_Some in Hr. rewrite (length_set_of Z.ltb) in Hr. lia.
Qed.

Lemma length_build_topo info :
  length (katana.threadTopoInfo (build_topo info)) = length info.
Proof. rewrite build_topo_sets. apply length_renumber. Qed.

(** X8: [cumulativeMaxSocket] of an entry is the largest package rank among
    the entries up to it: no entry up to it has a larger rank, and one of
    them has this rank.  It does not decrease along the sequence, and at the
    last entry it is [maxSockets - 1]. *)
Theorem cumulativeMaxSocket_running_maximum parseCPUList h s topo s' :
  makeHWTopo parseCPUList h s = Ok (topo, s') →
  let tti := katana.threadTopoInfo topo in
  (∀ i t, tti !! i = Some t →
     (∀ j t', (j ≤ i)%nat → tti !! j = Some t' →
        katana.socket t' ≤ katana.cumulativeMaxSocket t ∧
        katana.cumulativeMaxSocket t' ≤ katana.cumulativeMaxSocket t) ∧
     (∃ j t', (j ≤ i)%nat ∧ tti !! j = Some t' ∧
        katana.socket t' = katana.cumulativeMaxSocket t)) ∧
  (∀ t, last tti = Some t →
     katana.cumulativeMaxSocket t
     = katana.maxSockets (katana.machineTopoInfo topo) - 1).
Proof.
  intros (info & Hinfo & ->)%makeHWTopo_Ok.
  destruct (filtered_info_in_range _ _ _ _ _ Hinfo) as [_ Hlen].
  cbn zeta. set (tti := katana.threadTopoInfo (build_topo info)).
  assert (Hlength : length tti = length info) by apply length_build_topo.
  assert (Hsockets : ∀ j t', tti !! j = Some t' →
            0 ≤ katana.socket t'
            < Z.of_nat (length (remove_dups (physid <$> info)))).
  { intros j t' Ht'.
    destruct (lookup_lt_is_Some_2 info j) as [c Hc];
      [rewrite <- Hlength; by eapply lookup_lt_Some|].
    by destruct (socket_rank info j c t' Hlen Hc Ht'). }
  assert (Hmax : ∀ i t, tti !! i = Some t →
            (∀ j t', (j ≤ i)%nat → tti !! j = Some t' →
               katana.socket t' ≤ katana.cumulativeMaxSocket t) ∧
            (∃ j t', (j ≤ i)%nat ∧ tti !! j = Some t' ∧
               katana.socket t' = katana.cumulativeMaxSocket t)).
  { intros i t Ht. pose proof Ht as Hcum. unfold tti in Hcum.
    rewrite build_topo_sets in Hcum. apply renumber_cumulative in Hcum.
    rewrite <- build_topo_sets in Hcum. fold tti in Hcum.
    destruct (foldl_max_bounds 0 (katana.socket <$> take (S i) tti))
      as (Hge & Hall & Hatt).
    rewrite <- Hcum in Hge, Hall, Hatt. split.
    - intros j t' Hj Ht'. apply Hall, list_elem_of_fmap. exists t'.
      split; [done|]. apply (list_elem_of_lookup_2 _ j).
      rewrite lookup_take_lt by lia. done.
    - destruct Hatt as [Hzero|Hin].
      + destruct (lookup_lt_is_Some_2 tti 0) as [t0 Ht0];
          [apply lookup_lt_Some in Ht; lia|].
        exists 0%nat, t0. split_and!; [lia|done|].
        assert (katana.socket t0 ≤ katana.cumulativeMaxSocket t).
        { apply Hall, list_elem_of_fmap. exists t0. split; [done|].
          apply (list_elem_of_lookup_2 _ 0). by rewrite lookup_take_lt by lia. }
        pose proof (Hsockets _ _ Ht0). lia.
      + apply list_elem_of_fmap in Hin as (t' & Heq & Hin).
        apply list_elem_of_lookup_1 in Hin as [j Hj].
        pose proof (lookup_lt_Some _ _ _ Hj) as Hlt.
        rewrite length_take in Hlt.
        rewrite lookup_take_lt in Hj by lia.
        exists j, t'. split_and!; [lia|done..]. }
  split.
  - intros i t Ht. destruct (Hmax i t Ht) as [Hall Hatt]. split; [|done].
    intros j t' Hj Ht'. split; [by eapply Hall|].
    destruct (Hmax j t' Ht') as (_ & k & tk & Hk & Htk & <-).
    eapply Hall; [|done]. lia.
  - intros t Hlast. rewrite last_lookup in Hlast.
    destruct (Hmax _ _ Hlast) as (Hall & j & tj & Hj & Htj & Heq).
    cbn [katana.maxSockets katana.machineTopoInfo build_topo].
    rewrite countSockets_distinct by done.
    pose proof (Hsockets _ _ Htj) as Hbound.
    set (n := length (remove_dups (physid <$> info))) in *.
    destruct (proj1 (rank_onto physid info (n - 1))) as (c & Hc & Hrank);
      [unfold n in *; lia|].
    apply list_elem_of_lookup_1 in Hc as [k Hk].
    destruct (lookup_lt_is_Some_2 tti k) as [tk Htk];
      [rewrite Hlength; by eapply lookup_lt_Some|].
    destruct (socket_rank info k c tk Hlen Hk Htk) as [_ Hsock].
    assert (katana.socket tk ≤ katana.cumulativeMaxSocket t).
    { apply (Hall k); [|done]. apply lookup_lt_Some in Htk. lia. }
    lia.
Qed.

Lemma cumulativeMaxSocket_running_maximum_witness :
  ∃ topo s',
    makeHWTopo cpulist.parseCPUList host_two_packages process_start
    = Ok (topo, s') ∧
    katana.cumulativeMaxSocket <$> katana.threadTopoInfo topo = [0; 0; 1; 1] ∧
    ∀ t, last (katana.threadTopoInfo topo) = Some t →
      katana.cumulativeMaxSocket t
      = katana.maxSockets (katana.machineTopoInfo topo) - 1.
Proof.
  eexists _, _. split; [vm_compute; reflexivity|]. split; [reflexivity|].
  refine (proj2 (cumulativeMaxSocket_running_maximum cpulist.parseCPUList
                   host_two_packages process_start _ _ _)).
  vm_compute; reflexivity.
Defined.

(** ** Threads and valid records *)

(** X9: Every valid record has exactly one thread entry, which carries its
    processor number and its NUMA node as OS ids; there is no other
    entry. *)
Theorem threads_are_valid_records parseCPUList h s topo s' :
  makeHWTopo parseCPUList h s = Ok (topo, s') →
  ∃ vals,
    parseCPUInfo h s = Ok (vals, s') ∧
    os_ids <$> katana.threadTopoInfo topo
    ≡ₚ record_os_ids <$> valid_records parseCPUList h vals.
Proof.
  intros (info & Hinfo & ->)%makeHWTopo_Ok.
  destruct (filtered_info_in_range _ _ _ _ _ Hinfo) as [_ Hlen].
  destruct (filtered_info_valid_records _ _ _ _ _ Hinfo)
    as (vals & Hparse & Hperm).
  exists vals. split; [done|].
  assert (os_ids <$> katana.threadTopoInfo (build_topo info)
          = record_os_ids <$> info) as ->.
  { apply list_eq. intros i. rewrite !list_lookup_fmap.
    destruct (info !! i) as [c|] eqn:Hc.
    - destruct (lookup_lt_is_Some_2 (katana.threadTopoInfo (build_topo info)) i)
        as [t Ht]; [rewrite length_build_topo; by eapply lookup_lt_Some|].
      rewrite Ht. cbn.
      destruct (build_topo_entry info i c t Hlen Hc Ht)
        as (_ & _ & _ & _ & Hctx & Hnode).
      unfold os_ids, record_os_ids. by rewrite Hctx, Hnode.
    - rewrite lookup_ge_None_2; [done|]. rewrite length_build_topo.
      by apply lookup_ge_None_1. }
  assert (Hids : ∀ l, record_os_ids <$> l = (λ k, (k.1.1.1, k.2)) <$> (ids <$> l))
    by (intros l; by rewrite <- list_fmap_compose).
  by rewrite !Hids, Hperm.
Qed.

Lemma threads_are_valid_records_witness :
  ∃ topo s',
    makeHWTopo cpulist.parseCPUList host_package_order process_start
    = Ok (topo, s') ∧
    os_ids <$> katana.threadTopoInfo topo ≡ₚ [(1, 0); (2, 1)].
Proof.
  eexists _, _. split; [vm_compute; reflexivity|].
  edestruct (threads_are_valid_records cpulist.parseCPUList host_package_order
               process_start) as (vals & Hvals & Hperm);
    [vm_compute; reflexivity|].
  vm_compute in Hvals. injection Hvals as <-. exact Hperm.
Defined.

(** ** The order of the counts *)

Lemma distinct_fmap_le `{EqDecision A, EqDecision B} (f : A → B) (l : list A) :
  (length (remove_dups (f <$> l)) ≤ length (remove_dups l))%nat.
Proof.
  rewrite <- (length_fmap f (remove_dups l)).
  apply submseteq_length, NoDup_submseteq; [apply NoDup_remove_dups|].
  intros y. rewrite elem_of_remove_dups, !list_elem_of_fmap.
  intros (x & -> & Hx). exists x. by rewrite elem_of_remove_dups.
Qed.

(** X10: There are at most as many packages as cores and at most as many cores
    and NUMA nodes as threads; a topology with a thread has a package, a
    core and a NUMA node. *)
Theorem machine_counts_ordered parseCPUList h s topo s' :
  makeHWTopo parseCPUList h s = Ok (topo, s') →
  let mti := katana.machineTopoInfo topo in
  katana.maxSockets mti ≤ katana.maxCores mti ≤ katana.maxThreads mti ∧
  katana.maxNumaNodes mti ≤ katana.maxThreads mti ∧
  (0 < katana.maxThreads mti →
   0 < katana.maxSockets mti ∧ 0 < katana.maxNumaNodes mti) ∧
  katana.maxThreads mti = Z.of_nat (length (katana.threadTopoInfo topo)).
Proof.
  intros (info & Hinfo & ->)%makeHWTopo_Ok.
  destruct (filtered_info_in_range _ _ _ _ _ Hinfo) as [Hrange Hlen].
  cbn. rewrite countSockets_distinct, countCores_distinct,
    countNumaNodes_distinct by done.
  rewrite (to_unsigned_length _ (length info)) by done.
  pose proof (distinct_fmap_le fst ((λ c, (physid c, coreid c)) <$> info)) as H1.
  rewrite <- list_fmap_compose in H1.
  change (fst ∘ (λ c, (physid c, coreid c))) with physid in H1.
  pose proof (distinct_le ((λ c, (physid c, coreid c)) <$> info)) as H2.
  pose proof (distinct_le (numaNode <$> info)) as H3.
  rewrite length_fmap in H2. rewrite length_fmap in H3.
  rewrite length_renumber.
  split_and!; [lia..| |done].
  intros Hpos. destruct info as [|c info]; [cbn in Hpos; lia|].
  assert (∀ (l : list Z) x, x ∈ l → (0 < length (remove_dups l))%nat) as Hne.
  { intros l x Hx%elem_of_remove_dups. destruct (remove_dups l); [|cbn; lia].
    by apply elem_of_nil in Hx. }
  pose proof (Hne (physid <$> c :: info) (physid c)) as Hp.
  pose proof (Hne (numaNode <$> c :: info) (numaNode c)) as Hn.
  split; [apply inj_lt in Hp|apply inj_lt in Hn]; by left || lia.
Qed.

Lemma machine_counts_ordered_witness :
  ∃ topo s',
    makeHWTopo cpulist.parseCPUList host_smt process_start = Ok (topo, s') ∧
    katana.machineTopoInfo topo = katana.mk_MachineTopoInfo 4 2 1 1 ∧
    let mti := katana.machineTopoInfo topo in
    katana.maxSockets mti ≤ katana.maxCores mti ≤ katana.maxThreads mti.
Proof.
  eexists _, _. split; [vm_compute; reflexivity|]. split; [reflexivity|].
  refine (proj1 (machine_counts_ordered cpulist.parseCPUList host_smt
                   process_start _ _ _)).
  vm_compute; reflexivity.
Defined.

(** ** No valid record *)

(** X11: When the allowed set excludes every parsed record, and when there is no
    record at all, [makeHWTopo] still returns: the topology has no thread
    entry and all four counts are zero. *)
Theorem makeHWTopo_no_valid_record parseCPUList h s topo s' vals :
  makeHWTopo parseCPUList h s = Ok (topo, s') →
  parseCPUInfo h s = Ok (vals, s') →
  Forall (λ c, allowed parseCPUList h (proc c) = false) vals →
  topo = katana.mk_HWTopoInfo (katana.mk_MachineTopoInfo 0 0 0 0) [].
Proof.
  intros (info & Hinfo & ->)%makeHWTopo_Ok Hparse Hnone.
  destruct (filtered_info_valid_records _ _ _ _ _ Hinfo)
    as (vals0 & Hparse0 & Hperm).
  assert (vals0 = vals) as -> by congruence.
  assert (valid_records parseCPUList h vals = []) as Hempty.
  { unfold valid_records.
    fold (erase_invalid (markValid parseCPUList h vals)).
    rewrite erase_invalid_markValid.
    rewrite filter_none; [done|]. eapply Forall_impl; [done|].
    intros c Hc. cbn in Hc. by rewrite Hc. }
  rewrite Hempty in Hperm. apply Permutation_nil_r, fmap_nil_inv in Hperm.
  by rewrite Hperm.
Qed.

Lemma makeHWTopo_no_valid_record_witness :
  makeHWTopo cpulist.parseCPUList host_none_allowed process_start
  = Ok (katana.mk_HWTopoInfo (katana.mk_MachineTopoInfo 0 0 0 0) [],
        mk_Statics None None None true false None false
          [numa_unconfigured_warning]).
Proof.
  assert (∃ topo s' vals,
            makeHWTopo cpulist.parseCPUList host_none_allowed process_start
            = Ok (topo, s') ∧
            parseCPUInfo host_none_allowed process_start = Ok (vals, s') ∧
            Forall (λ c, allowed cpulist.parseCPUList host_none_allowed (proc c)
                         = false) vals)
    as (topo & s' & vals & Hmake & Hparse & Hnone).
  { eexists _, _, _. split; [vm_compute; reflexivity|].
    split; [vm_compute; reflexivity|].
    apply (bool_decide_unpack _). vm_compute. exact I. }
  rewrite Hmake.
  rewrite (makeHWTopo_no_valid_record _ _ _ _ _ _ Hmake Hparse Hnone).
  vm_compute in Hparse. by injection Hparse as _ <-.
Defined.

(** ** The line of the allowed set *)

Lemma prefix_app (p rest : string) : String.prefix p (p +:+ rest) = true.
Proof.
  induction p as [|c p IH]; [by destruct rest|].
  change (String c p +:+ rest) with (String c (p +:+ rest)).
  cbn [String.prefix]. destruct (ascii_dec c c); [done|congruence].
Qed.

Lemma substr_from_app (p rest : string) :
  substr_from (String.length p) (p +:+ rest) = rest.
Proof. induction p as [|c p IH]; [done|]. apply IH. Qed.

Lemma find_prefixed_first pre line post :
  Forall (λ l, String.prefix prefix l = false) pre →
  String.prefix prefix line = true →
  find_prefixed (pre ++ line :: post) = Some line.
Proof.
  intros Hpre Hline. induction Hpre as [|l pre Hl _ IH]; cbn.
  - by rewrite Hline.
  - by rewrite Hl.
Qed.

(** X12: [parseCPUSet] takes the first line of the status text that starts with
    [Cpus_allowed_list:], whatever follows it, and gives the list parser
    the text after the prefix as it is, white space included. *)
Theorem parseCPUSet_first_prefixed_line parseCPUList h pre rest post :
  proc_self_status h = Some (pre ++ (prefix +:+ rest) :: post) →
  Forall (λ l, String.prefix prefix l = false) pre →
  parseCPUSet parseCPUList h = parseCPUList rest.
Proof.
  intros Hstatus Hpre. unfold parseCPUSet. rewrite Hstatus.
  rewrite (find_prefixed_first pre _ post Hpre (prefix_app _ _)).
  by rewrite substr_from_app.
Qed.

Lemma parseCPUSet_first_prefixed_line_witness :
  parseCPUSet cpulist.parseCPUList host_allowed_list = [0; 1; 3].
Proof.
  rewrite (parseCPUSet_first_prefixed_line cpulist.parseCPUList
             host_allowed_list ["Name:	app"] "	0-1,3" ["Mems_allowed_list:	0"]).
  - reflexivity.
  - reflexivity.
  - by repeat constructor.
Defined.

(** ** The builder adds no failure *)

Lemma makeHWTopo_Err parseCPUList h s e :
  makeHWTopo parseCPUList h s = Err e → parseCPUInfo h s = Err e.
Proof.
  unfold makeHWTopo, filtered_info. unfold_M.
  destruct (parseCPUInfo h s) as [[vals s1]|]; cbn; [discriminate|].
  by intros [= ->].
Qed.

(** ** The texts the parser accepts *)

Lemma parse_loop_numbers debug lines st st' :
  parse_loop debug lines st = Ok st' →
  Forall (λ num, 0 ≤ num < INT_MAX) (processor_numbers lines).
Proof.
  revert st. induction lines as [|line lines IH]; intros st; [constructor|].
  cbn [parse_loop]. unfold mbind, result_bind.
  destruct (parse_line debug st line) as [[vals1 cur1]|] eqn:Hline; [|done].
  intros Hrest%IH. unfold processor_numbers in *. cbn [omap list_omap].
  destruct (classify line) as [num| | | | |] eqn:Hc; try done.
  constructor; [|done]. destruct st as [vals cur].
  destruct (parse_line_processor _ _ _ _ _ _ _ Hc Hline) as [(? & _)|(? & _)];
    done.
Qed.

(** X14: [parseCPUInfo] returns only for a text whose processor numbers are all
    at least 0 and below [INT_MAX]; with debug assertions the numbers also
    have to increase strictly from line to line. *)
Theorem parseCPUInfo_accepted_numbers h s vals s' lines :
  parseCPUInfo h s = Ok (vals, s') →
  proc_cpuinfo h = Some lines →
  Forall (λ num, 0 ≤ num < INT_MAX) (processor_numbers lines) ∧
  (debug_assertions h = true →
   StronglySorted Z.lt (processor_numbers lines)).
Proof.
  intros (lines0 & parsed & cur & Hlines0 & Hloop & _)%parseCPUInfo_Ok Hlines.
  assert (lines0 = lines) as -> by congruence. split.
  - by eapply parse_loop_numbers.
  - intros Hdebug. rewrite Hdebug in Hloop.
    by eapply parse_loop_debug_increasing.
Qed.

Lemma parseCPUInfo_accepted_numbers_witness :
  Forall (λ num, 0 ≤ num < INT_MAX)
    (processor_numbers (cpu_block "0" "0" "0" ++ cpu_block "2" "0" "2")).
Proof.
  refine (proj1 (parseCPUInfo_accepted_numbers host_offline_cpu process_start
                   _ _ (cpu_block "0" "0" "0" ++ cpu_block "2" "0" "2") _ _)).
  - vm_compute; reflexivity.
  - reflexivity.
Defined.

(** ** The mask of the affinity call *)

Lemma CPU_SET_bits cpu i :
  0 ≤ cpu → 0 ≤ i →
  Z.testbit (CPU_SET cpu 0) i = (cpu <? CPU_SETSIZE) && (i =? cpu).
Proof.
  intros Hcpu Hi. unfold CPU_SET. destruct (cpu <? CPU_SETSIZE); cbn [andb].
  - rewrite Z.lor_0_l, Z.shiftl_1_l. destruct (i =? cpu) eqn:Heq.
    + apply Z.eqb_eq in Heq as ->. by apply Z.pow2_bits_true.
    + apply Z.eqb_neq in Heq. apply Z.pow2_bits_false. lia.
  - apply Z.bits_0.
Qed.

(** X15: With affinity support, [bindThreadSelf] asks for a mask in which the
    bit of [osContext] is set and no other; for an [osContext] of
    [CPU_SETSIZE] (1024) or more [CPU_SET] sets no bit and the mask is
    empty.  The answer is [true], and nothing is written, exactly when
    [sched_setaffinity] does not yield -1 on this mask. *)
Theorem bindThreadSelf_mask h osContext s :
  KATANA_USE_SCHED_SETAFFINITY h = true →
  0 ≤ osContext →
  ∃ mask b s',
    (∀ i, 0 ≤ i →
       Z.testbit mask i = (osContext <? CPU_SETSIZE) && (i =? osContext)) ∧
    (CPU_SETSIZE ≤ osContext → mask = 0) ∧
    bindThreadSelf h osContext s = Ok (b, s') ∧
    (b = true ↔ (sched_setaffinity h mask).1 ≠ -1) ∧
    (b = true → s' = s).
Proof.
  intros Hbuild Hctx. exists (CPU_SET osContext 0).
  destruct (bindThreadSelf_call h osContext s) as (b & s' & Hcall & _ & Hsup).
  exists b, s'. destruct (Hsup Hbuild) as [Hfail Hok]. cbn zeta in *.
  split_and!; [|..|done| |].
  - intros i Hi. by apply CPU_SET_bits.
  - intros Hbig. unfold CPU_SET. destruct (osContext <? CPU_SETSIZE) eqn:Hlt; [lia|done].
  - destruct (decide ((sched_setaffinity h (CPU_SET osContext 0)).1 = -1)) as [Heq|Hne].
    + destruct (Hfail Heq) as [-> _]. split; [done|]. by intros [].
    + by destruct (Hok Hne) as [-> _].
  - intros ->.
    destruct (decide ((sched_setaffinity h (CPU_SET osContext 0)).1 = -1)) as [Heq|Hne].
    + by destruct (Hfail Heq).
    + by destruct (Hok Hne).
Qed.

Lemma bindThreadSelf_mask_witness :
  ∃ s',
    bindThreadSelf host_affinity 3 process_start = Ok (true, s') ∧
    bindThreadSelf host_affinity 5000 process_start
    = Ok (false, mk_Statics None None None false false None false
                   ["Could not set CPU affinity to 5000(Invalid argument)"]).
Proof.
  destruct (bindThreadSelf_mask host_affinity 3 process_start eq_refl)
    as (mask & b & s' & _ & _ & Hcall & _ & _); [lia|].
  exists s'. split; [|reflexivity].
  vm_compute in Hcall. injection Hcall as <- <-. reflexivity.
Defined.

(** ** The lines of the kernel *)

Lemma isdigit_char c :
  isdigit c = true →
  isspace c = false ∧ Ascii.eqb c "-" = false ∧ Ascii.eqb c "+" = false ∧
  Ascii.eqb c "000" = false.
Proof. by destruct c as [[] [] [] [] [] [] [] []]. Qed.

Lemma pretty_N_char_digit x :
  (x < 10)%N →
  isdigit (pretty_N_char x) = true ∧ digit_value (pretty_N_char x) = Z.of_N x.
Proof.
  intros Hx.
  assert (x = 0 ∨ x = 1 ∨ x = 2 ∨ x = 3 ∨ x = 4 ∨ x = 5 ∨ x = 6 ∨ x = 7
          ∨ x = 8 ∨ x = 9)%N as Hcases by lia.
  by repeat destruct Hcases as [->|Hcases]; [..|subst x].
Qed.

Lemma string_app_nil_l (s : string) : "" +:+ s = s.
Proof. done. Qed.

Lemma string_app_cons c (p s : string) : String c p +:+ s = String c (p +:+ s).
Proof. done. Qed.

Lemma all_digits_snoc p c :
  all_digits p = true → isdigit c = true →
  all_digits (p +:+ String c "") = true.
Proof.
  intros Hp Hc. induction p as [|c0 p IH];
    rewrite ?string_app_nil_l, ?string_app_cons; cbn [all_digits];
    [by rewrite Hc|].
  cbn [all_digits] in Hp. apply andb_true_iff in Hp as [-> Hp]. by apply IH.
Qed.

Lemma scan_digits_snoc acc p c :
  all_digits p = true → isdigit c = true →
  scan_digits acc (p +:+ String c "") = 10 * scan_digits acc p + digit_value c.
Proof.
  intros Hp Hc. revert acc.
  induction p as [|c0 p IH]; intros acc;
    rewrite ?string_app_nil_l, ?string_app_cons; cbn [scan_digits].
  { by rewrite Hc. }
  cbn [all_digits] in Hp. apply andb_true_iff in Hp as [Hc0 Hp].
  rewrite Hc0. by apply IH.
Qed.

Lemma string_app_snoc (p : string) c s :
  p +:+ String c s = (p +:+ String c "") +:+ s.
Proof.
  induction p as [|c0 p IH]; [done|]. by rewrite !string_app_cons, IH.
Qed.

(** The digits [pretty] puts before [s]. *)
Lemma pretty_N_go_digits x s :
  ∃ p, pretty_N_go x s = p +:+ s ∧ all_digits p = true ∧
       scan_digits 0 p = Z.of_N x ∧ ((0 < x)%N → p ≠ "").
Proof.
  revert s. induction (N.lt_wf_0 x) as [x _ IH]; intros s.
  destruct (decide (x = 0)%N) as [->|Hx].
  { exists "". rewrite pretty_N_go_0. split_and!; [done..|lia]. }
  rewrite pretty_N_go_step by lia.
  destruct (IH (x `div` 10)%N) with (s := String (pretty_N_char (x `mod` 10)) s)
    as (p & -> & Hp & Hval & _); [apply N.div_lt; lia|].
  destruct (pretty_N_char_digit (x `mod` 10)) as [Hd Hv];
    [apply N.mod_lt; lia|].
  exists (p +:+ String (pretty_N_char (x `mod` 10)) "").
  split_and!.
  - apply string_app_snoc.
  - by apply all_digits_snoc.
  - rewrite scan_digits_snoc, Hval, Hv by done.
    rewrite (N.div_mod x 10) at 3 by done. lia.
  - intros _. by destruct p.
Qed.

Lemma pretty_digits num :
  0 ≤ num →
  ∃ c p, pretty num = String c p ∧ isdigit c = true ∧ all_digits p = true ∧
         scan_digits 0 (String c p) = num.
Proof.
  intros Hnum. destruct num as [|x|x]; [by exists "0"%char, ""| |lia].
  unfold pretty, pretty_Z, pretty, pretty_positive, pretty, pretty_N.
  rewrite decide_False by done.
  destruct (pretty_N_go_digits (N.pos x) "") as (p & -> & Hp & Hval & Hne).
  assert (p +:+ "" = p) as ->.
  { clear. induction p as [|c p IH]; [done|]. by rewrite string_app_cons, IH. }
  destruct p as [|c p]; [by destruct Hne|].
  cbn [all_digits] in Hp. apply andb_true_iff in Hp as [Hc Hp].
  exists c, p. by split_and!.
Qed.

Lemma c_str_digits p : all_digits p = true → c_str p = p.
Proof.
  induction p as [|c p IH]; [done|]. cbn [all_digits c_str].
  intros [Hc Hp]%andb_true_iff.
  destruct (isdigit_char c Hc) as (_ & _ & _ & ->). by rewrite IH.
Qed.

Lemma scan_d_digits c p :
  isdigit c = true →
  scan_d (String c p) = Some (store_int (scan_digits 0 (String c p))).
Proof.
  intros Hc. destruct (isdigit_char c Hc) as (Hs & Hm & Hp & _).
  unfold scan_d. cbn [skip_space]. rewrite Hs, Hm, Hp. by rewrite Hc.
Qed.

Lemma store_int_small num : 0 ≤ num ≤ INT_MAX → store_int num = num.
Proof.
  intros Hnum. unfold store_int, LONG_MIN, LONG_MAX, INT_MAX in *.
  rewrite Z.min_r, Z.max_r by lia. apply to_int_small.
  unfold INT_MIN, INT_MAX. lia.
Qed.

Lemma skip_space_digits c p : isdigit c = true → skip_space (String c p) = String c p.
Proof.
  intros Hc. destruct (isdigit_char c Hc) as (Hs & _). cbn [skip_space].
  by rewrite Hs.
Qed.

(** The five formats on a line that ends in [tail]: the tests on the
    characters before [tail] are decided by computation. *)
Lemma classify_tail tail :
  let scanned := scan_d (skip_space (c_str tail)) in
  classify ("processor	" +:+ ": " +:+ tail)
  = from_option Processor Unrecognised scanned ∧
  classify ("physical id	" +:+ ": " +:+ tail)
  = from_option PhysicalId Unrecognised scanned ∧
  classify ("siblings	" +:+ ": " +:+ tail)
  = from_option Siblings Unrecognised scanned ∧
  classify ("core id		" +:+ ": " +:+ tail)
  = from_option CoreId Unrecognised scanned ∧
  classify ("cpu cores	" +:+ ": " +:+ tail)
  = from_option CpuCores Unrecognised scanned.
Proof. split_and!; cbv -[scan_d]; reflexivity. Qed.

(** X16: The parser reads the lines the kernel writes: for every number from 0
    to [INT_MAX], a line made of the name of a field, tabs, a colon, a space
    and the decimal digits of the number is recognised as this field with
    this number. *)
Theorem classify_kernel_line num :
  0 ≤ num ≤ INT_MAX →
  classify (kernel_line "processor	" num) = Processor num ∧
  classify (kernel_line "physical id	" num) = PhysicalId num ∧
  classify (kernel_line "siblings	" num) = Siblings num ∧
  classify (kernel_line "core id		" num) = CoreId num ∧
  classify (kernel_line "cpu cores	" num) = CpuCores num.
Proof.
  intros Hnum. unfold kernel_line.
  destruct (pretty_digits num) as (c & p & -> & Hc & Hp & Hval); [lia|].
  assert (Hscan : scan_d (String c p) = Some num).
  { rewrite scan_d_digits, Hval by done. by rewrite store_int_small. }
  destruct (classify_tail (String c p)) as (H1 & H2 & H3 & H4 & H5).
  rewrite c_str_digits in H1, H2, H3, H4, H5
    by (cbn [all_digits]; by rewrite Hc, Hp).
  rewrite skip_space_digits, Hscan in H1, H2, H3, H4, H5 by done.
  done.
Qed.

Lemma classify_kernel_line_witness :
  classify "processor	: 2147483647" = Processor 2147483647 ∧
  classify "core id		: 2147483647" = CoreId 2147483647.
Proof.
  destruct (classify_kernel_line 2147483647) as (Hp & _ & _ & Hc & _).
  - apply (bool_decide_unpack _). vm_compute. exact I.
  - split; [exact Hp|exact Hc].
Defined.

(** ** Lines without effect, and the number of threads *)

Lemma parse_line_not_recognised debug st line :
  recognised line = false → parse_line debug st line = Ok st.
Proof.
  unfold recognised. intros Hline. apply parse_line_unrecognised.
  by destruct (classify line).
Qed.

Lemma parse_loop_recognised debug lines st :
  parse_loop debug (filter (λ line, recognised line = true) lines) st
  = parse_loop debug lines st.
Proof.
  revert st. induction lines as [|line lines IH]; intros st; [done|].
  rewrite filter_cons. destruct (decide (recognised line = true)) as [Hr|Hr].
  - cbn [parse_loop]. unfold mbind, result_bind.
    by destruct (parse_line debug st line).
  - apply not_true_is_false in Hr. cbn [parse_loop].
    rewrite (parse_line_not_recognised _ _ _ Hr). apply IH.
Qed.

(** X17: The lines of /proc/cpuinfo that none of the five formats converts
    (model name, flags, empty lines, ...) have no effect: the line loop gives
    the same records, or fails in the same way, on the text without them. *)
Theorem parse_lines_ignores_other_lines debug lines :
  parse_lines debug (filter (λ line, recognised line = true) lines)
  = parse_lines debug lines.
Proof. unfold parse_lines. by rewrite parse_loop_recognised. Qed.

(** X18: Without a restriction by the allowed set, [maxThreads] is the number of
    the last [processor] line plus one, whatever the number of [processor]
    lines is: a processor number that the text skips still gets a record
    and a thread entry. *)
Theorem maxThreads_unrestricted parseCPUList h s topo s' lines :
  makeHWTopo parseCPUList h s = Ok (topo, s') →
  proc_cpuinfo h = Some lines →
  parseCPUSet parseCPUList h = [] →
  katana.maxThreads (katana.machineTopoInfo topo)
  = default (-1) (last (processor_numbers lines)) + 1 ∧
  length (katana.threadTopoInfo topo)
  = Z.to_nat (default (-1) (last (processor_numbers lines)) + 1).
Proof.
  intros (info & Hinfo & ->)%makeHWTopo_Ok Hlines Hset.
  destruct (filtered_info_in_range _ _ _ _ _ Hinfo) as [_ Hlen].
  destruct (filtered_info_valid_records _ _ _ _ _ Hinfo)
    as (vals & Hparse & Hperm).
  apply parseCPUInfo_Ok in Hparse
    as (lines0 & parsed & cur & Hlines0 & Hloop & Hnuma).
  assert (lines0 = lines) as -> by congruence.
  destruct (parse_loop_length _ _ _ _ Hloop) as (<- & Hcur & Hparsed).
  assert (length info = Z.to_nat (cur + 1)) as Hinfo_len.
  { apply Permutation_length in Hperm. rewrite !length_fmap in Hperm.
    rewrite Hperm. unfold valid_records.
    fold (erase_invalid (markValid parseCPUList h vals)).
    rewrite erase_invalid_markValid.
    rewrite filter_all, length_fmap.
    - by rewrite <- (Forall2_length _ _ _ Hnuma).
    - apply Forall_forall. intros c _. unfold allowed. by rewrite Hset. }
  rewrite length_build_topo. split; [|done]. cbn.
  rewrite (to_unsigned_length _ (length info)) by done. lia.
Qed.

Lemma maxThreads_unrestricted_witness :
  ∃ topo s',
    makeHWTopo cpulist.parseCPUList host_offline_cpu process_start
    = Ok (topo, s') ∧
    length (processor_numbers (cpu_block "0" "0" "0" ++ cpu_block "2" "0" "2"))
    = 2%nat ∧
    katana.maxThreads (katana.machineTopoInfo topo) = 3 ∧
    katana.osContext <$> katana.threadTopoInfo topo = [0; 2; 0].
Proof.
  eexists _, _. split; [vm_compute; reflexivity|].
  split; [reflexivity|]. split; [|reflexivity].
  refine (proj1 (maxThreads_unrestricted cpulist.parseCPUList host_offline_cpu
                   process_start _ _ _ _ eq_refl eq_refl)).
  vm_compute; reflexivity.
Defined.
